(** * BLDC-Simulation: the sweep orchestration of [src/femm_runner.py] and
    [src/modelica_runner.py]

    The two runners are embedded as functions over an explicit world (the
    file system under the configured directories, the calls issued to the
    FEMM scripting session, the solver processes started, and the lines
    printed).  Python exceptions are a result type, [try]/[except]/[finally]
    are combinators, and the two external tools are oracles: they answer and
    raise, and the files are those that the runners themselves read, write
    and remove. *)

From Stdlib Require Import ZArith QArith Qabs Qround Lia List.
From Stdlib Require Import PrimFloat FloatOps FloatAxioms SpecFloat.
From Stdlib Require Import Ascii String DecimalString DecimalPos DecimalZ.
From stdpp Require Import gmap strings list.

Local Open Scope string_scope.
Local Open Scope list_scope.

(** ** Strings *)

Module Str.

Definition NL : string := String "010"%char EmptyString.

(** [s.replace(old, new)] for one-character [old] and [new]. *)
Fixpoint replace (old new : ascii) (s : string) : string :=
  match s with
  | EmptyString => EmptyString
  | String c s' =>
      String (if Ascii.eqb c old then new else c) (replace old new s')
  end.

(** Every character of [s] passes [P]. *)
Fixpoint all (P : ascii -> bool) (s : string) : bool :=
  match s with
  | EmptyString => true
  | String a s' => P a && all P s'
  end.

(** The character [c] does not occur in [s]. *)
Definition lacks (c : ascii) (s : string) : bool :=
  all (fun a => negb (Ascii.eqb a c)) s.

(** The characters of [str(x)] for the scalars of the configuration. *)
Definition is_num_char (a : ascii) : bool :=
  negb (lacks a "0123456789-.").

Fixpoint last_char (s : string) : option ascii :=
  match s with
  | EmptyString => None
  | String a EmptyString => Some a
  | String _ s' => last_char s'
  end.

Definition starts_with_dash (s : string) : bool :=
  match s with
  | String c _ => Ascii.eqb c "-"
  | EmptyString => false
  end.

End Str.

(** ** Scalars of the configuration

    [yaml.safe_load] gives an [int] for [0] and a [float] for [0.0], and the
    runners never coerce.  A float is kept as the decimal digits that [repr]
    prints for it in fixed notation (sign, integer digits, fraction digits),
    which is what the f-strings of the result keys show. *)

Inductive pynum : Type :=
| PyInt (z : Z)
| PyFloat (neg : bool) (ipart fpart : Decimal.uint).

Definition zero_int : pynum := PyInt 0.
Definition zero_float : pynum :=
  PyFloat false (Decimal.D0 Decimal.Nil) (Decimal.D0 Decimal.Nil).

(** [str(x)], which is what [f"{x}"] inserts. *)
Definition py_str (x : pynum) : string :=
  match x with
  | PyInt z => NilZero.string_of_int (Z.to_int z)
  | PyFloat s i f =>
      (if s then "-" else EmptyString)
        +:+ NilEmpty.string_of_uint i +:+ "." +:+ NilEmpty.string_of_uint f
  end.

(** [-x] *)
Definition py_neg (x : pynum) : pynum :=
  match x with
  | PyInt z => PyInt (- z)
  | PyFloat s i f => PyFloat (negb s) i f
  end.

(** The number a scalar denotes. *)
Definition py_val (x : pynum) : Q :=
  match x with
  | PyInt z => inject_Z z
  | PyFloat s i f =>
      let m := (Z.of_uint i * 10 ^ Z.of_nat (Decimal.nb_digits f) + Z.of_uint f)%Z in
      let q := Qmake m (Z.to_pos (10 ^ Z.of_nat (Decimal.nb_digits f))) in
      if s then Qopp q else q
  end.

(** [x != 0.0] *)
Definition py_nonzero (x : pynum) : bool :=
  match x with
  | PyInt z => negb (z =? 0)%Z
  | PyFloat _ i f => negb ((Z.of_uint i =? 0)%Z && (Z.of_uint f =? 0)%Z)
  end.

(** ** Float arithmetic

    The sweep computes with Python floats.  The runners are written once over
    this interface.  [float_arith] is the arithmetic of the code: IEEE
    binary64 as CPython and NumPy compute.  [exact_arith], the rationals, is
    not: no operation rounds there.  It serves worked inputs and the
    comparison of a rounded count with the count that exact arithmetic would
    give; what is stated of the code is stated for every instance, or at
    [float_arith]. *)

Class Arith (F : Type) : Type := {
  of_Z : Z -> F;                 (* int to float *)
  of_num : pynum -> F;           (* a configuration scalar as a float *)
  fadd : F -> F -> F;
  fsub : F -> F -> F;
  fmul : F -> F -> F;
  fdiv : F -> F -> F;
  fneg : F -> F;
  fpi : F;                       (* math.pi *)
  fis_zero : F -> bool;          (* x == 0.0 *)
  fceil : F -> option Z;         (* ceil as an integer; None on inf and nan *)
  fval : F -> Q                  (* the number a finite float denotes *)
}.

(** Negation is exact: the law behind every undo of the sweep. *)
Class ArithNeg (F : Type) `{Arith F} : Prop :=
  fval_fneg : forall x : F, (fval (fneg x) == - fval x)%Q.

Module Binary64.

Definition Z2F (z : Z) : float := SF2Prim (binary_normalize 53 1024 z 0 false).

(** Nearest binary64 to a non-negative rational, ties to even: the quotient
    is taken with 64 spare bits and a sticky bit, then rounded once. *)
Definition Q2F (q : Q) : float :=
  let n := Qnum q in
  let d := Z.pos (Qden q) in
  let p := (64 + Z.log2 d)%Z in
  let a := (n * 2 ^ p)%Z in
  let sticky := if (a mod d =? 0)%Z then 0%Z else 1%Z in
  SF2Prim (binary_normalize 53 1024 (2 * (a / d) + sticky) (- (p + 1)) false).

Definition num2F (x : pynum) : float :=
  match x with
  | PyInt z => Z2F z
  | PyFloat s _ _ =>
      let a := Q2F (Qabs (py_val x)) in if s then PrimFloat.opp a else a
  end.

Definition Zceil_div (a b : Z) : Z := (- ((- a) / b))%Z.

Definition SFval (x : spec_float) : Q :=
  match x with
  | S754_finite s m e =>
      let v := if s then Z.neg m else Z.pos m in
      if (0 <=? e)%Z then inject_Z (v * 2 ^ e)
      else Qmake v (Z.to_pos (2 ^ (- e)))
  | _ => 0%Q
  end.

Definition SFceil (x : spec_float) : option Z :=
  match x with
  | S754_zero _ => Some 0%Z
  | S754_finite s m e =>
      let v := if s then Z.neg m else Z.pos m in
      Some (if (0 <=? e)%Z then (v * 2 ^ e)%Z else Zceil_div v (2 ^ (- e)))
  | _ => None
  end.

End Binary64.

#[export] Instance float_arith : Arith float := {|
  of_Z := Binary64.Z2F;
  of_num := Binary64.num2F;
  fadd := PrimFloat.add;
  fsub := PrimFloat.sub;
  fmul := PrimFloat.mul;
  fdiv := PrimFloat.div;
  fneg := PrimFloat.opp;
  fpi := PrimFloat.div (Binary64.Z2F 7074237752028440) (Binary64.Z2F 2251799813685248);
  fis_zero := fun x => PrimFloat.eqb x PrimFloat.zero;
  fceil := fun x => Binary64.SFceil (Prim2SF x);
  fval := fun x => Binary64.SFval (Prim2SF x)
|}.

#[export] Instance exact_arith : Arith Q := {|
  of_Z := inject_Z;
  of_num := py_val;
  fadd := Qplus;
  fsub := Qminus;
  fmul := Qmult;
  fdiv := Qdiv;
  fneg := Qopp;
  fpi := Qmake 7074237752028440 2251799813685248;
  fis_zero := fun x => Qeq_bool x 0;
  fceil := fun x => Some (Qceiling x);
  fval := fun x => x
|}.

(** ** Configuration ([config/params.yaml] as the runners read it) *)

Record motor : Type := { poles : Z }.

Record config : Type := {
  paths_cad : string;
  paths_results : string;
  paths_modelica_model_template : string;
  motors : list (string * motor);          (* a dict, in insertion order *)
  static_ecc_mm : list pynum;              (* geometry_errors *)
  dynamic_ecc_mm : list pynum;
  tilt_deg : list pynum;
  sweep_step_elec_deg : pynum;             (* femm *)
  controllers : list string;               (* system *)
  hil_freq_kHz : list pynum;
  speed_rpm : list pynum;
  encoder_bits : Z;
  sim_time_s : pynum
}.

(** [os.path.join] of a directory and a relative file name, the separator
    written [/]. *)
Definition path_join (dir name : string) : string := dir +:+ "/" +:+ name.

(** [itertools.product] of three lists: the rightmost advances fastest. *)
Definition product3 {A B C : Type} (xs : list A) (ys : list B) (zs : list C)
  : list (A * B * C) :=
  flat_map (fun x => flat_map (fun y => map (fun z => (x, y, z)) zs) ys) xs.

Definition enumerate {A : Type} (l : list A) : list (nat * A) :=
  combine (seq 0 (length l)) l.

(** The case dictionary of [run_femm_simulations]. *)
Record case_dict : Type := {
  case_static_ecc_mm : pynum;
  case_dynamic_ecc_mm : pynum;
  case_tilt_deg : pynum
}.

(** ** Result keys *)

(** [f"static_{combo[0]}_dyn_{combo[1]}_tilt_{combo[2]}"] *)
Definition femm_case_name (combo : pynum * pynum * pynum) : string :=
  let '(c0, c1, c2) := combo in
  "static_" +:+ py_str c0 +:+ "_dyn_" +:+ py_str c1 +:+ "_tilt_" +:+ py_str c2.

(** [f"{motor_id}_{case_name.replace('.', 'p')}.csv"] *)
Definition output_filename (motor_id case_name : string) : string :=
  motor_id +:+ "_" +:+ Str.replace "." "p" case_name +:+ ".csv".

(** The key under which stage 1 stores a case. *)
Definition femm_key (motor_id : string) (combo : pynum * pynum * pynum) : string :=
  output_filename motor_id (femm_case_name combo).

(** The text of a scalar inside a stage 1 key, and its characters. *)
Definition key_text (x : pynum) : string := Str.replace "." "p" (py_str x).

Definition is_key_char (a : ascii) : bool := Str.is_num_char a || Ascii.eqb a "p".

(** [f"{motor_id}_static_0p0_dyn_0p0_tilt_0p0.csv"] *)
Definition nominal_case_name (motor_id : string) : string :=
  motor_id +:+ "_static_0p0_dyn_0p0_tilt_0p0.csv".

(** [f"{motor_id}_{controller}_{freq_khz}kHz_{rpm}rpm"] *)
Definition system_case_name (motor_id controller : string) (freq_khz rpm : pynum)
  : string :=
  motor_id +:+ "_" +:+ controller +:+ "_" +:+ py_str freq_khz +:+ "kHz_"
    +:+ py_str rpm +:+ "rpm".

(** [f"{sim_output_prefix}_res.csv"] (line 118): the file that a solver
    leaves for [fileNamePrefix]. *)
Definition res_csv (prefix : string) : string := prefix +:+ "_res.csv".

(** ** Exceptions and control flow *)

Inductive exn : Type :=
| FemmError (msg : string)
| ZeroDivisionError
| ValueError
| FileNotFoundError
| CalledProcessError (stderr : string)
| PermissionError
| UnicodeDecodeError
| OtherError (text : string).

Definition exn_str (e : exn) : string :=
  match e with
  | FemmError msg => msg
  | ZeroDivisionError => "division by zero"
  | ValueError => "arange: cannot compute length"
  | FileNotFoundError => "[Errno 2] No such file or directory"
  | CalledProcessError _ => "Command returned non-zero exit status"
  | PermissionError => "[Errno 13] Permission denied"
  | UnicodeDecodeError => "'utf-8' codec can't decode byte"
  | OtherError text => text
  end.

Inductive result (A : Type) : Type :=
| Ok (a : A)
| Raise (e : exn).
Arguments Ok {A} a.
Arguments Raise {A} e.

(** How a loop body ends: it falls through (or [continue]s) to the next
    iteration, or the enclosing function [return]s. *)
Inductive flow : Type := Next | Return.

(** The outcome of [subprocess.run(cmd, check=True, capture_output=True,
    text=True)]: the executable is not found ([FileNotFoundError]); the
    process exited nonzero ([CalledProcessError], with the decoded stderr);
    it exited zero (the captured output is returned and the runner drops
    it); or the call raises something else, such as [PermissionError] for a
    file that cannot be executed or [UnicodeDecodeError] for captured output
    that does not decode, which is raised before the exit status is looked
    at. *)
Inductive omc_outcome : Type :=
| ExecutableMissing
| NonZeroExit (stderr : string)
| OmcSuccess (output : string)
| OmcRaises (e : exn).

(** The script of [_create_simulation_script], by its three holes. *)
Record mos_script : Type := {
  mos_model_name : string;
  mos_stop_time : pynum;
  mos_output_path : string
}.

Definition _create_simulation_script (model_name : string) (stop_time : pynum)
  (output_path : string) : mos_script :=
  {| mos_model_name := model_name;
     mos_stop_time := stop_time;
     mos_output_path := output_path |}.

(** ** The world of the runners *)

Section Runners.

Context {F : Type} `{Arith F}.

(** The calls of the FEMM scripting session that the runner issues. *)
Inductive femm_call : Type :=
| openfemm
| opendocument (path : string)
| mi_selectgroup (g : Z)
| mi_movetranslate (dx dy : pynum)
| mi_rotate (cx cy : Z) (angle : F)
| mi_analyze (flag : Z)
| mi_loadsolution
| mo_selectblock (g : Z)
| mo_blockintegral (kind : Z)
| closefemm.

(** A torque curve: the rows [(theta_deg, torque_Nm)] of the data frame. *)
Definition frame : Type := list (F * F).

(** The named holes of the model template. *)
Record model_bindings : Type := {
  csv_file_path : string;
  motor_poles : Z;
  target_speed_rad_per_s : F;
  hil_ts : F;
  encoder_resolution : Z;
  controller_type : string
}.

Inductive file : Type :=
| FText (text : string)                             (* an asset: DXF, template *)
| FTorque (rows : frame)                            (* [to_csv] of stage 1 *)
| FModel (template : string) (b : model_bindings)   (* [model_template.format] *)
| FScript (s : mos_script)                          (* [run_sim.mos] *)
| FSim (table : string).                            (* a solver's [_res.csv] *)

Definition file_text (f : file) : string :=
  match f with
  | FText t => t
  | FModel t _ => t
  | FSim t => t
  | _ => EmptyString
  end.

(** One [subprocess.run]: the command and the script it found. *)
Record proc_run : Type := {
  proc_cmd : list string;
  proc_script : option file
}.

Record world : Type := World {
  fs : gmap string file;          (* path to content *)
  femm_log : list femm_call;      (* calls issued so far, oldest first *)
  proc_log : list proc_run;       (* processes started so far *)
  stdout : list string            (* lines printed so far *)
}.

(** The FEMM session answers a call, given the calls before it, with a number
    or an exception; the start of the solver, given how many starts there
    were before and the files that are there, has one of the outcomes of
    [omc_outcome]. *)
Variable femm_engine : list femm_call -> femm_call -> result F.
Variable omc_engine : nat -> gmap string file -> omc_outcome.

(** *** State and exceptions *)

Definition M (A : Type) : Type := world -> result A * world.

#[export] Instance M_ret : MRet M := fun A a w => (Ok a, w).

#[export] Instance M_bind : MBind M := fun A B f m w =>
  match m w with
  | (Ok a, w') => f a w'
  | (Raise e, w') => (Raise e, w')
  end.

Definition raise {A : Type} (e : exn) : M A := fun w => (Raise e, w).

Definition try_except {A : Type} (body : M A) (handler : exn -> M A) : M A :=
  fun w =>
    match body w with
    | (Ok a, w') => (Ok a, w')
    | (Raise e, w') => handler e w'
    end.

Definition try_finally {A : Type} (body : M A) (final : M unit) : M A :=
  fun w =>
    let '(r, w') := body w in
    match final w' with
    | (Ok _, w'') => (r, w'')
    | (Raise e, w'') => (Raise e, w'')
    end.

Fixpoint for_each {A : Type} (l : list A) (body : A -> M flow) : M flow :=
  match l with
  | [] => mret Next
  | x :: l' =>
      r ← body x;
      match r with
      | Next => for_each l' body
      | Return => mret Return
      end
  end.

(** A loop that appends one row per iteration. *)
Fixpoint for_collect {A B : Type} (l : list A) (body : A -> M B) : M (list B) :=
  match l with
  | [] => mret []
  | x :: l' => b ← body x; bs ← for_collect l' body; mret (b :: bs)
  end.

Definition print (line : string) : M unit := fun w =>
  (Ok tt, World (fs w) (femm_log w) (proc_log w) (stdout w ++ [line])).

Definition femm (c : femm_call) : M F := fun w =>
  (femm_engine (femm_log w) c,
   World (fs w) (femm_log w ++ [c]) (proc_log w) (stdout w)).

Definition path_exists (p : string) : M bool := fun w =>
  (Ok (bool_decide (is_Some (fs w !! p))), w).

Definition write_file (p : string) (f : file) : M unit := fun w =>
  (Ok tt, World (<[p := f]> (fs w)) (femm_log w) (proc_log w) (stdout w)).

Definition remove_file (p : string) : M unit := fun w =>
  (Ok tt, World (delete p (fs w)) (femm_log w) (proc_log w) (stdout w)).

(** [a / b] on Python floats *)
Definition py_div (a b : F) : M F :=
  if fis_zero b then raise ZeroDivisionError else mret (fdiv a b).

(** [np.arange(start, stop, step)] on floats: [ceil((stop - start)/step)]
    values [start + i*step]; no length for a zero step, inf or nan. *)
Definition arange_len (start stop step : F) : option nat :=
  if fis_zero step then None
  else Z.to_nat <$> fceil (fdiv (fsub stop start) step).

Definition np_arange (start stop step : F) : M (list F) :=
  match arange_len start stop step with
  | None => raise ValueError
  | Some n =>
      mret ((fun i => fadd start (fmul (of_Z (Z.of_nat i)) step)) <$> seq 0 n)
  end.

(** *** Stage 1: [femm_runner.py] *)

Definition when (b : bool) (m : M F) : M unit :=
  if b then m ;; mret tt else mret tt.

(** The body of the sweep loop (lines 50 to 73). *)
Definition sweep_step (dyn_ecc_x : pynum) (mech_deg : F) : M (F * F) :=
  femm (mi_selectgroup 1) ;;
  femm (mi_rotate 0 0 mech_deg) ;;
  when (py_nonzero dyn_ecc_x) (femm (mi_movetranslate dyn_ecc_x (PyInt 0))) ;;
  femm (mi_analyze 1) ;;
  femm mi_loadsolution ;;
  femm (mo_selectblock 1) ;;
  torque ← femm (mo_blockintegral 22) ;
  when (py_nonzero dyn_ecc_x) (femm (mi_movetranslate (py_neg dyn_ecc_x) (PyInt 0))) ;;
  femm (mi_rotate 0 0 (fneg mech_deg)) ;;
  mret (mech_deg, torque).

(** The [try] block (lines 15 to 77). *)
Definition femm_case_body (dxf_path : string) (motor_params : motor)
  (case : case_dict) (step_deg : F) : M frame :=
  femm openfemm ;;
  femm (opendocument dxf_path) ;;
  femm (mi_selectgroup 1) ;;
  let static_ecc_x := case_static_ecc_mm case in
  femm (mi_movetranslate static_ecc_x (PyInt 0)) ;;
  (* tilt: [pass] *)
  let pole_pairs := fdiv (of_Z (poles motor_params)) (of_Z 2) in
  mechanical_span_deg ← py_div (of_Z 360) pole_pairs ;
  let dyn_ecc_x := case_dynamic_ecc_mm case in
  thetas ← np_arange (of_Z 0) mechanical_span_deg step_deg ;
  rows ← for_collect thetas (sweep_step dyn_ecc_x) ;
  femm closefemm ;;
  mret rows.

Definition _run_single_femm_case (dxf_path : string) (motor_params : motor)
  (case : case_dict) (step_deg : F) : M frame :=
  try_except
    (femm_case_body dxf_path motor_params case step_deg)
    (fun e =>
       print ("An error occurred during FEMM simulation: " +:+ exn_str e) ;;
       femm closefemm ;;
       mret []).

(** [f"  Running case {i+1}/{len(error_combinations)}: {case_name}..."] *)
Definition running_case_line (i total : nat) (case_name : string) : string :=
  "  Running case " +:+ py_str (PyInt (Z.of_nat i + 1)) +:+ "/"
    +:+ py_str (PyInt (Z.of_nat total)) +:+ ": " +:+ case_name +:+ "...".

(** [case = {"static_ecc_mm": combo[0], ...}] *)
Definition case_of (combo : pynum * pynum * pynum) : case_dict :=
  {| case_static_ecc_mm := combo.1.1;
     case_dynamic_ecc_mm := combo.1.2;
     case_tilt_deg := combo.2 |}.

(** The body of the case loop (lines 114 to 137). *)
Definition femm_case_step (cfg : config) (motor_id : string) (motor_params : motor)
  (dxf_path : string) (total : nat) (ic : nat * (pynum * pynum * pynum)) : M flow :=
  let '(i, combo) := ic in
  let case := case_of combo in
  let case_name := femm_case_name combo in
  print (running_case_line i total case_name) ;;
  let pole_pairs := fdiv (of_Z (poles motor_params)) (of_Z 2) in
  step_mech_deg ← py_div (of_num (sweep_step_elec_deg cfg)) pole_pairs ;
  results_df ← _run_single_femm_case dxf_path motor_params case step_mech_deg ;
  match results_df with
  | [] => mret Next
  | _ :: _ =>
      let output_filename := output_filename motor_id case_name in
      let output_path := path_join (paths_results cfg) output_filename in
      write_file output_path (FTorque results_df) ;;
      print ("    -> Saved results to " +:+ output_path) ;;
      mret Next
  end.

(** The body of the motor loop (lines 98 to 137). *)
Definition femm_motor_step (cfg : config) (m : string * motor) : M flow :=
  let '(motor_id, motor_params) := m in
  print (Str.NL +:+ "Processing motor: " +:+ motor_id) ;;
  let dxf_path := path_join (paths_cad cfg) (motor_id +:+ ".dxf") in
  found ← path_exists dxf_path ;
  if negb found then
    print ("  [Warning] DXF file not found at '" +:+ dxf_path +:+ "'. Skipping motor.") ;;
    mret Next
  else
    let error_combinations :=
      product3 (static_ecc_mm cfg) (dynamic_ecc_mm cfg) (tilt_deg cfg) in
    for_each (enumerate error_combinations)
      (femm_case_step cfg motor_id motor_params dxf_path (length error_combinations)).

(** [os.makedirs(paths['results'], exist_ok=True)] changes nothing here:
    the file system is a map from paths to contents, without directories. *)
Definition run_femm_simulations (cfg : config) : M unit :=
  print "--- Starting FEMM Simulation Batch ---" ;;
  for_each (motors cfg) (femm_motor_step cfg) ;;
  print (Str.NL +:+ "--- FEMM Simulation Batch Complete ---").

(** *** Stage 2: [modelica_runner.py] *)

(** [subprocess.run(cmd, check=True, capture_output=True, text=True)]
    (line 117): the start is logged with the script that is at the path of
    the command, and the call returns or raises by the outcome.  The runner
    does nothing else with the process: what the solver writes is the
    solver's business and is not part of [fs], which holds the files as the
    runner's own reads, writes and removals see them. *)
Definition subprocess_run (cmd : list string) : M unit := fun w =>
  let script := match cmd with [_; p] => fs w !! p | _ => None end in
  let started := (proc_log w ++ [{| proc_cmd := cmd; proc_script := script |}]) in
  let w' := World (fs w) (femm_log w) started (stdout w) in
  match omc_engine (length (proc_log w)) (fs w) with
  | ExecutableMissing => (Raise FileNotFoundError, w')
  | NonZeroExit err => (Raise (CalledProcessError err), w')
  | OmcSuccess _ => (Ok tt, w')
  | OmcRaises e => (Raise e, w')
  end.

Definition omc_path : string := "omc".

(** [if os.path.exists(p): os.remove(p)] *)
Definition remove_if_exists (p : string) : M unit :=
  path_exists p ≫= (fun found : bool => if found then remove_file p else mret tt).

(** The body of the innermost loop (lines 69 to 130). *)
Definition system_case_step (cfg : config) (model_template : string)
  (motor_id : string) (motor_params : motor) (torque_map_path_modelica : string)
  (controller : string) (freq_khz rpm : pynum) : M flow :=
  let results_dir := paths_results cfg in
  let case_name := system_case_name motor_id controller freq_khz rpm in
  print ("  Running case: " +:+ case_name) ;;
  hil_ts ← py_div (of_Z 1) (fmul (of_num freq_khz) (of_Z 1000)) ;
  let target_rad_s := fdiv (fmul (fmul (of_num rpm) (of_Z 2)) fpi) (of_Z 60) in
  let encoder_res := (2 ^ encoder_bits cfg)%Z in
  let model_content :=
    FModel model_template
      {| csv_file_path := torque_map_path_modelica;
         motor_poles := poles motor_params;
         target_speed_rad_per_s := target_rad_s;
         hil_ts := hil_ts;
         encoder_resolution := encoder_res;
         controller_type := controller |} in
  let temp_model_name := "Temp_" +:+ case_name in
  let temp_model_path := path_join results_dir (temp_model_name +:+ ".mo") in
  write_file temp_model_path model_content ;;
  let sim_output_prefix := path_join results_dir case_name in
  let mos_script_content :=
    _create_simulation_script ("EccentricityStudy." +:+ temp_model_name)
      (sim_time_s cfg) sim_output_prefix in
  let temp_script_path := path_join results_dir "run_sim.mos" in
  write_file temp_script_path (FScript mos_script_content) ;;
  try_finally
    (try_except
       (have_package ← path_exists "package.mo" ;
        (if negb have_package
         then write_file "package.mo"
                (FText "within; package EccentricityStudy end EccentricityStudy;")
         else mret tt) ;;
        subprocess_run [omc_path; temp_script_path] ;;
        print ("    -> Simulation successful. Output: " +:+ res_csv sim_output_prefix) ;;
        mret Next)
       (fun e =>
          match e with
          | FileNotFoundError =>
              print ("[Error] '" +:+ omc_path
                       +:+ "' not found. Is OpenModelica installed and in your PATH?") ;;
              mret Return
          | CalledProcessError stderr =>
              print ("    [Error] OpenModelica simulation failed for case: " +:+ case_name) ;;
              print ("    OMC Stderr: " +:+ stderr) ;;
              mret Next
          | _ => raise e
          end))
    (remove_if_exists temp_model_path ;;
     remove_if_exists temp_script_path).

(** The three nested loops of one motor (lines 65 to 130). *)
Definition system_sweep (cfg : config) (model_template : string)
  (motor_id : string) (motor_params : motor) (torque_map_path_modelica : string)
  : M flow :=
  for_each (controllers cfg) (fun controller =>
    for_each (hil_freq_kHz cfg) (fun freq_khz =>
      for_each (speed_rpm cfg) (fun rpm =>
        system_case_step cfg model_template motor_id motor_params
          torque_map_path_modelica controller freq_khz rpm))).

(** The body of the motor loop (lines 51 to 130). *)
Definition system_motor_step (cfg : config) (model_template : string)
  (m : string * motor) : M flow :=
  let '(motor_id, motor_params) := m in
  print (Str.NL +:+ "Processing motor: " +:+ motor_id) ;;
  let nominal_case_name := nominal_case_name motor_id in
  let torque_map_path := path_join (paths_results cfg) nominal_case_name in
  found ← path_exists torque_map_path ;
  if negb found then
    print ("  [Warning] Nominal torque map '" +:+ torque_map_path
             +:+ "' not found. Skipping system simulations for this motor.") ;;
    mret Next
  else
    let torque_map_path_modelica := Str.replace "\" "/" torque_map_path in
    system_sweep cfg model_template motor_id motor_params torque_map_path_modelica.

(** The template is read once; a missing template ends the function
    (lines 39 to 44). *)
Definition run_modelica_simulations (cfg : config) : M unit := fun w =>
  let w0 := (print (Str.NL +:+ "--- Starting OpenModelica Simulation Batch ---") w).2 in
  match fs w0 !! paths_modelica_model_template cfg with
  | None =>
      print ("[Error] Modelica template not found at '"
               +:+ paths_modelica_model_template cfg +:+ "'. Aborting.") w0
  | Some f =>
      (r ← for_each (motors cfg) (system_motor_step cfg (file_text f)) ;
       match r with
       | Return => mret tt
       | Next => print (Str.NL +:+ "--- OpenModelica Simulation Batch Complete ---")
       end) w0
  end.

End Runners.

Arguments femm_call F : clear implicits.
Arguments world F : clear implicits.
Arguments file F : clear implicits.

(** ** Traces of the FEMM session

    What a case sends to the session when no call raises, and the net
    transform of a list of calls: the sum of the angles of its [mi_rotate]s and
    the sum of the vectors of its [mi_movetranslate]s. *)

Section Traces.

Context {F : Type} `{Arith F}.

Definition log_calls (w : world F) (cs : list (femm_call F)) : world F :=
  World (fs w) (femm_log w ++ cs) (proc_log w) (stdout w).

(** The calls of one pass through the sweep loop. *)
Definition step_calls (dyn_ecc_x : pynum) (mech_deg : F) : list (femm_call F) :=
  [mi_selectgroup 1; mi_rotate 0 0 mech_deg]
    ++ (if py_nonzero dyn_ecc_x then [mi_movetranslate dyn_ecc_x (PyInt 0)] else [])
    ++ [mi_analyze 1; mi_loadsolution; mo_selectblock 1; mo_blockintegral 22]
    ++ (if py_nonzero dyn_ecc_x then [mi_movetranslate (py_neg dyn_ecc_x) (PyInt 0)] else [])
    ++ [mi_rotate 0 0 (fneg mech_deg)].

Definition sweep_calls (dyn_ecc_x : pynum) (thetas : list F) : list (femm_call F) :=
  concat (map (step_calls dyn_ecc_x) thetas).

(** The calls before the sweep loop. *)
Definition baseline_calls (dxf_path : string) (static_ecc_x : pynum)
  : list (femm_call F) :=
  [openfemm; opendocument dxf_path; mi_selectgroup 1;
   mi_movetranslate static_ecc_x (PyInt 0)].

Definition rotation_of (c : femm_call F) : Q :=
  match c with
  | mi_rotate _ _ a => fval a
  | _ => 0%Q
  end.

Definition translation_of (c : femm_call F) : Q * Q :=
  match c with
  | mi_movetranslate dx dy => (py_val dx, py_val dy)
  | _ => (0%Q, 0%Q)
  end.

Definition net_rotation (cs : list (femm_call F)) : Q :=
  fold_right (fun c acc => (rotation_of c + acc)%Q) 0%Q cs.

Definition net_translation (cs : list (femm_call F)) : Q * Q :=
  fold_right (fun c acc => ((translation_of c).1 + acc.1, (translation_of c).2 + acc.2)%Q)
    (0%Q, 0%Q) cs.

Definition is_translate (c : femm_call F) : bool :=
  match c with
  | mi_movetranslate _ _ => true
  | _ => false
  end.

(** [pole_pairs], the mechanical span and the mechanical step of a motor
    (lines 39, 40, 126 and 127). *)
Definition pole_pairs_of (mp : motor) : F := fdiv (of_Z (poles mp)) (of_Z 2).

Definition mechanical_span_of (mp : motor) : F := fdiv (of_Z 360) (pole_pairs_of mp).

Definition step_mech_of (cfg : config) (mp : motor) : F :=
  fdiv (of_num (sweep_step_elec_deg cfg)) (pole_pairs_of mp).

(** The number of rows of the torque curve stored at [path]. *)
Definition stored_rows (w : world F) (path : string) : option nat :=
  match fs w !! path with
  | Some (FTorque rows) => Some (length rows)
  | _ => None
  end.

(** The artifacts of one stage 2 case (lines 87 to 100): the temporary
    model, the script, and the process that is started. *)
Definition temp_model_path_of (cfg : config) (case_name : string) : string :=
  path_join (paths_results cfg) (("Temp_" +:+ case_name) +:+ ".mo").

Definition temp_script_path_of (cfg : config) : string :=
  path_join (paths_results cfg) "run_sim.mos".

Definition script_of (cfg : config) (case_name : string) : mos_script :=
  _create_simulation_script ("EccentricityStudy." +:+ ("Temp_" +:+ case_name))
    (sim_time_s cfg) (path_join (paths_results cfg) case_name).

Definition run_of (cfg : config) (case_name : string) : proc_run (F:=F) :=
  {| proc_cmd := [omc_path; temp_script_path_of cfg];
     proc_script := Some (FScript (script_of cfg case_name)) |}.

(** The model written for a case (lines 73 to 84). *)
Definition model_of (cfg : config) (model_template : string) (mp : motor)
  (torque_map_path_modelica controller : string) (freq_khz rpm : pynum) : file F :=
  FModel model_template
    {| csv_file_path := torque_map_path_modelica;
       motor_poles := poles mp;
       target_speed_rad_per_s :=
         fdiv (fmul (fmul (of_num rpm) (of_Z 2)) fpi) (of_Z 60);
       hil_ts := fdiv (of_Z 1) (fmul (of_num freq_khz) (of_Z 1000));
       encoder_resolution := (2 ^ encoder_bits cfg)%Z;
       controller_type := controller |}.

(** [package.mo] is created unless it is there (lines 112 to 114). *)
Definition ensure_package (files : gmap string (file F)) : gmap string (file F) :=
  if bool_decide (is_Some (files !! "package.mo")) then files
  else <["package.mo" :=
           FText "within; package EccentricityStudy end EccentricityStudy;"]> files.

(** The files the solver finds when the process of a case starts. *)
Definition files_at_run (cfg : config) (model_template : string) (mp : motor)
  (torque_map_path_modelica controller : string) (freq_khz rpm : pynum)
  (case_name : string) (files : gmap string (file F)) : gmap string (file F) :=
  ensure_package
    (<[temp_script_path_of cfg := FScript (script_of cfg case_name)]>
       (<[temp_model_path_of cfg case_name :=
            model_of cfg model_template mp torque_map_path_modelica controller
              freq_khz rpm]> files)).

(** The [finally] block (lines 127 to 130). *)
Definition cleaned (cfg : config) (case_name : string)
  (files : gmap string (file F)) : gmap string (file F) :=
  delete (temp_script_path_of cfg) (delete (temp_model_path_of cfg case_name) files).

(** The [try] block with its handlers (lines 105 to 124), from the world in
    which the two temporary files are written. *)
Definition tried (omc_engine : nat -> gmap string (file F) -> omc_outcome)
  (cfg : config) (name : string) : M (F:=F) flow :=
  try_except
    (have_package ← path_exists "package.mo" ;
     (if negb have_package
      then write_file "package.mo"
             (FText "within; package EccentricityStudy end EccentricityStudy;")
      else mret tt) ;;
     subprocess_run omc_engine [omc_path; temp_script_path_of cfg] ;;
     print ("    -> Simulation successful. Output: "
              +:+ res_csv (path_join (paths_results cfg) name)) ;;
     mret Next)
    (fun e =>
       match e with
       | FileNotFoundError =>
           print ("[Error] '" +:+ omc_path
                    +:+ "' not found. Is OpenModelica installed and in your PATH?") ;;
           mret Return
       | CalledProcessError stderr =>
           print ("    [Error] OpenModelica simulation failed for case: " +:+ name) ;;
           print ("    OMC Stderr: " +:+ stderr) ;;
           mret Next
       | _ => raise e
       end).

(** The key of a stage 2 case: the file that the success line names
    (line 118). *)
Definition system_key (cfg : config) (case_name : string) : string :=
  res_csv (path_join (paths_results cfg) case_name).

(** [hil_freq_kHz * 1000.0], the divisor of line 73. *)
Definition hil_divisor (freq_khz : pynum) : F := fmul (of_num freq_khz) (of_Z 1000).

(** The exceptions that lines 119 to 124 catch. *)
Definition is_caught (e : exn) : bool :=
  match e with
  | FileNotFoundError | CalledProcessError _ => true
  | _ => false
  end.

(** How a case step ends, and what it prints after the line that names the
    case, by the outcome of the start (lines 117 to 124): the two exceptions
    that are caught are caught whichever way they are raised. *)
Definition step_ending (o : omc_outcome) : result flow :=
  match o with
  | ExecutableMissing | OmcRaises FileNotFoundError => Ok Return
  | NonZeroExit _ | OmcSuccess _ | OmcRaises (CalledProcessError _) => Ok Next
  | OmcRaises e => Raise e
  end.

Definition step_prints (cfg : config) (case_name : string) (o : omc_outcome)
  : list string :=
  match o with
  | ExecutableMissing | OmcRaises FileNotFoundError =>
      ["[Error] '" +:+ "omc"
         +:+ "' not found. Is OpenModelica installed and in your PATH?"]
  | NonZeroExit err | OmcRaises (CalledProcessError err) =>
      ["    [Error] OpenModelica simulation failed for case: " +:+ case_name;
       "    OMC Stderr: " +:+ err]
  | OmcSuccess _ =>
      ["    -> Simulation successful. Output: " +:+ system_key cfg case_name]
  | OmcRaises _ => []
  end.

(** The solver executable is there whenever a process is started: every
    start runs the solver to an exit status, with output that decodes. *)
Definition solver_installed (engine : nat -> gmap string (file F) -> omc_outcome)
  : Prop :=
  forall n files,
    match engine n files with
    | NonZeroExit _ | OmcSuccess _ => True
    | ExecutableMissing | OmcRaises _ => False
    end.

(** From a world in which at most [n] processes were started, [m] leaves at
    most [n] of them when the loop goes on, and at most [n + 1] when it
    returns or raises. *)
Definition starts_within {A : Type} (n : nat) (m : M (F:=F) A) (goes_on : A -> bool)
  : Prop :=
  forall w, length (proc_log w) <= n ->
    match m w with
    | (Ok a, w') =>
        length (proc_log w') <= (if goes_on a then n else S n)
    | (Raise _, w') => length (proc_log w') <= S n
    end.

Definition is_next (r : flow) : bool :=
  match r with Next => true | Return => false end.

(** Whatever its outcome, [m] sends an initial segment of [script] to the
    session, and all of it when it ends normally. *)
Definition sends {A : Type} (m : M (F:=F) A) (script : list (femm_call F)) : Prop :=
  forall w, exists cs,
    femm_log (m w).2 = femm_log w ++ cs
    /\ cs `prefix_of` script
    /\ (forall a, (m w).1 = Ok a -> cs = script).

(** The same for a script that depends on what [m] computes: it is one of
    those that satisfy [P]. *)
Definition sends_some {A : Type} (m : M (F:=F) A)
  (P : list (femm_call F) -> Prop) : Prop :=
  forall w, exists script cs,
    P script
    /\ femm_log (m w).2 = femm_log w ++ cs
    /\ cs `prefix_of` script
    /\ (forall a, (m w).1 = Ok a -> cs = script).

(** [m] changes neither the files nor the processes started. *)
Definition keeps_files {A : Type} (m : M (F:=F) A) : Prop :=
  forall w, fs (m w).2 = fs w /\ proc_log (m w).2 = proc_log w.

(** [m] leaves every file outside [paths] as it found it. *)
Definition touches_only {A : Type} (m : M (F:=F) A) (paths : string -> Prop) : Prop :=
  forall w p, ~ paths p -> fs (m w).2 !! p = fs w !! p.

(** The file that the script of a case asks the solver to load
    ([loadFile("{model_name}.mo")], line 18). *)
Definition mos_load_file (s : mos_script) : string := mos_model_name s +:+ ".mo".

(** The content of the [package.mo] that stage 2 creates (line 114). *)
Definition package_text : file F :=
  FText "within; package EccentricityStudy end EccentricityStudy;".

(** The paths that stage 2 writes or removes: [package.mo], the script, a
    temporary model. *)
Definition stage_two_artifact (cfg : config) (p : string) : Prop :=
  p = "package.mo" \/ p = temp_script_path_of cfg
  \/ (exists name, p = temp_model_path_of cfg name).

(** From [w] to [w'] nothing is lost: a curve of [n] rows is still a curve
    of [n] rows, and a file that was there is still there. *)
Definition grows_from (n : nat) (w w' : world F) : Prop :=
  (forall p, stored_rows w p = Some n -> stored_rows w' p = Some n)
  /\ (forall p, is_Some (fs w !! p) -> is_Some (fs w' !! p)).

(** The sweep of a motor has angles: its pole-pair count is not zero and
    [np.arange(0, mechanical_span_deg, step_mech_deg)] yields one angle at
    least (lines 39 to 49 and 126 to 127). *)
Definition can_be_swept (cfg : config) (mp : motor) : Prop :=
  fis_zero (pole_pairs_of mp) = false
  /\ exists n, arange_len (of_Z 0) (mechanical_span_of mp) (step_mech_of cfg mp) = Some n
              /\ 0 < n.

(** A session in which no call raises. *)
Definition never_raises (engine : list (femm_call F) -> femm_call F -> result F)
  : Prop :=
  forall history c, exists v, engine history c = Ok v.

End Traces.

(** ** Worked inputs *)

Module Examples.

Definition d0 : Decimal.uint := Decimal.D0 Decimal.Nil.
Definition float_0p1 : pynum := PyFloat false d0 (Decimal.D1 Decimal.Nil).
Definition float_0p5 : pynum := PyFloat false d0 (Decimal.D5 Decimal.Nil).

(** A session in which no call raises and every torque integral is 7. *)
Definition femm_ok {F : Type} `{Arith F}
  : list (femm_call F) -> femm_call F -> result F :=
  fun _ _ => Ok (of_Z 7).

(** A session whose solver fails: [mi_analyze] raises, the rest answers. *)
Definition femm_no_solve {F : Type} `{Arith F}
  : list (femm_call F) -> femm_call F -> result F :=
  fun _ c =>
    match c with
    | mi_analyze _ => Raise (FemmError "solver failed")
    | _ => Ok (of_Z 7)
    end.

Definition omc_ok {F : Type} : nat -> gmap string (file F) -> omc_outcome :=
  fun _ _ => OmcSuccess "time,load.w".

Definition omc_missing {F : Type} : nat -> gmap string (file F) -> omc_outcome :=
  fun _ _ => ExecutableMissing.

Definition omc_failing {F : Type} : nat -> gmap string (file F) -> omc_outcome :=
  fun _ _ => NonZeroExit "Error: class not found".

(** A solver whose captured output does not decode. *)
Definition omc_undecodable {F : Type} : nat -> gmap string (file F) -> omc_outcome :=
  fun _ _ => OmcRaises UnicodeDecodeError.


Definition motor14 : motor := {| poles := 14 |}.
Definition motor8 : motor := {| poles := 8 |}.

Definition cfg (zero : pynum) (step : pynum) : config := {|
  paths_cad := "cad";
  paths_results := "results";
  paths_modelica_model_template := "models/BLDC_System.mo";
  motors := [("M1", motor8); ("M2", motor14)];
  static_ecc_mm := [zero; float_0p1];
  dynamic_ecc_mm := [zero; float_0p5];
  tilt_deg := [zero];
  sweep_step_elec_deg := step;
  controllers := ["FOC"; "SixStep"];
  hil_freq_kHz := [PyInt 10; PyInt 20];
  speed_rpm := [PyInt 1000];
  encoder_bits := 12;
  sim_time_s := float_0p5
|}.

(** The assets on disk before stage 1: the template and the geometry of
    [M1]; [M2] has no geometry file. *)
Definition disk {F : Type} : gmap string (file F) :=
  <["cad/M1.dxf" := FText "SECTION"]>
    (<["models/BLDC_System.mo" := FText "model BLDC_System end BLDC_System;"]> ∅).

Definition w_start {F : Type} : world F := World disk [] [] [].

(** The same with the geometry of [M2]. *)
Definition w_two_motors {F : Type} : world F :=
  World (<["cad/M2.dxf" := FText "SECTION"]> disk) [] [] [].

Definition case0 (static dyn : pynum) : case_dict :=
  {| case_static_ecc_mm := static; case_dynamic_ecc_mm := dyn;
     case_tilt_deg := zero_float |}.

Definition zeros : pynum * pynum * pynum := (zero_float, zero_float, zero_float).

(** Float zeros, and an electrical step of 90 degrees or of 1 degree. *)
Definition cfg90 : config := cfg zero_float (PyInt 90).
Definition cfg1 : config := cfg zero_float (PyInt 1).

Definition rows_of {F : Type} (r : result (list (F * F))) : list (F * F) :=
  match r with
  | Ok rows => rows
  | Raise _ => []
  end.

(** One case of [M1] in exact arithmetic: static eccentricity 0.1 mm,
    dynamic eccentricity 0.5 mm, four angle steps. *)
Definition eccentric_case : case_dict := case0 float_0p1 float_0p5.

Definition body_run : result (list (Q * Q)) * world Q :=
  femm_case_body femm_ok "cad/M1.dxf" motor8 eccentric_case
    (step_mech_of cfg90 motor8) w_start.


(** [cfg90] with a second switching frequency of zero. *)
Definition cfg_zero_freq : config := {|
  paths_cad := "cad";
  paths_results := "results";
  paths_modelica_model_template := "models/BLDC_System.mo";
  motors := [("M1", motor8); ("M2", motor14)];
  static_ecc_mm := [zero_float; float_0p1];
  dynamic_ecc_mm := [zero_float; float_0p5];
  tilt_deg := [zero_float];
  sweep_step_elec_deg := PyInt 90;
  controllers := ["FOC"; "SixStep"];
  hil_freq_kHz := [PyInt 10; PyInt 0];
  speed_rpm := [PyInt 1000];
  encoder_bits := 12;
  sim_time_s := float_0p5
|}.

(** A motor whose pole count is zero. *)
Definition motor0 : motor := {| poles := 0 |}.


(** The world after stage 1 on [cfg90]. *)
Definition w_stage1 : world Q := (run_femm_simulations femm_ok cfg90 w_start).2.

End Examples.


(** * Properties *)

(** ** The parameter-space expansion *)

Section Product.

Context {A B C : Type}.

Lemma flat_map_block_length {X Y : Type} (f : X -> list Y) (m : nat) (l : list X) :
  (forall x, length (f x) = m) -> length (flat_map f l) = length l * m.
Proof.
  intros Hf. induction l as [|x l IH]; simpl; [reflexivity|].
  rewrite length_app, Hf, IH. reflexivity.
Qed.

Lemma flat_map_block_lookup {X Y : Type} (f : X -> list Y) (m : nat) (l : list X) :
  (forall x, length (f x) = m) ->
  forall i j x y, l !! i = Some x -> f x !! j = Some y ->
    flat_map f l !! (i * m + j) = Some y.
Proof.
  intros Hf. induction l as [|a l IH]; intros i j x y Hi Hj; [discriminate|].
  assert (Hlt : j < m) by (rewrite <- (Hf x); eapply lookup_lt_Some; eauto).
  destruct i as [|i]; simpl in *.
  - injection Hi as ->. rewrite lookup_app_l by (rewrite Hf; lia). exact Hj.
  - rewrite lookup_app_r by (rewrite Hf; lia).
    rewrite Hf. replace (m + i * m + j - m) with (i * m + j) by lia.
    eapply IH; eauto.
Qed.

Lemma product3_length (xs : list A) (ys : list B) (zs : list C) :
  length (product3 xs ys zs) = length xs * length ys * length zs.
Proof.
  unfold product3.
  rewrite (flat_map_block_length _ (length ys * length zs)).
  - lia.
  - intros x. rewrite (flat_map_block_length _ (length zs)); [reflexivity|].
    intros y. apply length_map.
Qed.

Lemma product3_lookup (xs : list A) (ys : list B) (zs : list C) i j k x y z :
  xs !! i = Some x -> ys !! j = Some y -> zs !! k = Some z ->
  product3 xs ys zs !! ((i * length ys + j) * length zs + k) = Some (x, y, z).
Proof.
  intros Hi Hj Hk. unfold product3.
  replace ((i * length ys + j) * length zs + k)
    with (i * (length ys * length zs) + (j * length zs + k)) by lia.
  eapply flat_map_block_lookup; [|exact Hi|].
  - intros a. rewrite (flat_map_block_length _ (length zs)); [reflexivity|].
    intros b. apply length_map.
  - eapply flat_map_block_lookup; [|exact Hj|].
    + intros b. apply length_map.
    + rewrite list_lookup_fmap, Hk. reflexivity.
Qed.

(** Position [n] of the product holds the combination whose indices are the
    digits of [n] in the mixed radix of the three sizes. *)
Lemma product3_decode (xs : list A) (ys : list B) (zs : list C) n :
  n < length xs * length ys * length zs ->
  exists x y z,
    xs !! (n / (length ys * length zs)) = Some x
    /\ ys !! (n / length zs mod length ys) = Some y
    /\ zs !! (n mod length zs) = Some z
    /\ product3 xs ys zs !! n = Some (x, y, z).
Proof.
  intros Hn.
  set (a := length xs) in *. set (b := length ys) in *. set (c := length zs) in *.
  assert (Hb : b <> 0) by (intros ->; lia).
  assert (Hc : c <> 0) by (intros ->; lia).
  assert (Hk : n mod c < c) by (apply Nat.mod_upper_bound; exact Hc).
  assert (Hj : n / c mod b < b) by (apply Nat.mod_upper_bound; exact Hb).
  assert (Hi : n / (b * c) < a).
  { apply Nat.Div0.div_lt_upper_bound. lia. }
  destruct (lookup_lt_is_Some_2 xs _ Hi) as [x Hx].
  destruct (lookup_lt_is_Some_2 ys _ Hj) as [y Hy].
  destruct (lookup_lt_is_Some_2 zs _ Hk) as [z Hz].
  exists x, y, z. repeat split; try assumption.
  rewrite <- (product3_lookup xs ys zs _ _ _ x y z Hx Hy Hz).
  f_equal. fold b c.
  rewrite (Nat.div_mod_eq n c) at 1.
  rewrite (Nat.div_mod_eq (n / c) b) at 1.
  rewrite Nat.Div0.div_div. rewrite (Nat.mul_comm c b). lia.
Qed.

Lemma product3_NoDup (xs : list A) (ys : list B) (zs : list C) :
  NoDup xs -> NoDup ys -> NoDup zs -> NoDup (product3 xs ys zs).
Proof.
  intros Hxs Hys Hzs. apply NoDup_alt. intros n1 n2 t H1 H2.
  assert (L1 : n1 < length xs * length ys * length zs).
  { rewrite <- product3_length. eapply lookup_lt_Some; eauto. }
  assert (L2 : n2 < length xs * length ys * length zs).
  { rewrite <- product3_length. eapply lookup_lt_Some; eauto. }
  destruct (product3_decode xs ys zs n1 L1) as (x1 & y1 & z1 & Hx1 & Hy1 & Hz1 & E1).
  destruct (product3_decode xs ys zs n2 L2) as (x2 & y2 & z2 & Hx2 & Hy2 & Hz2 & E2).
  rewrite H1 in E1. rewrite H2 in E2. injection E1 as ->. injection E2 as -> -> ->.
  pose proof (proj1 (NoDup_alt xs) Hxs _ _ _ Hx1 Hx2) as Ei.
  pose proof (proj1 (NoDup_alt ys) Hys _ _ _ Hy1 Hy2) as Ej.
  pose proof (proj1 (NoDup_alt zs) Hzs _ _ _ Hz1 Hz2) as Ek.
  set (b := length ys) in *. set (c := length zs) in *.
  assert (Hq : n1 / c = n2 / c).
  { rewrite (Nat.div_mod_eq (n1 / c) b), (Nat.div_mod_eq (n2 / c) b).
    rewrite !Nat.Div0.div_div, !(Nat.mul_comm c b), Ei, Ej. reflexivity. }
  rewrite (Nat.div_mod_eq n1 c), (Nat.div_mod_eq n2 c), Hq, Ek. reflexivity.
Qed.

(** C9. For value sets of sizes a, b and c the expansion has exactly a*b*c
    tuples; the tuple at position [n] is fixed by [n] alone (the combination
    whose indices are [n / (b*c)], [n / c mod b] and [n mod c], so the
    rightmost dimension advances fastest on every run); every combination of
    positions occurs at its own position; and value sets without repeated
    values give a product without repeated tuples. *)
Theorem product3_each_once_in_order (xs : list A) (ys : list B) (zs : list C) :
  length (product3 xs ys zs) = length xs * length ys * length zs
  /\ (forall n, n < length xs * length ys * length zs ->
        exists x y z,
          xs !! (n / (length ys * length zs)) = Some x
          /\ ys !! (n / length zs mod length ys) = Some y
          /\ zs !! (n mod length zs) = Some z
          /\ product3 xs ys zs !! n = Some (x, y, z))
  /\ (forall i j k x y z,
        xs !! i = Some x -> ys !! j = Some y -> zs !! k = Some z ->
        product3 xs ys zs !! ((i * length ys + j) * length zs + k) = Some (x, y, z))
  /\ (NoDup xs -> NoDup ys -> NoDup zs -> NoDup (product3 xs ys zs)).
Proof.
  split; [apply product3_length|].
  split; [apply product3_decode|].
  split; [apply product3_lookup|apply product3_NoDup].
Qed.

End Product.
(** ** The monad of the runners *)

Section Monad.

Context {F : Type}.

Lemma bind_Ok {A B : Type} (m : M (F:=F) A) (f : A -> M B) w a w1 :
  m w = (Ok a, w1) -> (m ≫= f) w = f a w1.
Proof. intros E. unfold mbind, M_bind. rewrite E. reflexivity. Qed.

Lemma bind_Raise {A B : Type} (m : M (F:=F) A) (f : A -> M B) w e w1 :
  m w = (Raise e, w1) -> (m ≫= f) w = (Raise e, w1).
Proof. intros E. unfold mbind, M_bind. rewrite E. reflexivity. Qed.

Lemma bind_inv_Ok {A B : Type} (m : M (F:=F) A) (f : A -> M B) w b w' :
  (m ≫= f) w = (Ok b, w') ->
  exists a w1, m w = (Ok a, w1) /\ f a w1 = (Ok b, w').
Proof.
  unfold mbind, M_bind. destruct (m w) as [[a|e] w1]; intros E.
  - exists a, w1. split; [reflexivity|exact E].
  - discriminate E.
Qed.

End Monad.

(** ** Stage 1: what a case sends to the session *)

Section StageOne.

Context {F : Type} `{Arith F}.
Variable femm_engine : list (femm_call F) -> femm_call F -> result F.

Lemma log_calls_nil (w : world F) : log_calls w [] = w.
Proof. destruct w. unfold log_calls. simpl. rewrite app_nil_r. reflexivity. Qed.

Lemma log_calls_app (w : world F) cs ds :
  log_calls (log_calls w cs) ds = log_calls w (cs ++ ds).
Proof. unfold log_calls. simpl. rewrite <- app_assoc. reflexivity. Qed.

Lemma femm_world c (w : world F) : (femm femm_engine c w).2 = log_calls w [c].
Proof. reflexivity. Qed.

Lemma femm_inv_Ok c (w w' : world F) v :
  femm femm_engine c w = (Ok v, w') ->
  femm_engine (femm_log w) c = Ok v /\ w' = log_calls w [c].
Proof.
  unfold femm. intros E. injection E as E1 E2.
  split; [exact E1|symmetry; exact E2].
Qed.

Lemma when_inv_Ok b c (w w' : world F) u :
  when b (femm femm_engine c) w = (Ok u, w') ->
  w' = log_calls w (if b then [c] else []).
Proof.
  unfold when. destruct b.
  - intros E. apply bind_inv_Ok in E as (v & w1 & E1 & E2).
    apply femm_inv_Ok in E1 as [_ ->]. inversion E2. reflexivity.
  - intros E. inversion E. subst. symmetry. apply log_calls_nil.
Qed.

Ltac inv_femm :=
  repeat match goal with
  | E : (femm _ _ ≫= _) _ = (Ok _, _) |- _ =>
      let v := fresh "v" in let w1 := fresh "w" in
      let E1 := fresh "E" in
      apply bind_inv_Ok in E as (v & w1 & E1 & E);
      apply femm_inv_Ok in E1 as [E1 ->]
  | E : (when _ (femm _ _) ≫= _) _ = (Ok _, _) |- _ =>
      let v := fresh "v" in let w1 := fresh "w" in
      let E1 := fresh "E" in
      apply bind_inv_Ok in E as (v & w1 & E1 & E);
      apply when_inv_Ok in E1 as ->
  end.

Lemma sweep_step_inv_Ok dyn theta (w w' : world F) row :
  sweep_step femm_engine dyn theta w = (Ok row, w') ->
  w' = log_calls w (step_calls dyn theta) /\ row.1 = theta.
Proof.
  unfold sweep_step. intros E. inv_femm.
  injection E as <- <-. rewrite !log_calls_app. split; reflexivity.
Qed.

Lemma for_collect_sweep_inv_Ok dyn thetas (w w' : world F) rows :
  for_collect thetas (sweep_step femm_engine dyn) w = (Ok rows, w') ->
  w' = log_calls w (sweep_calls dyn thetas) /\ map fst rows = thetas.
Proof.
  revert w rows. induction thetas as [|theta thetas IH]; intros w rows E; simpl in E.
  - injection E as <- <-. split; [symmetry; apply log_calls_nil|reflexivity].
  - apply bind_inv_Ok in E as (row & w1 & E1 & E).
    apply bind_inv_Ok in E as (rows' & w2 & E2 & E).
    injection E as <- <-.
    apply sweep_step_inv_Ok in E1 as [-> <-].
    apply IH in E2 as [-> <-].
    rewrite log_calls_app. split; reflexivity.
Qed.

Lemma py_div_inv_Ok a b (w w' : world F) q :
  py_div a b w = (Ok q, w') -> fis_zero b = false /\ q = fdiv a b /\ w' = w.
Proof.
  unfold py_div. destruct (fis_zero b); [discriminate|].
  intros [= <- <-]. auto.
Qed.

Lemma np_arange_inv_Ok start stop step (w w' : world F) l :
  np_arange start stop step w = (Ok l, w') ->
  arange_len start stop step = Some (length l) /\ w' = w.
Proof.
  unfold np_arange. destruct (arange_len start stop step) as [n|]; [|discriminate].
  intros [= <- <-]. rewrite length_fmap, length_seq. auto.
Qed.

Lemma femm_case_body_inv_Ok dxf mp case step (w w' : world F) rows :
  femm_case_body femm_engine dxf mp case step w = (Ok rows, w') ->
  arange_len (of_Z 0) (mechanical_span_of mp) step = Some (length rows)
  /\ w' = log_calls w
            (baseline_calls dxf (case_static_ecc_mm case)
               ++ sweep_calls (case_dynamic_ecc_mm case) (map fst rows)
               ++ [closefemm]).
Proof.
  unfold femm_case_body. intros E. inv_femm.
  apply bind_inv_Ok in E as (span & wa & Ha & E).
  apply py_div_inv_Ok in Ha as (_ & -> & ->).
  apply bind_inv_Ok in E as (thetas & wb & Hb & E).
  apply np_arange_inv_Ok in Hb as [Hlen ->].
  apply bind_inv_Ok in E as (rows' & wc & Hc & E).
  apply for_collect_sweep_inv_Ok in Hc as [-> Hrows].
  inv_femm. inversion E. subst.
  rewrite !log_calls_app. rewrite length_map in Hlen.
  split; [exact Hlen|reflexivity].
Qed.

(** *** Progress: a session that never raises *)

Lemma femm_progress :
  never_raises femm_engine ->
  forall c (w : world F), exists v, femm femm_engine c w = (Ok v, log_calls w [c]).
Proof.
  intros Hok c w. destruct (Hok (femm_log w) c) as [v E].
  exists v. unfold femm. rewrite E. reflexivity.
Qed.

Lemma when_progress :
  never_raises femm_engine ->
  forall b c (w : world F),
    when b (femm femm_engine c) w = (Ok tt, log_calls w (if b then [c] else [])).
Proof.
  intros Hok b c w. unfold when. destruct b.
  - destruct (femm_progress Hok c w) as [v E]. rewrite (bind_Ok _ _ _ _ _ E).
    reflexivity.
  - rewrite log_calls_nil. reflexivity.
Qed.

Ltac run_femm Hok :=
  repeat match goal with
  | |- context [(femm ?e ?c ≫= ?f) ?w] =>
      let v := fresh "v" in let E := fresh "E" in
      destruct (femm_progress Hok c w) as [v E];
      rewrite (bind_Ok _ f w _ _ E); clear E
  | |- context [(when ?b (femm ?e ?c) ≫= ?f) ?w] =>
      rewrite (bind_Ok _ f w _ _ (when_progress Hok b c w))
  end.

Lemma sweep_step_progress dyn theta (w : world F) :
  never_raises femm_engine ->
  exists torque,
    sweep_step femm_engine dyn theta w
    = (Ok (theta, torque), log_calls w (step_calls dyn theta)).
Proof.
  intros Hok. unfold sweep_step. run_femm Hok.
  eexists. unfold mret, M_ret. rewrite !log_calls_app. reflexivity.
Qed.

Lemma for_collect_sweep_progress dyn thetas (w : world F) :
  never_raises femm_engine ->
  exists rows,
    for_collect thetas (sweep_step femm_engine dyn) w
    = (Ok rows, log_calls w (sweep_calls dyn thetas))
    /\ map fst rows = thetas.
Proof.
  intros Hok. revert w. induction thetas as [|theta thetas IH]; intros w; simpl.
  - exists []. rewrite log_calls_nil. split; reflexivity.
  - destruct (sweep_step_progress dyn theta w Hok) as [torque E].
    rewrite (bind_Ok _ _ _ _ _ E).
    destruct (IH (log_calls w (step_calls dyn theta))) as (rows & E' & Hrows).
    rewrite (bind_Ok _ _ _ _ _ E').
    exists ((theta, torque) :: rows). unfold mret, M_ret.
    rewrite log_calls_app. split; [reflexivity|]. simpl. rewrite Hrows. reflexivity.
Qed.

Lemma femm_case_body_progress dxf mp case step (w : world F) n :
  never_raises femm_engine ->
  fis_zero (pole_pairs_of mp) = false ->
  arange_len (of_Z 0) (mechanical_span_of mp) step = Some n ->
  exists rows w',
    femm_case_body femm_engine dxf mp case step w = (Ok rows, w')
    /\ length rows = n /\ fs w' = fs w /\ stdout w' = stdout w.
Proof.
  intros Hok Hpp Hn. unfold femm_case_body. run_femm Hok.
  unfold py_div. fold (pole_pairs_of mp). rewrite Hpp.
  erewrite bind_Ok by reflexivity.
  unfold np_arange. fold (mechanical_span_of mp). rewrite Hn.
  erewrite bind_Ok by reflexivity.
  match goal with |- context [(for_collect ?l _ ≫= _) ?w0] =>
    destruct (for_collect_sweep_progress (case_dynamic_ecc_mm case) l w0 Hok)
      as (rows & E & Hrows)
  end.
  rewrite (bind_Ok _ _ _ _ _ E). run_femm Hok.
  exists rows. eexists. split; [reflexivity|].
  split; [|split; reflexivity].
  rewrite <- (length_map fst rows), Hrows, length_fmap, length_seq. reflexivity.
Qed.

(** *** What a case leaves untouched *)

Lemma keeps_files_ret {A : Type} (a : A) : keeps_files (F:=F) (mret a).
Proof. intros w. split; reflexivity. Qed.

Lemma keeps_files_raise {A : Type} e : keeps_files (F:=F) (raise (A:=A) e).
Proof. intros w. split; reflexivity. Qed.

Lemma keeps_files_bind {A B : Type} (m : M (F:=F) A) (f : A -> M B) :
  keeps_files m -> (forall a, keeps_files (f a)) -> keeps_files (m ≫= f).
Proof.
  intros Hm Hf w. unfold mbind, M_bind.
  specialize (Hm w). destruct (m w) as [[a|e] w1]; simpl in *.
  - destruct (Hf a w1) as [E1 E2]. rewrite E1, E2. exact Hm.
  - exact Hm.
Qed.

Lemma keeps_files_femm c : keeps_files (femm femm_engine c).
Proof. intros w. split; reflexivity. Qed.

Lemma keeps_files_print s : keeps_files (print (F:=F) s).
Proof. intros w. split; reflexivity. Qed.

Lemma keeps_files_when b c : keeps_files (when b (femm femm_engine c)).
Proof.
  unfold when. destruct b.
  - apply keeps_files_bind; [apply keeps_files_femm|intros; apply keeps_files_ret].
  - apply keeps_files_ret.
Qed.

Lemma keeps_files_py_div a b : keeps_files (py_div a b).
Proof.
  unfold py_div. destruct (fis_zero b); [apply keeps_files_raise|apply keeps_files_ret].
Qed.

Lemma keeps_files_np_arange a b c : keeps_files (np_arange a b c).
Proof.
  unfold np_arange. destruct (arange_len a b c);
    [apply keeps_files_ret|apply keeps_files_raise].
Qed.

Lemma keeps_files_for_collect {A B : Type} (l : list A) (body : A -> M (F:=F) B) :
  (forall a, keeps_files (body a)) -> keeps_files (for_collect l body).
Proof.
  intros Hb. induction l as [|a l IH]; simpl.
  - apply keeps_files_ret.
  - apply keeps_files_bind; [apply Hb|]. intros b.
    apply keeps_files_bind; [apply IH|]. intros bs. apply keeps_files_ret.
Qed.

Lemma keeps_files_try_except {A : Type} (m : M (F:=F) A) (h : exn -> M A) :
  keeps_files m -> (forall e, keeps_files (h e)) -> keeps_files (try_except m h).
Proof.
  intros Hm Hh w. unfold try_except.
  specialize (Hm w). destruct (m w) as [[a|e] w1]; simpl in *.
  - exact Hm.
  - destruct (Hh e w1) as [E1 E2]. rewrite E1, E2. exact Hm.
Qed.

Ltac keeps_files_tac :=
  repeat first
    [ apply keeps_files_ret | apply keeps_files_raise | apply keeps_files_femm
    | apply keeps_files_print | apply keeps_files_when | apply keeps_files_py_div
    | apply keeps_files_np_arange
    | apply keeps_files_bind; [|intros ?]
    | apply keeps_files_for_collect; intros ? ].

Lemma keeps_files_sweep_step dyn theta : keeps_files (sweep_step femm_engine dyn theta).
Proof. unfold sweep_step. keeps_files_tac. Qed.

Lemma keeps_files_body dxf mp case step :
  keeps_files (femm_case_body femm_engine dxf mp case step).
Proof.
  unfold femm_case_body. keeps_files_tac.
Qed.

Lemma keeps_files_run_single dxf mp case step :
  keeps_files (_run_single_femm_case femm_engine dxf mp case step).
Proof.
  unfold _run_single_femm_case. apply keeps_files_try_except.
  - apply keeps_files_body.
  - intros e. keeps_files_tac.
Qed.

(** *** The net transform of a case *)

Lemma py_val_neg (x : pynum) : (py_val (py_neg x) == - py_val x)%Q.
Proof.
  destruct x as [z|s i f]; simpl.
  - rewrite inject_Z_opp. reflexivity.
  - destruct s; simpl; [rewrite Qopp_involutive|]; reflexivity.
Qed.

Lemma net_rotation_app (cs ds : list (femm_call F)) :
  (net_rotation (cs ++ ds) == net_rotation cs + net_rotation ds)%Q.
Proof.
  induction cs as [|c cs IH]; simpl.
  - unfold net_rotation. simpl. ring.
  - unfold net_rotation in *. simpl. rewrite IH. ring.
Qed.

Lemma net_translation_app (cs ds : list (femm_call F)) :
  ((net_translation (cs ++ ds)).1 == (net_translation cs).1 + (net_translation ds).1)%Q
  /\ ((net_translation (cs ++ ds)).2 == (net_translation cs).2 + (net_translation ds).2)%Q.
Proof.
  induction cs as [|c cs [IH1 IH2]]; simpl.
  - split; ring.
  - split; [rewrite IH1|rewrite IH2]; ring.
Qed.

Lemma step_calls_net dyn theta `{!ArithNeg F} :
  (net_rotation (step_calls dyn theta) == 0)%Q
  /\ ((net_translation (step_calls dyn theta)).1 == 0)%Q
  /\ ((net_translation (step_calls dyn theta)).2 == 0)%Q.
Proof.
  unfold step_calls, net_rotation, net_translation.
  destruct (py_nonzero dyn); simpl; rewrite ?fval_fneg, ?py_val_neg;
    repeat split; ring.
Qed.

Lemma sweep_calls_net dyn thetas `{!ArithNeg F} :
  (net_rotation (sweep_calls dyn thetas) == 0)%Q
  /\ ((net_translation (sweep_calls dyn thetas)).1 == 0)%Q
  /\ ((net_translation (sweep_calls dyn thetas)).2 == 0)%Q.
Proof.
  induction thetas as [|theta thetas (IH1 & IH2 & IH3)].
  - repeat split; reflexivity.
  - change (sweep_calls dyn (theta :: thetas))
      with (step_calls dyn theta ++ sweep_calls dyn thetas).
    destruct (step_calls_net dyn theta) as (S1 & S2 & S3).
    destruct (net_translation_app (step_calls dyn theta) (sweep_calls dyn thetas))
      as [T1 T2].
    split; [|split].
    + rewrite net_rotation_app, S1, IH1. ring.
    + rewrite T1, S2, IH2. ring.
    + rewrite T2, S3, IH3. ring.
Qed.

(** C2 (amended). When the angle sweep of a case completes, the rotations and
    translations issued inside the sweep, the undo operations included, sum to
    zero rotation and zero translation; the net transform of the whole case
    is the baseline static-eccentricity translation, which is never undone:
    zero rotation and the vector (static_ecc_mm, 0). *)
Theorem sweep_undo_leaves_baseline `{!ArithNeg F} dxf mp case step
  (w w' : world F) rows :
  femm_case_body femm_engine dxf mp case step w = (Ok rows, w') ->
  exists sweep,
    let calls := baseline_calls dxf (case_static_ecc_mm case) ++ sweep ++ [closefemm] in
    femm_log w' = (femm_log w ++ calls)
    /\ (net_rotation sweep == 0)%Q
    /\ ((net_translation sweep).1 == 0)%Q
    /\ ((net_translation sweep).2 == 0)%Q
    /\ (net_rotation calls == 0)%Q
    /\ ((net_translation calls).1 == py_val (case_static_ecc_mm case))%Q
    /\ ((net_translation calls).2 == 0)%Q.
Proof.
  intros E. apply femm_case_body_inv_Ok in E as [_ ->].
  exists (sweep_calls (case_dynamic_ecc_mm case) (map fst rows)). cbv zeta.
  destruct (sweep_calls_net (case_dynamic_ecc_mm case) (map fst rows)) as (S1 & S2 & S3).
  split; [reflexivity|]. repeat split; try assumption.
  - rewrite !net_rotation_app, S1. unfold net_rotation. simpl. ring.
  - destruct (net_translation_app (baseline_calls dxf (case_static_ecc_mm case))
                (sweep_calls (case_dynamic_ecc_mm case) (map fst rows) ++ [closefemm]))
      as [T _].
    destruct (net_translation_app (sweep_calls (case_dynamic_ecc_mm case) (map fst rows))
                [closefemm]) as [U _].
    rewrite T, U, S2. simpl. ring.
  - destruct (net_translation_app (baseline_calls dxf (case_static_ecc_mm case))
                (sweep_calls (case_dynamic_ecc_mm case) (map fst rows) ++ [closefemm]))
      as [_ T].
    destruct (net_translation_app (sweep_calls (case_dynamic_ecc_mm case) (map fst rows))
                [closefemm]) as [_ U].
    rewrite T, U, S3. simpl. ring.
Qed.

(** *** The static eccentricity *)

Lemma filter_translate_sweep dyn thetas :
  List.filter is_translate (sweep_calls (F:=F) dyn thetas)
  = concat (map (fun _ =>
                   if py_nonzero dyn
                   then [mi_movetranslate dyn (PyInt 0);
                         mi_movetranslate (py_neg dyn) (PyInt 0)]
                   else []) thetas).
Proof.
  induction thetas as [|theta thetas IH]; [reflexivity|].
  change (sweep_calls dyn (theta :: thetas))
    with (step_calls dyn theta ++ sweep_calls dyn thetas).
  rewrite List.filter_app, IH.
  unfold step_calls. destruct (py_nonzero dyn); reflexivity.
Qed.

(** C10. When the sweep of a case completes, the calls of the case are the
    four baseline calls (the fourth is the translation by the static
    eccentricity), then the calls of the sweep loop, then [closefemm]; the
    translations issued in the whole case are, in order, the static one,
    once, and then for every angle step the dynamic eccentricity and its
    undo (nothing when the dynamic eccentricity is zero): no angle step
    translates by the static eccentricity again. *)
Theorem static_eccentricity_applied_once dxf mp case step (w w' : world F) rows :
  femm_case_body femm_engine dxf mp case step w = (Ok rows, w') ->
  let static := case_static_ecc_mm case in
  let dyn := case_dynamic_ecc_mm case in
  exists calls,
    femm_log w' = (femm_log w ++ calls)
    /\ calls = [openfemm; opendocument dxf; mi_selectgroup 1;
                mi_movetranslate static (PyInt 0)]
               ++ sweep_calls dyn (map fst rows) ++ [closefemm]
    /\ List.filter is_translate calls
       = mi_movetranslate static (PyInt 0)
           :: concat (map (fun _ =>
                             if py_nonzero dyn
                             then [mi_movetranslate dyn (PyInt 0);
                                   mi_movetranslate (py_neg dyn) (PyInt 0)]
                             else []) rows).
Proof.
  intros E static dyn. apply femm_case_body_inv_Ok in E as [_ ->].
  eexists. split; [reflexivity|]. split; [reflexivity|].
  change (List.filter is_translate
            (baseline_calls dxf static ++ sweep_calls dyn (map fst rows) ++ [closefemm])
          = mi_movetranslate static (PyInt 0) :: concat (map (fun _ =>
                             if py_nonzero dyn
                             then [mi_movetranslate dyn (PyInt 0);
                                   mi_movetranslate (py_neg dyn) (PyInt 0)]
                             else []) rows)).
  rewrite !List.filter_app, filter_translate_sweep, map_map. simpl.
  rewrite app_nil_r. reflexivity.
Qed.

(** *** Failure isolation in the batch *)

Lemma for_each_cons_Next {A : Type} (x : A) (l : list A) (body : A -> M (F:=F) flow)
  (w w' : world F) :
  body x w = (Ok Next, w') ->
  for_each (x :: l) body w = for_each l body w'.
Proof. intros E. simpl. rewrite (bind_Ok _ _ _ _ _ E). reflexivity. Qed.

Lemma for_each_cons_Return {A : Type} (x : A) (l : list A) (body : A -> M (F:=F) flow)
  (w w' : world F) :
  body x w = (Ok Return, w') ->
  for_each (x :: l) body w = (Ok Return, w').
Proof. intros E. simpl. rewrite (bind_Ok _ _ _ _ _ E). reflexivity. Qed.


(** C8. A motor whose geometry file is absent is skipped: its iteration of
    the motor loop ends normally having written no file (so none of the keys
    of its cases) and having sent nothing to the session, it prints the
    warning, and the loop goes on with the motors after it. *)
Theorem missing_geometry_skips_the_motor cfg motor_id mp rest (w : world F) :
  fs w !! path_join (paths_cad cfg) (motor_id +:+ ".dxf") = None ->
  exists w',
    femm_motor_step femm_engine cfg (motor_id, mp) w = (Ok Next, w')
    /\ fs w' = fs w
    /\ femm_log w' = femm_log w
    /\ (forall combo,
          fs w' !! path_join (paths_results cfg) (femm_key motor_id combo)
          = fs w !! path_join (paths_results cfg) (femm_key motor_id combo))
    /\ last (stdout w')
       = Some ("  [Warning] DXF file not found at '"
                 +:+ path_join (paths_cad cfg) (motor_id +:+ ".dxf")
                 +:+ "'. Skipping motor.")
    /\ for_each ((motor_id, mp) :: rest) (femm_motor_step femm_engine cfg) w
       = for_each rest (femm_motor_step femm_engine cfg) w'.
Proof.
  intros Habsent.
  assert (Hstep : exists w',
    femm_motor_step femm_engine cfg (motor_id, mp) w = (Ok Next, w')
    /\ fs w' = fs w /\ femm_log w' = femm_log w
    /\ last (stdout w')
       = Some ("  [Warning] DXF file not found at '"
                 +:+ path_join (paths_cad cfg) (motor_id +:+ ".dxf")
                 +:+ "'. Skipping motor.")).
  { unfold femm_motor_step.
    erewrite bind_Ok by reflexivity.
    set (w0 := (print (Str.NL +:+ "Processing motor: " +:+ motor_id) w).2).
    assert (Hpe : path_exists (path_join (paths_cad cfg) (motor_id +:+ ".dxf")) w0
                  = (Ok false, w0)).
    { unfold path_exists. change (fs w0) with (fs w). rewrite Habsent.
      rewrite bool_decide_eq_false_2 by (intros [x Hx]; discriminate Hx).
      reflexivity. }
    rewrite (bind_Ok _ _ _ _ _ Hpe). simpl negb. cbv iota.
    eexists. split; [reflexivity|]. simpl.
    split; [reflexivity|]. split; [reflexivity|]. apply last_snoc. }
  destruct Hstep as (w' & Hstep & Hfs & Hlog & Hout).
  exists w'. split; [exact Hstep|]. split; [exact Hfs|]. split; [exact Hlog|].
  split; [intros combo; rewrite Hfs; reflexivity|].
  split; [exact Hout|]. apply for_each_cons_Next. exact Hstep.
Qed.

End StageOne.

(** ** The sample count that exact arithmetic would give *)

Section ExactCount.

Variable femm_engine : list (femm_call Q) -> femm_call Q -> result Q.

Lemma exact_pole_pairs_pos (mp : motor) :
  (0 < poles mp)%Z -> (0 < pole_pairs_of (F:=Q) mp)%Q.
Proof.
  intros Hp. unfold pole_pairs_of. simpl.
  apply Qlt_shift_div_l; [reflexivity|]. rewrite Qmult_0_l.
  change (inject_Z 0 < inject_Z (poles mp))%Q.
  rewrite <- Zlt_Qlt. exact Hp.
Qed.

Lemma exact_not_zero (q : Q) : (0 < q)%Q -> fis_zero (F:=Q) q = false.
Proof.
  intros Hq. simpl. destruct (Qeq_bool q 0) eqn:E; [|reflexivity].
  apply Qeq_bool_iff in E. rewrite E in Hq. exfalso. exact (Qlt_irrefl 0 Hq).
Qed.

Lemma exact_arange_len (mp : motor) (e : Q) :
  (0 < poles mp)%Z -> (0 < e)%Q ->
  arange_len (F:=Q) (of_Z 0) (mechanical_span_of mp) (fdiv e (pole_pairs_of mp))
  = Some (Z.to_nat (Qceiling (360 / e))).
Proof.
  intros Hp He. pose proof (exact_pole_pairs_pos mp Hp) as Hpp.
  unfold arange_len.
  rewrite exact_not_zero by (simpl; apply Qlt_shift_div_l; [exact Hpp|];
                             rewrite Qmult_0_l; exact He).
  unfold mechanical_span_of. simpl. f_equal. f_equal.
  apply Qceiling_comp.
  assert (Hpp' : ~ (pole_pairs_of (F:=Q) mp == 0)%Q).
  { intros E. rewrite E in Hpp. exact (Qlt_irrefl 0 Hpp). }
  assert (He' : ~ (e == 0)%Q).
  { intros E. rewrite E in He. exact (Qlt_irrefl 0 He). }
  change (inject_Z 360) with 360%Q. change (inject_Z 0) with 0%Q.
  field. split; [exact He'|].
  intros E. apply Hpp'. unfold pole_pairs_of. simpl. rewrite E. reflexivity.
Qed.

Lemma exact_count_pos (e : Q) : (0 < e)%Q -> (0 < Z.to_nat (Qceiling (360 / e)))%nat.
Proof.
  intros He.
  assert (Hq : (0 < 360 / e)%Q).
  { apply Qlt_shift_div_l; [exact He|]. rewrite Qmult_0_l. reflexivity. }
  pose proof (Qle_ceiling (360 / e)) as Hc.
  assert (Hz : (0 < Qceiling (360 / e))%Z).
  { rewrite Zlt_Qlt. eapply Qlt_le_trans; [exact Hq|exact Hc]. }
  lia.
Qed.

(** For comparison with the count of the code: in exact arithmetic, which is
    not the arithmetic of the code, and with a session that never raises, the
    torque curve stored for a case of a motor with a positive pole count and
    a positive electrical step E would have exactly ceil(360/E) rows, whatever
    the pole count. *)
Theorem sample_count_exact cfg motor_id mp dxf total i combo (w : world Q) :
  never_raises femm_engine ->
  (0 < poles mp)%Z ->
  (0 < py_val (sweep_step_elec_deg cfg))%Q ->
  exists w',
    femm_case_step femm_engine cfg motor_id mp dxf total (i, combo) w = (Ok Next, w')
    /\ stored_rows w' (path_join (paths_results cfg) (femm_key motor_id combo))
       = Some (Z.to_nat (Qceiling (360 / py_val (sweep_step_elec_deg cfg)))).
Proof.
  intros Hok Hp He.
  pose proof (exact_not_zero _ (exact_pole_pairs_pos mp Hp)) as Hpp.
  unfold femm_case_step.
  erewrite bind_Ok by reflexivity.
  set (w0 := (print (running_case_line i total (femm_case_name combo)) w).2).
  unfold py_div. fold (pole_pairs_of (F:=Q) mp). rewrite Hpp.
  erewrite bind_Ok by reflexivity.
  pose proof (exact_arange_len mp (py_val (sweep_step_elec_deg cfg)) Hp He) as Hn.
  change (py_val (sweep_step_elec_deg cfg))
    with (of_num (F:=Q) (sweep_step_elec_deg cfg)) in Hn at 1.
  destruct (femm_case_body_progress femm_engine dxf mp (case_of combo) _ w0 _
              Hok Hpp Hn)
    as (rows & w1 & Hbody & Hlen & _ & _).
  assert (Hrun : _run_single_femm_case femm_engine dxf mp (case_of combo)
                   (fdiv (of_num (sweep_step_elec_deg cfg)) (pole_pairs_of mp)) w0
                 = (Ok rows, w1)).
  { unfold _run_single_femm_case, try_except. rewrite Hbody. reflexivity. }
  rewrite (bind_Ok _ _ _ _ _ Hrun).
  pose proof (exact_count_pos _ He) as Hpos. rewrite <- Hlen in Hpos.
  destruct rows as [|row rows]; [simpl in Hpos; lia|].
  eexists. split; [reflexivity|].
  unfold stored_rows, femm_key. simpl fs.
  rewrite lookup_insert_eq. rewrite Hlen. reflexivity.
Qed.

End ExactCount.

(** ** Strings and result keys *)

Module StrFacts.

Import Str.

Lemma app_cons x (a b : string) : String x a +:+ b = String x (a +:+ b).
Proof. reflexivity. Qed.

Lemma app_nil_l (b : string) : EmptyString +:+ b = b.
Proof. reflexivity. Qed.

Ltac app_simpl := rewrite ?app_cons, ?app_nil_l in *.

Lemma app_assoc (a b c : string) : (a +:+ b) +:+ c = a +:+ (b +:+ c).
Proof. induction a as [|x a IH]; app_simpl; [reflexivity|]. f_equal. exact IH. Qed.

Lemma app_nil_r (a : string) : a +:+ EmptyString = a.
Proof. induction a as [|x a IH]; app_simpl; [reflexivity|]. f_equal. exact IH. Qed.

Lemma length_app (a b : string) :
  String.length (a +:+ b) = String.length a + String.length b.
Proof.
  induction a as [|x a IH]; app_simpl; [reflexivity|]. simpl. f_equal. exact IH.
Qed.

Lemma app_inv_head (t a b : string) : t +:+ a = t +:+ b -> a = b.
Proof.
  induction t as [|x t IH]; app_simpl; intros E; [exact E|].
  injection E as E. exact (IH E).
Qed.

Lemma app_inv_tail (t a b : string) : a +:+ t = b +:+ t -> a = b.
Proof.
  revert b. induction a as [|x a IH]; intros [|y b] E; app_simpl.
  - reflexivity.
  - exfalso. apply (f_equal String.length) in E. simpl in E.
    rewrite length_app in E. lia.
  - exfalso. apply (f_equal String.length) in E. simpl in E.
    rewrite length_app in E. lia.
  - injection E as -> E. rewrite (IH b E). reflexivity.
Qed.

Lemma all_app P (a b : string) : all P (a +:+ b) = all P a && all P b.
Proof.
  induction a as [|x a IH]; app_simpl; simpl; [reflexivity|].
  rewrite IH, andb_assoc. reflexivity.
Qed.

Lemma all_impl (P Q : ascii -> bool) (s : string) :
  (forall a, P a = true -> Q a = true) -> all P s = true -> all Q s = true.
Proof.
  intros HPQ. induction s as [|x s IH]; simpl; [reflexivity|].
  intros E. apply andb_true_iff in E as [E1 E2].
  rewrite (HPQ x E1), (IH E2). reflexivity.
Qed.

Lemma lacks_app c (a b : string) : lacks c (a +:+ b) = lacks c a && lacks c b.
Proof. apply all_app. Qed.

Lemma lacks_cons c x (s : string) :
  lacks c (String x s) = negb (Ascii.eqb x c) && lacks c s.
Proof. reflexivity. Qed.

(** Two strings cut at the last occurrence of [c] have equal parts. *)
Lemma split_last c (x x' y y' : string) :
  lacks c y = true -> lacks c y' = true ->
  x +:+ String c y = x' +:+ String c y' -> x = x' /\ y = y'.
Proof.
  intros Hy Hy'. revert x'.
  induction x as [|a x IH]; intros [|a' x'] E; app_simpl.
  - injection E as E. split; [reflexivity|exact E].
  - injection E as <- E. exfalso. rewrite E, lacks_app, lacks_cons in Hy.
    rewrite Ascii.eqb_refl in Hy. simpl in Hy.
    rewrite andb_false_r in Hy. discriminate Hy.
  - injection E as -> E. exfalso. rewrite <- E, lacks_app, lacks_cons in Hy'.
    rewrite Ascii.eqb_refl in Hy'. simpl in Hy'.
    rewrite andb_false_r in Hy'. discriminate Hy'.
  - injection E as -> E. destruct (IH x' E) as [-> ->]. split; reflexivity.
Qed.

(** Two strings cut at the first occurrence of [c] have equal parts. *)
Lemma split_first c (x x' y y' : string) :
  lacks c x = true -> lacks c x' = true ->
  x +:+ String c y = x' +:+ String c y' -> x = x' /\ y = y'.
Proof.
  revert x'. induction x as [|a x IH]; intros [|a' x'] Hx Hx' E; app_simpl.
  - injection E as E. split; [reflexivity|exact E].
  - injection E as <- E. exfalso. rewrite lacks_cons, Ascii.eqb_refl in Hx'.
    discriminate Hx'.
  - injection E as -> E. exfalso. rewrite lacks_cons, Ascii.eqb_refl in Hx.
    discriminate Hx.
  - injection E as -> E.
    rewrite lacks_cons in Hx, Hx'.
    apply andb_true_iff in Hx as [_ Hx]. apply andb_true_iff in Hx' as [_ Hx'].
    destruct (IH x' Hx Hx' E) as [-> ->]. split; reflexivity.
Qed.

Lemma replace_app old new (a b : string) :
  replace old new (a +:+ b) = replace old new a +:+ replace old new b.
Proof.
  induction a as [|x a IH]; app_simpl; simpl; [reflexivity|].
  app_simpl. f_equal. exact IH.
Qed.

(** Replacing back undoes a replacement into a character that was absent. *)
Lemma replace_undo old new (s : string) :
  lacks new s = true -> replace new old (replace old new s) = s.
Proof.
  induction s as [|x s IH]; simpl; [reflexivity|].
  rewrite lacks_cons. intros E. apply andb_true_iff in E as [E1 E2].
  rewrite (IH E2). f_equal.
  destruct (Ascii.eqb_spec x old) as [->|Hne].
  - rewrite Ascii.eqb_refl. reflexivity.
  - apply negb_true_iff in E1. rewrite E1. reflexivity.
Qed.

Lemma replace_inj old new (a b : string) :
  lacks new a = true -> lacks new b = true ->
  replace old new a = replace old new b -> a = b.
Proof.
  intros Ha Hb E. rewrite <- (replace_undo old new a Ha), <- (replace_undo old new b Hb).
  rewrite E. reflexivity.
Qed.

Lemma all_replace (P Q : ascii -> bool) old new (s : string) :
  (forall a, P a = true -> Q (if Ascii.eqb a old then new else a) = true) ->
  all P s = true -> all Q (replace old new s) = true.
Proof.
  intros HPQ. induction s as [|x s IH]; simpl; [reflexivity|].
  intros E. apply andb_true_iff in E as [E1 E2].
  rewrite (HPQ x E1), (IH E2). reflexivity.
Qed.

(** *** The text of a scalar *)

Lemma uint_chars (d : Decimal.uint) :
  all is_num_char (NilEmpty.string_of_uint d) = true.
Proof. induction d; simpl; try rewrite IHd; reflexivity. Qed.

Lemma uint_no_dot (d : Decimal.uint) :
  lacks "." (NilEmpty.string_of_uint d) = true.
Proof. induction d; simpl; try exact IHd; reflexivity. Qed.

Lemma uint_inj (d d' : Decimal.uint) :
  NilEmpty.string_of_uint d = NilEmpty.string_of_uint d' -> d = d'.
Proof.
  intros E. pose proof (NilEmpty.usu d) as U. rewrite E, NilEmpty.usu in U.
  injection U as ->. reflexivity.
Qed.

Lemma int_text (z : Z) :
  exists (s : bool) (d : Decimal.uint),
    d <> Decimal.Nil
    /\ py_str (PyInt z) = (if s then "-" else EmptyString) +:+ NilEmpty.string_of_uint d.
Proof.
  destruct z as [|p|p]; simpl.
  - exists false, (Decimal.D0 Decimal.Nil). split; [discriminate|reflexivity].
  - exists false, (Pos.to_uint p).
    pose proof (DecimalPos.Unsigned.to_uint_nonnil p) as Hn.
    split; [exact Hn|]. destruct (Pos.to_uint p); [contradiction|reflexivity..].
  - exists true, (Pos.to_uint p).
    pose proof (DecimalPos.Unsigned.to_uint_nonnil p) as Hn.
    split; [exact Hn|]. destruct (Pos.to_uint p); [contradiction|reflexivity..].
Qed.

Lemma sign_chars (s : bool) : all is_num_char (if s then "-" else EmptyString) = true.
Proof. destruct s; reflexivity. Qed.

Lemma py_str_chars (x : pynum) : all is_num_char (py_str x) = true.
Proof.
  destruct x as [z|s i f].
  - destruct (int_text z) as (s & d & _ & ->).
    rewrite all_app, sign_chars, uint_chars. reflexivity.
  - simpl. rewrite !all_app, sign_chars, !uint_chars. reflexivity.
Qed.

Lemma num_char_not (c : ascii) :
  is_num_char c = false ->
  forall a, is_num_char a = true -> negb (Ascii.eqb a c) = true.
Proof.
  intros Hc a Ha. destruct (Ascii.eqb_spec a c) as [->|]; [|reflexivity].
  rewrite Hc in Ha. discriminate Ha.
Qed.

Lemma py_str_lacks (c : ascii) (x : pynum) :
  is_num_char c = false -> lacks c (py_str x) = true.
Proof.
  intros Hc. unfold lacks. eapply all_impl; [apply (num_char_not c Hc)|].
  apply py_str_chars.
Qed.

Lemma sign_split (s s' : bool) (b b' : string) :
  starts_with_dash b = false -> starts_with_dash b' = false ->
  (if s then "-" else EmptyString) +:+ b = (if s' then "-" else EmptyString) +:+ b' ->
  s = s' /\ b = b'.
Proof.
  intros Hb Hb'. destruct s, s'; app_simpl; intros E.
  - injection E as E. split; [reflexivity|exact E].
  - exfalso. rewrite <- E in Hb'. discriminate Hb'.
  - exfalso. rewrite E in Hb. discriminate Hb.
  - split; [reflexivity|exact E].
Qed.

Lemma uint_no_dash (d : Decimal.uint) (t : string) :
  starts_with_dash (NilEmpty.string_of_uint d +:+ String "." t) = false.
Proof. destruct d; reflexivity. Qed.

Lemma uint_no_dash' (d : Decimal.uint) :
  starts_with_dash (NilEmpty.string_of_uint d) = false.
Proof. destruct d; reflexivity. Qed.

Lemma int_no_dot (z : Z) : lacks "." (py_str (PyInt z)) = true.
Proof.
  destruct (int_text z) as (s & d & _ & ->).
  rewrite lacks_app, uint_no_dot. destruct s; reflexivity.
Qed.

Lemma float_has_dot s i f : lacks "." (py_str (PyFloat s i f)) = false.
Proof.
  simpl. rewrite !lacks_app. change (lacks "." ".") with false.
  rewrite andb_false_l, !andb_false_r. reflexivity.
Qed.

Lemma to_int_not_nil (z : Z) :
  Z.to_int z <> Decimal.Pos Decimal.Nil /\ Z.to_int z <> Decimal.Neg Decimal.Nil.
Proof.
  destruct z as [|p|p]; simpl; split; try discriminate;
    intros E; injection E as E; exact (DecimalPos.Unsigned.to_uint_nonnil p E).
Qed.

(** [str] tells the scalars apart. *)
Lemma py_str_inj (x y : pynum) : py_str x = py_str y -> x = y.
Proof.
  destruct x as [z|s i f], y as [z'|s' i' f']; intros E.
  - f_equal. apply DecimalZ.to_int_inj.
    destruct (to_int_not_nil z) as [N1 N2], (to_int_not_nil z') as [N1' N2'].
    pose proof (NilZero.isi _ N1 N2) as U. simpl in E. rewrite E in U.
    rewrite (NilZero.isi _ N1' N2') in U. injection U as ->. reflexivity.
  - exfalso. pose proof (int_no_dot z) as D. rewrite E, float_has_dot in D.
    discriminate D.
  - exfalso. pose proof (int_no_dot z') as D. rewrite <- E, float_has_dot in D.
    discriminate D.
  - simpl in E.
    apply sign_split in E as [-> E]; [|apply uint_no_dash..].
    apply split_first in E as [Ei Ef]; [|apply uint_no_dot..].
    rewrite (uint_inj _ _ Ei), (uint_inj _ _ Ef). reflexivity.
Qed.

(** *** Stage 1 keys *)

Lemma key_text_chars (x : pynum) : all is_key_char (key_text x) = true.
Proof.
  unfold key_text. eapply all_replace; [|apply py_str_chars].
  intros a Ha. destruct (Ascii.eqb a "."); [reflexivity|].
  unfold is_key_char. rewrite Ha. reflexivity.
Qed.

Lemma key_char_not (c : ascii) :
  is_key_char c = false ->
  forall a, is_key_char a = true -> negb (Ascii.eqb a c) = true.
Proof.
  intros Hc a Ha. destruct (Ascii.eqb_spec a c) as [->|]; [|reflexivity].
  rewrite Hc in Ha. discriminate Ha.
Qed.

Lemma key_text_lacks (c : ascii) (x : pynum) :
  is_key_char c = false -> lacks c (key_text x) = true.
Proof.
  intros Hc. unfold lacks. eapply all_impl; [apply (key_char_not c Hc)|].
  apply key_text_chars.
Qed.

Lemma key_text_inj (x y : pynum) : key_text x = key_text y -> x = y.
Proof.
  intros E. apply py_str_inj.
  apply (replace_inj "." "p"); [apply py_str_lacks; reflexivity..|exact E].
Qed.

Lemma reassoc c (a b1 b2 : string) :
  a +:+ String c (b1 +:+ String c b2) = (a +:+ String c b1) +:+ String c b2.
Proof. rewrite app_assoc. reflexivity. Qed.

(** A stage 1 key, cut at its six separators. *)
Lemma femm_key_shape (m : string) (c0 c1 c2 : pynum) :
  femm_key m (c0, c1, c2)
  = (((((m +:+ String "_" "static") +:+ String "_" (key_text c0))
         +:+ String "_" "dyn") +:+ String "_" (key_text c1))
       +:+ String "_" "tilt") +:+ String "_" (key_text c2 +:+ ".csv").
Proof.
  unfold femm_key, output_filename, femm_case_name, key_text.
  rewrite !replace_app. rewrite <- !reassoc. rewrite !app_assoc. reflexivity.
Qed.

Lemma femm_key_inj (m m' : string) (c c' : pynum * pynum * pynum) :
  femm_key m c = femm_key m' c' -> m = m' /\ c = c'.
Proof.
  destruct c as [[c0 c1] c2], c' as [[c0' c1'] c2'].
  rewrite !femm_key_shape. intros E.
  assert (Hk : forall x, lacks "_" (key_text x) = true)
    by (intros x; apply key_text_lacks; reflexivity).
  apply split_last in E as [E E2];
    [|rewrite lacks_app, Hk; reflexivity..].
  apply split_last in E as [E _]; [|reflexivity..].
  apply split_last in E as [E E1]; [|apply Hk..].
  apply split_last in E as [E _]; [|reflexivity..].
  apply split_last in E as [E E0]; [|apply Hk..].
  apply split_last in E as [E _]; [|reflexivity..].
  apply app_inv_tail in E2.
  rewrite (key_text_inj _ _ E0), (key_text_inj _ _ E1), (key_text_inj _ _ E2).
  split; [exact E|reflexivity].
Qed.

Lemma femm_case_name_lacks_p (c : pynum * pynum * pynum) :
  lacks "p" (femm_case_name c) = true.
Proof.
  destruct c as [[c0 c1] c2]. unfold femm_case_name.
  rewrite !lacks_app, !py_str_lacks by reflexivity. reflexivity.
Qed.

(** *** Stage 2 keys *)

Lemma system_case_name_shape (m k : string) (f r : pynum) :
  system_case_name m k f r
  = m +:+ String "_" ((k +:+ String "_" (py_str f +:+ "kHz"))
                        +:+ String "_" (py_str r +:+ "rpm")).
Proof.
  unfold system_case_name. rewrite <- reassoc. rewrite !app_assoc. reflexivity.
Qed.

Lemma system_tail_inj (k k' : string) (f f' r r' : pynum) :
  (k +:+ String "_" (py_str f +:+ "kHz")) +:+ String "_" (py_str r +:+ "rpm")
  = (k' +:+ String "_" (py_str f' +:+ "kHz")) +:+ String "_" (py_str r' +:+ "rpm") ->
  k = k' /\ f = f' /\ r = r'.
Proof.
  intros E.
  assert (Hk : forall x, lacks "_" (py_str x) = true)
    by (intros x; apply py_str_lacks; reflexivity).
  apply split_last in E as [E Er]; [|rewrite lacks_app, Hk; reflexivity..].
  apply split_last in E as [E Ef]; [|rewrite lacks_app, Hk; reflexivity..].
  apply app_inv_tail in Er, Ef.
  rewrite (py_str_inj _ _ Ef), (py_str_inj _ _ Er). auto.
Qed.

Lemma system_case_name_inj_motor (m m' k k' : string) (f f' r r' : pynum) :
  lacks "_" m = true -> lacks "_" m' = true ->
  system_case_name m k f r = system_case_name m' k' f' r' ->
  m = m' /\ k = k' /\ f = f' /\ r = r'.
Proof.
  intros Hm Hm'. rewrite !system_case_name_shape. intros E.
  apply split_first in E as [-> E]; [|assumption..].
  split; [reflexivity|]. apply system_tail_inj. exact E.
Qed.

Lemma system_case_name_inj_controller (m m' k k' : string) (f f' r r' : pynum) :
  lacks "_" k = true -> lacks "_" k' = true ->
  system_case_name m k f r = system_case_name m' k' f' r' ->
  m = m' /\ k = k' /\ f = f' /\ r = r'.
Proof.
  intros Hk Hk'. rewrite !system_case_name_shape. intros E.
  assert (Hs : forall x, lacks "_" (py_str x) = true)
    by (intros x; apply py_str_lacks; reflexivity).
  rewrite !reassoc in E.
  apply split_last in E as [E Er]; [|rewrite lacks_app, Hs; reflexivity..].
  apply split_last in E as [E Ef]; [|rewrite lacks_app, Hs; reflexivity..].
  apply split_last in E as [E Ek]; [|assumption..].
  apply app_inv_tail in Er, Ef.
  rewrite (py_str_inj _ _ Ef), (py_str_inj _ _ Er). auto.
Qed.

Lemma femm_key_not_res_csv (m : string) (c : pynum * pynum * pynum) (prefix : string) :
  femm_key m c <> res_csv prefix.
Proof.
  destruct c as [[c0 c1] c2]. rewrite femm_key_shape. unfold res_csv.
  change (prefix +:+ "_res.csv") with (prefix +:+ String "_" ("res" +:+ ".csv")).
  intros E.
  apply split_last in E as [_ E];
    [|rewrite lacks_app, key_text_lacks by reflexivity; reflexivity|reflexivity].
  apply app_inv_tail in E.
  pose proof (key_text_chars c2) as H. rewrite E in H. discriminate H.
Qed.

End StrFacts.

(** C3 (amended). Stage 1 keys are injective for arbitrary motor ids: two
    cases with the same key have the same motor id and the same tuple; the
    substitution of [p] for the decimal point is undone on every case name
    by substituting back, and case names tell the tuples apart, so the values
    are recovered from the key; a stage 1 key is never the result file of a
    stage 2 case; and stage 2 case names are injective as long as the motor
    ids, or else the controller names, contain no underscore. *)
Theorem result_keys_injective :
  (forall m m' c c', femm_key m c = femm_key m' c' -> m = m' /\ c = c')
  /\ (forall c,
        Str.replace "p" "." (Str.replace "." "p" (femm_case_name c)) = femm_case_name c)
  /\ (forall c c', femm_case_name c = femm_case_name c' -> c = c')
  /\ (forall m c prefix, femm_key m c <> res_csv prefix)
  /\ (forall m m' k k' f f' r r',
        (Str.lacks "_" m = true /\ Str.lacks "_" m' = true)
        \/ (Str.lacks "_" k = true /\ Str.lacks "_" k' = true) ->
        system_case_name m k f r = system_case_name m' k' f' r' ->
        m = m' /\ k = k' /\ f = f' /\ r = r').
Proof.
  split; [apply StrFacts.femm_key_inj|].
  split; [intros c; apply StrFacts.replace_undo, StrFacts.femm_case_name_lacks_p|].
  split.
  { intros c c' E.
    apply (StrFacts.femm_key_inj EmptyString EmptyString).
    unfold femm_key. rewrite E. reflexivity. }
  split; [apply StrFacts.femm_key_not_res_csv|].
  intros m m' k k' f f' r r' [[Hm Hm']|[Hk Hk']].
  - apply StrFacts.system_case_name_inj_motor; assumption.
  - apply StrFacts.system_case_name_inj_controller; assumption.
Qed.

(** C3, as stated, fails in stage 2: the motor [A] with the controller [B_C]
    and the motor [A_B] with the controller [C] get the same case name, and
    so the same result file. *)
Lemma system_case_names_collide :
  ~ (forall m k f r m' k' f' r',
       (m, k, f, r) <> (m', k', f', r') ->
       system_case_name m k f r <> system_case_name m' k' f' r').
Proof.
  intros H.
  apply (H "A" "B_C" (PyInt 10) (PyInt 1000) "A_B" "C" (PyInt 10) (PyInt 1000)).
  - discriminate.
  - reflexivity.
Qed.

(** C1. The key that stage 2 builds for the nominal case is the stage 1 key
    of the tuple of float zeros, for every motor; it is not the stage 1 key
    of the tuple of integer zeros, the all-zero tuple of a configuration that
    writes [0]. With such a configuration stage 1 stores the all-zero case
    of [M1] under [M1_static_0_dyn_0_tilt_0.csv], and stage 2 then warns
    that the nominal torque map is missing and starts no solver at all; with
    float zeros the same run starts the four solvers of [M1]. *)
Theorem nominal_key_misses_integer_zero :
  (forall m, femm_key m (zero_float, zero_float, zero_float) = nominal_case_name m)
  /\ (forall m, femm_key m (zero_int, zero_int, zero_int) <> nominal_case_name m)
  /\ femm_key "M1" (zero_int, zero_int, zero_int) = "M1_static_0_dyn_0_tilt_0.csv"
  /\ (let cfg := Examples.cfg zero_int (PyInt 90) in
      let w1 := (run_femm_simulations (F:=Q) Examples.femm_ok cfg Examples.w_start).2 in
      let w2 := (run_modelica_simulations Examples.omc_ok cfg w1).2 in
      stored_rows w1 "results/M1_static_0_dyn_0_tilt_0.csv" = Some 4
      /\ proc_log w2 = []
      /\ existsb
           (String.eqb
              ("  [Warning] Nominal torque map "
                 +:+ "'results/M1_static_0p0_dyn_0p0_tilt_0p0.csv' not found. "
                 +:+ "Skipping system simulations for this motor."))
           (stdout w2) = true)
  /\ (let cfg := Examples.cfg zero_float (PyInt 90) in
      let w1 := (run_femm_simulations (F:=Q) Examples.femm_ok cfg Examples.w_start).2 in
      let w2 := (run_modelica_simulations Examples.omc_ok cfg w1).2 in
      stored_rows w1 "results/M1_static_0p0_dyn_0p0_tilt_0p0.csv" = Some 4
      /\ length (proc_log w2) = 4).
Proof.
  assert (Hf : forall m,
    femm_key m (zero_float, zero_float, zero_float) = nominal_case_name m).
  { intros m. unfold femm_key, output_filename, nominal_case_name. reflexivity. }
  split; [exact Hf|].
  split.
  { intros m E. rewrite <- Hf in E.
    apply StrFacts.femm_key_inj in E as [_ E]. discriminate E. }
  split; [reflexivity|].
  split; cbv zeta; repeat split; vm_compute; reflexivity.
Qed.

(** ** Paths of the stage 2 artifacts *)

Module PathFacts.

Import Str StrFacts.

Lemma last_char_app (a : string) x (b : string) :
  last_char (a +:+ String x b) = last_char (String x b).
Proof.
  induction a as [|y a IH]; [reflexivity|].
  rewrite app_cons. simpl last_char at 1.
  destruct (a +:+ String x b) eqn:E.
  - destruct a; discriminate E.
  - exact IH.
Qed.

Lemma path_has_sep (d n : string) : lacks "/" (path_join d n) = false.
Proof.
  unfold path_join. rewrite lacks_app.
  change (lacks "/" ("/" +:+ n)) with false. apply andb_false_r.
Qed.

Lemma script_not_package cfg : temp_script_path_of cfg <> "package.mo".
Proof.
  intros E. pose proof (path_has_sep (paths_results cfg) "run_sim.mos") as L.
  unfold temp_script_path_of in E. rewrite E in L. discriminate L.
Qed.

Lemma model_not_package cfg name : temp_model_path_of cfg name <> "package.mo".
Proof.
  intros E.
  pose proof (path_has_sep (paths_results cfg) (("Temp_" +:+ name) +:+ ".mo")) as L.
  unfold temp_model_path_of in E. rewrite E in L. discriminate L.
Qed.

Lemma key_not_package cfg name : system_key cfg name <> "package.mo".
Proof.
  intros E. assert (L : lacks "/" (system_key cfg name) = false).
  { unfold system_key, res_csv. rewrite lacks_app, path_has_sep. reflexivity. }
  rewrite E in L. discriminate L.
Qed.

Lemma key_last cfg name : last_char (system_key cfg name) = Some "v"%char.
Proof.
  unfold system_key, res_csv.
  change "_res.csv" with ("_res.cs" +:+ "v").
  rewrite <- app_assoc. apply last_char_app.
Qed.

Lemma script_last cfg : last_char (temp_script_path_of cfg) = Some "s"%char.
Proof.
  unfold temp_script_path_of, path_join.
  change ("/" +:+ "run_sim.mos") with ("/run_sim.mo" +:+ "s").
  rewrite <- app_assoc. apply last_char_app.
Qed.

Lemma model_last cfg name : last_char (temp_model_path_of cfg name) = Some "o"%char.
Proof.
  unfold temp_model_path_of, path_join.
  change ".mo" with (".m" +:+ "o").
  rewrite <- !app_assoc. apply last_char_app.
Qed.

Lemma key_not_script cfg name : system_key cfg name <> temp_script_path_of cfg.
Proof.
  intros E. pose proof (key_last cfg name) as L.
  rewrite E, script_last in L. discriminate L.
Qed.

Lemma key_not_model cfg name name' :
  system_key cfg name <> temp_model_path_of cfg name'.
Proof.
  intros E. pose proof (key_last cfg name) as L.
  rewrite E, model_last in L. discriminate L.
Qed.

End PathFacts.

(** ** Stage 2: one solver run per case *)

Section StageTwo.

Context {F : Type} `{Arith F}.
Variable omc_engine : nat -> gmap string (file F) -> omc_outcome.

Lemma remove_if_exists_run p (w : world F) :
  remove_if_exists p w
  = (Ok tt, World (delete p (fs w)) (femm_log w) (proc_log w) (stdout w)).
Proof.
  unfold remove_if_exists, mbind, M_bind, path_exists.
  destruct (bool_decide (is_Some (fs w !! p))) eqn:E.
  - reflexivity.
  - apply bool_decide_eq_false_1 in E.
    assert (Hn : fs w !! p = None).
    { destruct (fs w !! p) eqn:L; [|reflexivity]. exfalso. apply E. eauto. }
    rewrite (delete_id _ _ Hn). destruct w. reflexivity.
Qed.

Lemma files_at_run_script cfg tpl mp tmap k f r name (files : gmap string (file F)) :
  files_at_run cfg tpl mp tmap k f r name files !! temp_script_path_of cfg
  = Some (FScript (script_of cfg name)).
Proof.
  unfold files_at_run, ensure_package.
  destruct (bool_decide _).
  - apply lookup_insert_eq.
  - rewrite lookup_insert_ne
      by (intros E; apply (PathFacts.script_not_package cfg); symmetry; exact E).
    apply lookup_insert_eq.
Qed.

Lemma files_at_run_key cfg tpl mp tmap k f r name (files : gmap string (file F)) :
  files_at_run cfg tpl mp tmap k f r name files !! system_key cfg name
  = files !! system_key cfg name.
Proof.
  unfold files_at_run, ensure_package.
  pose proof (PathFacts.key_not_package cfg name) as N1.
  pose proof (PathFacts.key_not_script cfg name) as N2.
  pose proof (PathFacts.key_not_model cfg name name) as N3.
  destruct (bool_decide _).
  - rewrite !lookup_insert_ne by congruence. reflexivity.
  - rewrite !lookup_insert_ne by congruence. reflexivity.
Qed.

Lemma cleaned_key cfg name (files : gmap string (file F)) :
  cleaned cfg name files !! system_key cfg name = files !! system_key cfg name.
Proof.
  unfold cleaned.
  rewrite !lookup_delete_ne; [reflexivity|..].
  - intros E. apply (PathFacts.key_not_model cfg name name). symmetry. exact E.
  - intros E. apply (PathFacts.key_not_script cfg name). symmetry. exact E.
Qed.

Lemma tried_run cfg name (w : world F) :
  ensure_package (fs w) !! temp_script_path_of cfg
  = Some (FScript (script_of cfg name)) ->
  let outcome := omc_engine (length (proc_log w)) (ensure_package (fs w)) in
  tried omc_engine cfg name w
  = (step_ending outcome,
     World (ensure_package (fs w)) (femm_log w) (proc_log w ++ [run_of cfg name])
       (stdout w ++ step_prints cfg name outcome)).
Proof.
  intros Hscript outcome. unfold tried, try_except.
  unfold mbind at 1, M_bind at 1, path_exists at 1.
  assert (Hpkg :
    (if negb (bool_decide (is_Some (fs w !! "package.mo")))
     then write_file "package.mo"
            (FText "within; package EccentricityStudy end EccentricityStudy;")
     else mret tt) w
    = (Ok tt, World (ensure_package (fs w)) (femm_log w) (proc_log w) (stdout w))).
  { unfold ensure_package. destruct (bool_decide _); simpl.
    - destruct w. reflexivity.
    - reflexivity. }
  rewrite (bind_Ok _ _ _ _ _ Hpkg).
  unfold mbind at 1, M_bind at 1, subprocess_run at 1.
  cbn [fs femm_log proc_log stdout].
  rewrite Hscript. fold outcome.
  destruct outcome as [|err|out|e]; [| | |destruct e];
    unfold step_ending, step_prints, mbind, M_bind, print, mret, M_ret, raise;
    cbn [fs femm_log proc_log stdout];
    rewrite <- ?app_assoc, ?app_nil_r; reflexivity.
Qed.

(** What one case step does when the switching frequency is not zero. *)
Lemma system_case_step_run cfg tpl motor_id mp tmap k f r (w : world F) :
  fis_zero (hil_divisor f) = false ->
  let name := system_case_name motor_id k f r in
  let files := files_at_run cfg tpl mp tmap k f r name (fs w) in
  let outcome := omc_engine (length (proc_log w)) files in
  system_case_step omc_engine cfg tpl motor_id mp tmap k f r w
  = (step_ending outcome,
     World (cleaned cfg name files) (femm_log w) (proc_log w ++ [run_of cfg name])
       ((stdout w ++ ["  Running case: " +:+ name]) ++ step_prints cfg name outcome)).
Proof.
  intros Hf name files outcome.
  unfold system_case_step.
  erewrite bind_Ok by reflexivity.
  unfold py_div. fold (hil_divisor f). rewrite Hf.
  erewrite bind_Ok by reflexivity.
  erewrite bind_Ok by reflexivity.
  erewrite bind_Ok by reflexivity.
  fold name.
  set (w2 := World
               (<[temp_script_path_of cfg := FScript (script_of cfg name)]>
                  (<[temp_model_path_of cfg name :=
                       model_of cfg tpl mp tmap k f r]> (fs w)))
               (femm_log w) (proc_log w) (stdout w ++ ["  Running case: " +:+ name])).
  match goal with |- _ = ?rhs =>
    change (try_finally (tried omc_engine cfg name)
              (remove_if_exists (temp_model_path_of cfg name) ;;
               remove_if_exists (temp_script_path_of cfg)) w2 = rhs)
  end.
  unfold try_finally.
  rewrite (tried_run cfg name w2)
    by (apply (files_at_run_script cfg tpl mp tmap k f r name (fs w))).
  cbv zeta.
  change (ensure_package (fs w2)) with files.
  change (proc_log w2) with (proc_log w). fold outcome.
  erewrite bind_Ok by apply remove_if_exists_run.
  rewrite remove_if_exists_run. reflexivity.
Qed.

(** With a zero switching frequency line 73 raises before anything is
    written or started. *)
Lemma system_case_step_zero cfg tpl motor_id mp tmap k f r (w : world F) :
  fis_zero (hil_divisor f) = true ->
  system_case_step omc_engine cfg tpl motor_id mp tmap k f r w
  = (Raise ZeroDivisionError,
     World (fs w) (femm_log w) (proc_log w)
       (stdout w ++ ["  Running case: " +:+ system_case_name motor_id k f r])).
Proof.
  intros Hf. unfold system_case_step.
  erewrite bind_Ok by reflexivity.
  unfold py_div. fold (hil_divisor f). rewrite Hf.
  erewrite bind_Raise by reflexivity. reflexivity.
Qed.

(** *** Loops *)

Lemma for_each_runs {A : Type} (l : list A) (body : A -> M (F:=F) flow)
  (g : A -> list (proc_run (F:=F))) (P : A -> Prop) :
  (forall x w, P x ->
     exists w', body x w = (Ok Next, w') /\ proc_log w' = proc_log w ++ g x) ->
  Forall P l ->
  forall w, exists w',
    for_each l body w = (Ok Next, w') /\ proc_log w' = proc_log w ++ flat_map g l.
Proof.
  intros Hbody HP. induction HP as [|x l Hx _ IH]; intros w.
  - exists w. split; [reflexivity|]. simpl. rewrite app_nil_r. reflexivity.
  - destruct (Hbody x w Hx) as (w1 & E1 & L1).
    destruct (IH w1) as (w2 & E2 & L2).
    exists w2. split.
    + rewrite (for_each_cons_Next _ _ _ _ _ E1). exact E2.
    + rewrite L2, L1. simpl. rewrite app_assoc. reflexivity.
Qed.

Lemma map_product3 {A B C D : Type} (h : A * B * C -> D) xs ys zs :
  map h (product3 xs ys zs)
  = flat_map (fun x => flat_map (fun y => map (fun z => h (x, y, z)) zs) ys) xs.
Proof.
  assert (Hrow : forall x,
            map h (flat_map (fun y => map (fun z => (x, y, z)) zs) ys)
            = flat_map (fun y => map (fun z => h (x, y, z)) zs) ys).
  { intros x. induction ys as [|y ys IHy]; simpl; [reflexivity|].
    rewrite map_app, IHy, map_map. reflexivity. }
  unfold product3. induction xs as [|x xs IH]; simpl; [reflexivity|].
  rewrite map_app, IH, Hrow. reflexivity.
Qed.

Lemma starts_within_for_each {A : Type} n (l : list A) (body : A -> M (F:=F) flow) :
  (forall x, starts_within n (body x) is_next) ->
  starts_within n (for_each l body) is_next.
Proof.
  intros Hbody. induction l as [|x l IH]; intros w Hw; simpl.
  - exact Hw.
  - unfold mbind, M_bind. specialize (Hbody x w Hw).
    destruct (body x w) as [[[|]|e] w1]; simpl in *.
    + apply IH. exact Hbody.
    + exact Hbody.
    + exact Hbody.
Qed.

Lemma starts_within_case_step n cfg tpl motor_id mp tmap k f r :
  (forall files, omc_engine n files = ExecutableMissing) ->
  starts_within n (system_case_step omc_engine cfg tpl motor_id mp tmap k f r) is_next.
Proof.
  intros Hmissing w Hw.
  destruct (fis_zero (hil_divisor f)) eqn:Hf.
  - rewrite (system_case_step_zero _ _ _ _ _ _ _ _ _ Hf). simpl. lia.
  - rewrite (system_case_step_run _ _ _ _ _ _ _ _ _ Hf). cbv zeta.
    destruct (Nat.eq_dec (length (proc_log w)) n) as [->|Hne].
    + rewrite Hmissing. simpl. rewrite length_app. simpl. lia.
    + destruct (omc_engine _ _) as [|err|out|e]; [| | |destruct e];
        simpl; rewrite length_app; simpl; lia.
Qed.

Lemma starts_within_motor_step n cfg tpl m :
  (forall files, omc_engine n files = ExecutableMissing) ->
  starts_within n (system_motor_step omc_engine cfg tpl m) is_next.
Proof.
  intros Hmissing w Hw. destruct m as [motor_id mp].
  unfold system_motor_step.
  erewrite bind_Ok by reflexivity.
  unfold path_exists at 1. erewrite bind_Ok by reflexivity.
  destruct (negb _).
  - simpl. exact Hw.
  - unfold system_sweep.
    apply starts_within_for_each; [|exact Hw]. intros k.
    apply starts_within_for_each. intros f.
    apply starts_within_for_each. intros r.
    apply starts_within_case_step. exact Hmissing.
Qed.

Lemma run_modelica_starts_within n cfg (w : world F) :
  (forall files, omc_engine n files = ExecutableMissing) ->
  length (proc_log w) <= n ->
  length (proc_log (run_modelica_simulations omc_engine cfg w).2) <= S n.
Proof.
  intros Hmissing Hw. unfold run_modelica_simulations.
  set (w0 := (print (Str.NL +:+ "--- Starting OpenModelica Simulation Batch ---") w).2).
  destruct (fs w0 !! paths_modelica_model_template cfg) as [tf|].
  - pose proof (starts_within_for_each n (motors cfg)
                  (system_motor_step omc_engine cfg (file_text tf))
                  (fun m => starts_within_motor_step n cfg (file_text tf) m Hmissing)
                  w0 Hw) as Hloop.
    unfold mbind, M_bind.
    destruct (for_each (motors cfg) _ w0) as [[[|]|e] w1]; simpl in *; lia.
  - simpl. lia.
Qed.

(** C6 (amended). A case whose switching frequency is not zero starts the
    solver once, with the command [omc <results>/run_sim.mos], on a script
    that names the model [EccentricityStudy.Temp_<case>], the configured stop
    time and the output prefix [<results>/<case>]; the step then ends by the
    outcome of [subprocess.run]. Executable not found: the error line is the
    last line printed and the step makes the function return, so the loop of
    the case ends there whatever cases remain. Nonzero exit: the decoded
    stderr is the last line printed and the loop goes on with the next case.
    Exit status zero: the line that reports success and names
    [<results>/<case>_res.csv] is the last line printed and the loop goes
    on. Any other exception of [subprocess.run] ([PermissionError],
    [UnicodeDecodeError], ...): nothing is printed after the name of the
    case, the exception is not caught and ends the loop. In every outcome the
    runner leaves the path [<results>/<case>_res.csv] as it found it: it
    neither writes nor checks the result that it reports. And once the
    executable is missing at the start of process number [n], the whole
    stage 2 run starts no process after it. *)
Theorem solver_outcome_classification :
  (forall cfg tpl motor_id mp tmap k f r rest (w : world F),
     fis_zero (hil_divisor f) = false ->
     let name := system_case_name motor_id k f r in
     let result_path := path_join (paths_results cfg) name +:+ "_res.csv" in
     let step := system_case_step omc_engine cfg tpl motor_id mp tmap k f in
     let outcome :=
       omc_engine (length (proc_log w))
         (files_at_run cfg tpl mp tmap k f r name (fs w)) in
     let ending :=
       match outcome with
       | ExecutableMissing | OmcRaises FileNotFoundError => Ok Return
       | NonZeroExit _ | OmcSuccess _ | OmcRaises (CalledProcessError _) => Ok Next
       | OmcRaises e => Raise e
       end in
     exists w',
       step r w = (ending, w')
       /\ proc_log w'
          = proc_log w
              ++ [{| proc_cmd := ["omc"; path_join (paths_results cfg) "run_sim.mos"];
                     proc_script :=
                       Some (FScript
                               {| mos_model_name := "EccentricityStudy.Temp_" +:+ name;
                                  mos_stop_time := sim_time_s cfg;
                                  mos_output_path :=
                                    path_join (paths_results cfg) name |}) |}]
       /\ last (stdout w')
          = Some match outcome with
                 | ExecutableMissing | OmcRaises FileNotFoundError =>
                     "[Error] 'omc' not found. Is OpenModelica installed and in your PATH?"
                 | NonZeroExit err | OmcRaises (CalledProcessError err) =>
                     "    OMC Stderr: " +:+ err
                 | OmcSuccess _ =>
                     "    -> Simulation successful. Output: " +:+ result_path
                 | OmcRaises _ => "  Running case: " +:+ name
                 end
       /\ fs w' !! result_path = fs w !! result_path
       /\ for_each (r :: rest) step w
          = match ending with
            | Ok Next => for_each rest step w'
            | Ok Return => (Ok Return, w')
            | Raise e => (Raise e, w')
            end)
  /\ (forall cfg n (w : world F),
        (forall files, omc_engine n files = ExecutableMissing) ->
        length (proc_log w) <= n ->
        length (proc_log (run_modelica_simulations omc_engine cfg w).2) <= S n).
Proof.
  split; [|intros cfg n w; apply run_modelica_starts_within].
  intros cfg tpl motor_id mp tmap k f r rest w Hf name result_path step outcome ending.
  pose proof (system_case_step_run cfg tpl motor_id mp tmap k f r w Hf) as E.
  cbv zeta in E. fold name in E. fold (step r) in E. fold outcome in E.
  change (step_ending outcome) with ending in E.
  eexists. split; [exact E|]. split; [reflexivity|]. cbn [stdout fs].
  split; [|split].
  - subst ending. rewrite last_app.
    destruct outcome as [|err|out|e]; [| | |destruct e];
      cbn [step_prints last]; first [reflexivity|apply last_snoc].
  - change result_path with (system_key cfg name).
    rewrite cleaned_key. apply files_at_run_key.
  - simpl for_each. unfold mbind at 1, M_bind at 1. rewrite E.
    destruct ending as [[|]|e]; reflexivity.
Qed.

(** *** The sweep of one motor *)

Lemma system_case_step_installed cfg tpl motor_id mp tmap k f r (w : world F) :
  solver_installed omc_engine ->
  fis_zero (hil_divisor f) = false ->
  exists w',
    system_case_step omc_engine cfg tpl motor_id mp tmap k f r w = (Ok Next, w')
    /\ proc_log w' = proc_log w ++ [run_of cfg (system_case_name motor_id k f r)].
Proof.
  intros Hinst Hf.
  pose proof (system_case_step_run cfg tpl motor_id mp tmap k f r w Hf) as E.
  cbv zeta in E.
  pose proof (Hinst (length (proc_log w))
                (files_at_run cfg tpl mp tmap k f r
                   (system_case_name motor_id k f r) (fs w))) as Hi.
  destruct (omc_engine _ _); [contradiction| | |contradiction];
    eexists; (split; [exact E|reflexivity]).
Qed.

Lemma system_sweep_runs cfg tpl motor_id mp tmap (w : world F) :
  solver_installed omc_engine ->
  Forall (fun f => fis_zero (hil_divisor (F:=F) f) = false) (hil_freq_kHz cfg) ->
  exists w',
    system_sweep omc_engine cfg tpl motor_id mp tmap w = (Ok Next, w')
    /\ proc_log w'
       = proc_log w
           ++ map (fun c => run_of cfg (system_case_name motor_id c.1.1 c.1.2 c.2))
                (product3 (controllers cfg) (hil_freq_kHz cfg) (speed_rpm cfg)).
Proof.
  intros Hinst Hfreq. rewrite map_product3. unfold system_sweep.
  apply (for_each_runs _ _ _ (fun _ => True)); [|apply Forall_true; auto].
  intros k w1 _.
  apply (for_each_runs _ _ _ (fun f => fis_zero (hil_divisor (F:=F) f) = false));
    [|exact Hfreq].
  intros f w2 Hf.
  destruct (for_each_runs (speed_rpm cfg)
              (system_case_step omc_engine cfg tpl motor_id mp tmap k f)
              (fun r => [run_of cfg (system_case_name motor_id k f r)])
              (fun _ => True)
              (fun r w3 _ =>
                 system_case_step_installed cfg tpl motor_id mp tmap k f r w3 Hinst Hf)
              (Forall_true _ _ (fun _ => I)) w2) as (w3 & E3 & L3).
  exists w3. split; [exact E3|]. rewrite L3. f_equal.
Qed.

(** C7 (amended). A motor whose nominal stage 1 result is absent is skipped:
    its iteration prints the warning, writes no file, starts no solver, and
    the loop goes on with the motors after it. A motor whose nominal result
    is present has its sweep run, and when the solver executable is found
    at every start and no switching frequency is zero the sweep starts
    exactly one solver per (controller, frequency, speed) combination, in the
    order of the product, each on the script of its case. *)
Theorem nominal_dependency_gates_the_sweep :
  (forall cfg tpl motor_id mp rest (w : world F),
     fs w !! path_join (paths_results cfg) (nominal_case_name motor_id) = None ->
     exists w',
       system_motor_step omc_engine cfg tpl (motor_id, mp) w = (Ok Next, w')
       /\ fs w' = fs w
       /\ proc_log w' = proc_log w
       /\ last (stdout w')
          = Some ("  [Warning] Nominal torque map '"
                    +:+ path_join (paths_results cfg) (nominal_case_name motor_id)
                    +:+ "' not found. Skipping system simulations for this motor.")
       /\ for_each ((motor_id, mp) :: rest) (system_motor_step omc_engine cfg tpl) w
          = for_each rest (system_motor_step omc_engine cfg tpl) w')
  /\ (forall cfg tpl motor_id mp rest (w : world F),
        is_Some (fs w !! path_join (paths_results cfg) (nominal_case_name motor_id)) ->
        solver_installed omc_engine ->
        Forall (fun f => fis_zero (hil_divisor (F:=F) f) = false) (hil_freq_kHz cfg) ->
        exists w',
          system_motor_step omc_engine cfg tpl (motor_id, mp) w = (Ok Next, w')
          /\ proc_log w'
             = proc_log w
                 ++ map (fun c => run_of cfg (system_case_name motor_id c.1.1 c.1.2 c.2))
                      (product3 (controllers cfg) (hil_freq_kHz cfg) (speed_rpm cfg))
          /\ for_each ((motor_id, mp) :: rest) (system_motor_step omc_engine cfg tpl) w
             = for_each rest (system_motor_step omc_engine cfg tpl) w').
Proof.
  split.
  - intros cfg tpl motor_id mp rest w Habsent.
    assert (Hstep : exists w',
      system_motor_step omc_engine cfg tpl (motor_id, mp) w = (Ok Next, w')
      /\ fs w' = fs w /\ proc_log w' = proc_log w
      /\ last (stdout w')
         = Some ("  [Warning] Nominal torque map '"
                   +:+ path_join (paths_results cfg) (nominal_case_name motor_id)
                   +:+ "' not found. Skipping system simulations for this motor.")).
    { unfold system_motor_step.
      erewrite bind_Ok by reflexivity.
      set (w0 := (print (Str.NL +:+ "Processing motor: " +:+ motor_id) w).2).
      assert (Hpe : path_exists
                      (path_join (paths_results cfg) (nominal_case_name motor_id)) w0
                    = (Ok false, w0)).
      { unfold path_exists. change (fs w0) with (fs w). rewrite Habsent.
        rewrite bool_decide_eq_false_2 by (intros [x Hx]; discriminate Hx).
        reflexivity. }
      rewrite (bind_Ok _ _ _ _ _ Hpe). simpl negb. cbv iota.
      eexists. split; [reflexivity|]. simpl.
      split; [reflexivity|]. split; [reflexivity|]. apply last_snoc. }
    destruct Hstep as (w' & Hstep & Hfs & Hlog & Hout).
    exists w'. repeat (split; [assumption|]).
    apply for_each_cons_Next. exact Hstep.
  - intros cfg tpl motor_id mp rest w Hpresent Hinst Hfreq.
    assert (Hstep : exists w',
      system_motor_step omc_engine cfg tpl (motor_id, mp) w = (Ok Next, w')
      /\ proc_log w'
         = proc_log w
             ++ map (fun c => run_of cfg (system_case_name motor_id c.1.1 c.1.2 c.2))
                  (product3 (controllers cfg) (hil_freq_kHz cfg) (speed_rpm cfg))).
    { unfold system_motor_step.
      erewrite bind_Ok by reflexivity.
      set (w0 := (print (Str.NL +:+ "Processing motor: " +:+ motor_id) w).2).
      assert (Hpe : path_exists
                      (path_join (paths_results cfg) (nominal_case_name motor_id)) w0
                    = (Ok true, w0)).
      { unfold path_exists. change (fs w0) with (fs w).
        rewrite bool_decide_eq_true_2 by exact Hpresent. reflexivity. }
      rewrite (bind_Ok _ _ _ _ _ Hpe). simpl negb. cbv iota.
      apply (system_sweep_runs cfg tpl motor_id mp _ w0 Hinst Hfreq). }
    destruct Hstep as (w' & Hstep & Hlog).
    exists w'. repeat (split; [assumption|]).
    apply for_each_cons_Next. exact Hstep.
Qed.

End StageTwo.

(** ** Negation is exact at both instances *)

#[export] Instance exact_arith_neg : ArithNeg Q.
Proof. intros x. reflexivity. Qed.

Lemma SFval_opp (x : spec_float) :
  (Binary64.SFval (SFopp x) == - Binary64.SFval x)%Q.
Proof.
  destruct x as [s|s| |s m e]; try reflexivity.
  unfold SFopp, Binary64.SFval.
  destruct s; simpl negb; cbv iota; destruct (0 <=? e)%Z.
  - change (Z.pos m) with (- Z.neg m)%Z.
    rewrite Z.mul_opp_l, inject_Z_opp. reflexivity.
  - reflexivity.
  - change (Z.neg m) with (- Z.pos m)%Z.
    rewrite Z.mul_opp_l, inject_Z_opp. reflexivity.
  - reflexivity.
Qed.

#[export] Instance float_arith_neg : ArithNeg float.
Proof.
  intros x. change (Binary64.SFval (Prim2SF (- x)) == - Binary64.SFval (Prim2SF x))%Q.
  rewrite opp_spec. apply SFval_opp.
Qed.

(** ** Worked inputs *)

(** The statements above at the inputs of [Examples]. *)

(** C2, as stated, fails whenever the static eccentricity is not zero. The
    case [eccentric_case] completes its four angle steps; the rotations sent
    to the session sum to zero, but the translations sum to (1/10, 0), the
    static eccentricity, not to zero. *)
Lemma net_translation_is_the_static_offset :
  length (Examples.rows_of Examples.body_run.1) = 4
  /\ (net_rotation (femm_log Examples.body_run.2) == 0)%Q
  /\ ((net_translation (femm_log Examples.body_run.2)).1 == 1 # 10)%Q
  /\ ~ ((net_translation (femm_log Examples.body_run.2)).1 == 0)%Q.
Proof.
  split; [vm_compute; reflexivity|].
  split; [vm_compute; reflexivity|].
  split; [vm_compute; reflexivity|].
  intros E. vm_compute in E. discriminate E.
Qed.

(** The try block of [eccentric_case] completes. *)
Lemma body_run_completes :
  femm_case_body (F:=Q) Examples.femm_ok "cad/M1.dxf" Examples.motor8
    Examples.eccentric_case (step_mech_of Examples.cfg90 Examples.motor8)
    Examples.w_start
  = (Ok (Examples.rows_of Examples.body_run.1), Examples.body_run.2).
Proof. vm_compute. reflexivity. Defined.

(** [sweep_undo_leaves_baseline] at [eccentric_case]: the sweep sums to zero
    and the whole case to the static offset 1/10. *)
Lemma sweep_undo_leaves_baseline_witness :
  femm_case_body (F:=Q) Examples.femm_ok "cad/M1.dxf" Examples.motor8
    Examples.eccentric_case (step_mech_of Examples.cfg90 Examples.motor8)
    Examples.w_start
  = (Ok (Examples.rows_of Examples.body_run.1), Examples.body_run.2)
  /\ exists sweep,
       femm_log Examples.body_run.2
       = baseline_calls "cad/M1.dxf" Examples.float_0p1 ++ sweep ++ [closefemm]
       /\ (net_rotation sweep == 0)%Q
       /\ ((net_translation sweep).1 == 0)%Q
       /\ ((net_translation (femm_log Examples.body_run.2)).1 == 1 # 10)%Q.
Proof.
  split; [exact body_run_completes|].
  destruct (sweep_undo_leaves_baseline (F:=Q) Examples.femm_ok _ _ _ _ _ _ _
              body_run_completes) as (sweep & Hs).
  cbv zeta in Hs. destruct Hs as (Hlog & Hrot & Htr & _ & _ & Hall & _).
  exists sweep. split; [exact Hlog|]. split; [exact Hrot|]. split; [exact Htr|].
  rewrite Hlog. exact Hall.
Defined.

(** [static_eccentricity_applied_once] at [eccentric_case]: one translation
    by 0.1, then four times 0.5 and its undo. *)
Lemma static_eccentricity_applied_once_witness :
  femm_case_body (F:=Q) Examples.femm_ok "cad/M1.dxf" Examples.motor8
    Examples.eccentric_case (step_mech_of Examples.cfg90 Examples.motor8)
    Examples.w_start
  = (Ok (Examples.rows_of Examples.body_run.1), Examples.body_run.2)
  /\ List.filter is_translate (femm_log Examples.body_run.2)
     = [mi_movetranslate Examples.float_0p1 (PyInt 0);
        mi_movetranslate Examples.float_0p5 (PyInt 0);
        mi_movetranslate (py_neg Examples.float_0p5) (PyInt 0);
        mi_movetranslate Examples.float_0p5 (PyInt 0);
        mi_movetranslate (py_neg Examples.float_0p5) (PyInt 0);
        mi_movetranslate Examples.float_0p5 (PyInt 0);
        mi_movetranslate (py_neg Examples.float_0p5) (PyInt 0);
        mi_movetranslate Examples.float_0p5 (PyInt 0);
        mi_movetranslate (py_neg Examples.float_0p5) (PyInt 0)].
Proof.
  split; [exact body_run_completes|].
  destruct (static_eccentricity_applied_once (F:=Q) Examples.femm_ok _ _ _ _ _ _ _
              body_run_completes) as (calls & Hlog & _ & Hfilter).
  rewrite Hlog. exact Hfilter.
Defined.

Lemma femm_ok_never_raises {F : Type} `{Arith F} : never_raises (Examples.femm_ok (F:=F)).
Proof. intros history c. eexists. reflexivity. Defined.

(** [sample_count_exact] for 14 poles and a step of 1 degree: exact
    arithmetic would give 360 rows. *)
Lemma sample_count_exact_witness :
  never_raises (Examples.femm_ok (F:=Q))
  /\ (0 < poles Examples.motor14)%Z
  /\ (0 < py_val (sweep_step_elec_deg Examples.cfg1))%Q
  /\ stored_rows
       (femm_case_step (F:=Q) Examples.femm_ok Examples.cfg1 "M2" Examples.motor14
          "cad/M2.dxf" 1 (0, Examples.zeros) Examples.w_start).2
       "results/M2_static_0p0_dyn_0p0_tilt_0p0.csv" = Some 360.
Proof.
  split; [exact femm_ok_never_raises|].
  split; [reflexivity|]. split; [reflexivity|].
  destruct (sample_count_exact Examples.femm_ok Examples.cfg1 "M2" Examples.motor14
              "cad/M2.dxf" 1 0 Examples.zeros Examples.w_start
              femm_ok_never_raises eq_refl eq_refl) as (w' & Hstep & Hrows).
  rewrite Hstep. exact Hrows.
Defined.


Lemma motor8_pole_pairs : fis_zero (pole_pairs_of (F:=Q) Examples.motor8) = false.
Proof. vm_compute. reflexivity. Defined.


Lemma ten_kHz_not_zero : fis_zero (hil_divisor (F:=Q) (PyInt 10)) = false.
Proof. vm_compute. reflexivity. Defined.


(** [missing_geometry_skips_the_motor] for [M2], which has no DXF. *)
Lemma missing_geometry_skips_the_motor_witness :
  fs (Examples.w_start (F:=Q)) !! path_join (paths_cad Examples.cfg90) ("M2" +:+ ".dxf")
  = None
  /\ exists w',
       femm_motor_step (F:=Q) Examples.femm_ok Examples.cfg90 ("M2", Examples.motor14)
         Examples.w_start = (Ok Next, w')
       /\ fs w' = fs Examples.w_start
       /\ femm_log w' = [].
Proof.
  assert (Habsent :
    fs (Examples.w_start (F:=Q)) !! path_join (paths_cad Examples.cfg90) ("M2" +:+ ".dxf")
    = None) by (vm_compute; reflexivity).
  split; [exact Habsent|].
  destruct (missing_geometry_skips_the_motor (F:=Q) Examples.femm_ok Examples.cfg90
              "M2" Examples.motor14 [] Examples.w_start Habsent)
    as (w' & Hstep & Hfs & Hlog & _).
  exists w'. split; [exact Hstep|]. split; [exact Hfs|exact Hlog].
Defined.

(** C7, as stated, fails when the solver executable is missing: the nominal
    result of [M1] is present and the sweep has four combinations, but the
    first start aborts the batch, so one solver is attempted, not four. *)
Lemma missing_solver_attempts_one_case :
  stored_rows Examples.w_stage1 "results/M1_static_0p0_dyn_0p0_tilt_0p0.csv" = Some 4
  /\ length (product3 (controllers Examples.cfg90) (hil_freq_kHz Examples.cfg90)
               (speed_rpm Examples.cfg90)) = 4
  /\ (system_motor_step (F:=Q) Examples.omc_missing Examples.cfg90
        "model BLDC_System end BLDC_System;" ("M1", Examples.motor8)
        Examples.w_stage1).1 = Ok Return
  /\ length (proc_log
               (system_motor_step (F:=Q) Examples.omc_missing Examples.cfg90
                  "model BLDC_System end BLDC_System;" ("M1", Examples.motor8)
                  Examples.w_stage1).2) = 1
  /\ length (proc_log
               (system_motor_step (F:=Q) Examples.omc_missing Examples.cfg90
                  "model BLDC_System end BLDC_System;" ("M1", Examples.motor8)
                  Examples.w_stage1).2)
     <> length (product3 (controllers Examples.cfg90) (hil_freq_kHz Examples.cfg90)
                  (speed_rpm Examples.cfg90)).
Proof.
  split; [vm_compute; reflexivity|].
  split; [vm_compute; reflexivity|].
  split; [vm_compute; reflexivity|].
  split; [vm_compute; reflexivity|].
  intros E. vm_compute in E. discriminate E.
Qed.

Lemma omc_ok_installed {F : Type} : solver_installed (Examples.omc_ok (F:=F)).
Proof. intros n files. exact I. Defined.

(** [nominal_dependency_gates_the_sweep] for [M1] after stage 1: four
    solvers for the 2 x 2 x 1 combinations. *)
Lemma nominal_dependency_gates_the_sweep_witness :
  is_Some (fs Examples.w_stage1
             !! path_join (paths_results Examples.cfg90) (nominal_case_name "M1"))
  /\ solver_installed (Examples.omc_ok (F:=Q))
  /\ Forall (fun f => fis_zero (hil_divisor (F:=Q) f) = false)
       (hil_freq_kHz Examples.cfg90)
  /\ exists w',
       system_motor_step (F:=Q) Examples.omc_ok Examples.cfg90
         "model BLDC_System end BLDC_System;" ("M1", Examples.motor8)
         Examples.w_stage1 = (Ok Next, w')
       /\ length (proc_log w') = 4.
Proof.
  assert (Hpresent :
    is_Some (fs Examples.w_stage1
               !! path_join (paths_results Examples.cfg90) (nominal_case_name "M1"))).
  { vm_compute. eexists. reflexivity. }
  assert (Hfreq : Forall (fun f => fis_zero (hil_divisor (F:=Q) f) = false)
                    (hil_freq_kHz Examples.cfg90)).
  { repeat constructor; vm_compute; reflexivity. }
  split; [exact Hpresent|]. split; [exact omc_ok_installed|]. split; [exact Hfreq|].
  destruct (proj2 (nominal_dependency_gates_the_sweep (F:=Q) Examples.omc_ok)
              Examples.cfg90 "model BLDC_System end BLDC_System;" "M1"
              Examples.motor8 [] Examples.w_stage1 Hpresent omc_ok_installed Hfreq)
    as (w' & Hstep & Hlog & _).
  exists w'. split; [exact Hstep|]. rewrite Hlog. reflexivity.
Defined.

(** [solver_outcome_classification] for a solver that exits with status
    zero: the step reports the result file and goes on, and the path of that
    file holds what it held before the case. *)
Lemma solver_outcome_classification_witness :
  fis_zero (hil_divisor (F:=Q) (PyInt 10)) = false
  /\ exists w',
       system_case_step (F:=Q) Examples.omc_ok Examples.cfg90
         "model BLDC_System end BLDC_System;" "M1" Examples.motor8
         "results/M1_static_0p0_dyn_0p0_tilt_0p0.csv" "FOC" (PyInt 10) (PyInt 1000)
         Examples.w_stage1 = (Ok Next, w')
       /\ last (stdout w')
          = Some ("    -> Simulation successful. "
                    +:+ "Output: results/M1_FOC_10kHz_1000rpm_res.csv")
       /\ fs w' !! "results/M1_FOC_10kHz_1000rpm_res.csv"
          = fs Examples.w_stage1 !! "results/M1_FOC_10kHz_1000rpm_res.csv".
Proof.
  split; [exact ten_kHz_not_zero|].
  destruct (proj1 (solver_outcome_classification (F:=Q) Examples.omc_ok)
              Examples.cfg90 "model BLDC_System end BLDC_System;" "M1"
              Examples.motor8 "results/M1_static_0p0_dyn_0p0_tilt_0p0.csv" "FOC"
              (PyInt 10) (PyInt 1000) [] Examples.w_stage1 ten_kHz_not_zero)
    as (w' & Hstep & _ & Hout & Hfs & _).
  exists w'. split; [exact Hstep|]. split; [exact Hout|exact Hfs].
Defined.

(** * Further properties of the runners *)

(** ** The session of a stage 1 case *)

Section Session.

Context {F : Type} `{Arith F}.
Variable femm_engine : list (femm_call F) -> femm_call F -> result F.

(** X1. Whatever happens in a case, the last call that
    [_run_single_femm_case] sends to the session is [closefemm]: at the end of
    the try block when it completes, from the handler when it raises. *)
Theorem session_always_closed dxf mp case step (w : world F) :
  last (femm_log (_run_single_femm_case femm_engine dxf mp case step w).2)
  = Some closefemm.
Proof.
  unfold _run_single_femm_case, try_except.
  destruct (femm_case_body femm_engine dxf mp case step w) as [[rows|e] w1] eqn:E.
  - apply femm_case_body_inv_Ok in E as [_ ->].
    unfold log_calls. cbn [snd femm_log].
    rewrite !app_assoc. apply last_snoc.
  - unfold mbind, M_bind, print, femm. simpl.
    destruct (femm_engine (femm_log w1) closefemm); simpl; apply last_snoc.
Qed.


(** *** What a case sends, whatever its outcome *)

Lemma sends_ret {A : Type} (a : A) : sends (F:=F) (mret a) [].
Proof.
  intros w. exists []. simpl. rewrite app_nil_r.
  split; [reflexivity|]. split; [apply prefix_nil|reflexivity].
Qed.

Lemma sends_quiet {A : Type} (m : M (F:=F) A) (script : list (femm_call F)) :
  (forall w, femm_log (m w).2 = femm_log w) ->
  (forall w a, (m w).1 = Ok a -> script = []) ->
  sends m script.
Proof.
  intros Hlog HOk w. exists []. rewrite Hlog, app_nil_r.
  split; [reflexivity|]. split; [apply prefix_nil|].
  intros a E. symmetry. exact (HOk w a E).
Qed.

Lemma sends_femm c : sends (femm femm_engine c) [c].
Proof.
  intros w. exists [c]. split; [reflexivity|]. split; [reflexivity|reflexivity].
Qed.

Lemma sends_when b c :
  sends (when b (femm femm_engine c)) (if b then [c] else []).
Proof.
  unfold when. destruct b.
  - intros w. exists [c]. unfold mbind, M_bind, femm.
    destruct (femm_engine (femm_log w) c); simpl;
      (split; [reflexivity|]); (split; [reflexivity|reflexivity]).
  - apply sends_ret.
Qed.

Lemma sends_bind {A B : Type} (m : M (F:=F) A) (f : A -> M B) s1 s2 :
  sends m s1 -> (forall a, sends (f a) s2) -> sends (m ≫= f) (s1 ++ s2).
Proof.
  intros Hm Hf w. unfold mbind, M_bind.
  destruct (Hm w) as (cs1 & L1 & P1 & O1).
  destruct (m w) as [[a|e] w1]; simpl in *.
  - rewrite (O1 a eq_refl) in L1.
    destruct (Hf a w1) as (cs2 & L2 & P2 & O2).
    exists (s1 ++ cs2). rewrite L2, L1, <- app_assoc.
    split; [reflexivity|]. split; [apply prefix_app; exact P2|].
    intros b E. rewrite (O2 b E). reflexivity.
  - exists cs1. split; [exact L1|]. split; [apply prefix_app_r; exact P1|].
    intros b E. discriminate E.
Qed.

Lemma sends_bind_some {A B : Type} (m : M (F:=F) A) (f : A -> M B) s1
  (P : list (femm_call F) -> Prop) :
  (exists s2, P s2) ->
  sends m s1 -> (forall a, sends_some (f a) P) ->
  sends_some (m ≫= f) (fun s => exists s2, P s2 /\ s = s1 ++ s2).
Proof.
  intros [s0 HP0] Hm Hf w. unfold mbind, M_bind.
  destruct (Hm w) as (cs1 & L1 & P1 & O1).
  destruct (m w) as [[a|e] w1]; simpl in *.
  - rewrite (O1 a eq_refl) in L1.
    destruct (Hf a w1) as (s2 & cs2 & HP & L2 & P2 & O2).
    exists (s1 ++ s2), (s1 ++ cs2). rewrite L2, L1, <- app_assoc.
    split; [exists s2; split; [exact HP|reflexivity]|].
    split; [reflexivity|]. split; [apply prefix_app; exact P2|].
    intros b Eb. rewrite (O2 b Eb). reflexivity.
  - exists (s1 ++ s0), cs1.
    split; [exists s0; split; [exact HP0|reflexivity]|].
    split; [exact L1|]. split; [apply prefix_app_r; exact P1|].
    intros b Eb. discriminate Eb.
Qed.

Lemma sends_for_collect {A B : Type} (l : list A) (body : A -> M (F:=F) B)
  (g : A -> list (femm_call F)) :
  (forall x, sends (body x) (g x)) ->
  sends (for_collect l body) (concat (map g l)).
Proof.
  intros Hb. induction l as [|x l IH]; simpl.
  - apply sends_ret.
  - apply sends_bind; [apply Hb|]. intros b.
    rewrite <- (app_nil_r (concat (map g l))).
    apply sends_bind; [exact IH|]. intros bs. apply sends_ret.
Qed.

Lemma sends_sweep_step dyn theta :
  sends (sweep_step femm_engine dyn theta) (step_calls dyn theta).
Proof.
  unfold sweep_step, step_calls.
  repeat first
    [ apply sends_ret
    | apply (sends_bind _ _ [_] _); [apply sends_femm|intros ?]
    | apply sends_bind; [apply sends_when|intros ?] ].
Qed.

(** The part of the try block after [np.arange]. *)
Lemma sends_sweep_and_close dyn thetas :
  sends (rows ← for_collect thetas (sweep_step femm_engine dyn) ;
         femm femm_engine closefemm ;; mret rows)
    (sweep_calls dyn thetas ++ [closefemm]).
Proof.
  apply sends_bind.
  - apply sends_for_collect. intros x. apply sends_sweep_step.
  - intros rows. apply (sends_bind _ _ [_] []); [apply sends_femm|intros ?].
    apply sends_ret.
Qed.


Lemma sends_some_weaken {A : Type} (m : M (F:=F) A)
  (P Q : list (femm_call F) -> Prop) :
  (forall s, P s -> Q s) -> sends_some m P -> sends_some m Q.
Proof.
  intros HPQ Hm w. destruct (Hm w) as (script & cs & HP & Rest).
  exists script, cs. split; [apply HPQ; exact HP|exact Rest].
Qed.

(** In every case, completed or not, what the try block sends is an initial
    segment of the baseline calls, the sweep over some angles, and
    [closefemm]. *)
Lemma femm_case_body_sends dxf mp case step :
  sends_some (femm_case_body femm_engine dxf mp case step)
    (fun s => exists thetas,
       s = baseline_calls dxf (case_static_ecc_mm case)
           ++ sweep_calls (case_dynamic_ecc_mm case) thetas ++ [closefemm]).
Proof.
  set (static := case_static_ecc_mm case). set (dyn := case_dynamic_ecc_mm case).
  set (tail := fun span =>
         thetas ← np_arange (of_Z 0) span step ;
         rows ← for_collect thetas (sweep_step femm_engine dyn) ;
         femm femm_engine closefemm ;; mret rows).
  assert (Htail : forall span,
            sends_some (tail span)
              (fun s => exists thetas, s = sweep_calls dyn thetas ++ [closefemm])).
  { intros span w. unfold tail, np_arange.
    destruct (arange_len (of_Z 0) span step) as [n|].
    - set (thetas := (fun i => fadd (of_Z 0) (fmul (of_Z (Z.of_nat i)) step))
                       <$> seq 0 n).
      destruct (sends_sweep_and_close dyn thetas w) as (cs & L & P & O).
      exists (sweep_calls dyn thetas ++ [closefemm]), cs.
      split; [exists thetas; reflexivity|].
      split; [exact L|]. split; [exact P|exact O].
    - exists (sweep_calls dyn [] ++ [closefemm]), [].
      split; [exists []; reflexivity|]. simpl. rewrite app_nil_r.
      split; [reflexivity|]. split; [apply prefix_nil|]. intros a E. discriminate E. }
  assert (Hdiv : forall (a b : F),
            sends_some (py_div a b ≫= tail)
              (fun s => exists thetas, s = sweep_calls dyn thetas ++ [closefemm])).
  { intros a b w. unfold py_div, mbind, M_bind.
    destruct (fis_zero b).
    - exists (sweep_calls dyn [] ++ [closefemm]), [].
      split; [exists []; reflexivity|]. simpl. rewrite app_nil_r.
      split; [reflexivity|]. split; [apply prefix_nil|]. intros x E. discriminate E.
    - apply Htail. }
  unfold femm_case_body. fold static dyn.
  eapply sends_some_weaken.
  2:{ eapply sends_bind_some; [|apply sends_femm|intros _].
      2:{ eapply sends_bind_some; [|apply sends_femm|intros _].
          2:{ eapply sends_bind_some; [|apply sends_femm|intros _].
              2:{ eapply sends_bind_some; [|apply sends_femm|intros _].
                  2:{ apply Hdiv. }
                  exists (sweep_calls dyn [] ++ [closefemm]), []. reflexivity. }
              eexists. eexists. split; [|reflexivity].
              exists []. reflexivity. }
          eexists. eexists. split; [|reflexivity].
          eexists. split; [|reflexivity].
          exists []. reflexivity. }
      eexists. eexists. split; [|reflexivity].
      eexists. split; [|reflexivity].
      eexists. split; [|reflexivity].
      exists []. reflexivity. }
  intros s (s1 & (s2 & (s3 & (s4 & (thetas & ->) & ->) & ->) & ->) & ->).
  exists thetas. reflexivity.
Qed.

Lemma filter_prefix {A : Type} (P : A -> bool) (l1 l2 : list A) :
  l1 `prefix_of` l2 -> List.filter P l1 `prefix_of` List.filter P l2.
Proof. intros [k ->]. rewrite List.filter_app. apply prefix_app_r. reflexivity. Qed.

(** X2. Whatever the outcome of the try block of a case (completed, or
    raised at any call), the calls it has sent are an initial segment of the
    baseline calls, the calls of the sweep over some list of angles, and
    [closefemm]. So the translations sent are an initial segment of the static
    eccentricity followed, per angle step, by the dynamic eccentricity and
    its undo: a case that fails half way has not re-applied the static
    eccentricity either. *)
Theorem case_sends_initial_segment dxf mp case step (w : world F) :
  exists thetas calls,
    femm_log (femm_case_body femm_engine dxf mp case step w).2 = femm_log w ++ calls
    /\ calls `prefix_of`
         (baseline_calls dxf (case_static_ecc_mm case)
            ++ sweep_calls (case_dynamic_ecc_mm case) thetas ++ [closefemm])
    /\ List.filter is_translate calls `prefix_of`
         (mi_movetranslate (case_static_ecc_mm case) (PyInt 0)
            :: concat (map (fun _ =>
                              if py_nonzero (case_dynamic_ecc_mm case)
                              then [mi_movetranslate (case_dynamic_ecc_mm case) (PyInt 0);
                                    mi_movetranslate (py_neg (case_dynamic_ecc_mm case))
                                      (PyInt 0)]
                              else []) thetas)).
Proof.
  destruct (femm_case_body_sends dxf mp case step w)
    as (script & calls & (thetas & ->) & Hlog & Hpre & _).
  exists thetas, calls. split; [exact Hlog|]. split; [exact Hpre|].
  apply (filter_prefix is_translate) in Hpre.
  rewrite !List.filter_app, (filter_translate_sweep (F:=F)) in Hpre.
  simpl in Hpre. rewrite app_nil_r in Hpre. exact Hpre.
Qed.

End Session.

(** ** Edge cases of the stage 1 batch *)

Section StageOneEdges.

Context {F : Type} `{Arith F}.
Variable femm_engine : list (femm_call F) -> femm_call F -> result F.

(** X3. A sweep without angles is not a failure and still stores nothing:
    when [np.arange] returns no angle (a negative step, for instance) and no
    call raises, the case opens the document, applies the static
    eccentricity, closes the session, prints no error, and the empty data
    frame is not written. *)
Theorem empty_sweep_stores_nothing cfg motor_id mp dxf total i combo (w : world F) :
  never_raises femm_engine ->
  fis_zero (pole_pairs_of mp) = false ->
  arange_len (of_Z 0) (mechanical_span_of mp) (step_mech_of cfg mp) = Some 0 ->
  exists w',
    femm_case_step femm_engine cfg motor_id mp dxf total (i, combo) w = (Ok Next, w')
    /\ fs w' = fs w
    /\ femm_log w' = femm_log w ++ baseline_calls dxf combo.1.1 ++ [closefemm]
    /\ stdout w' = stdout w ++ [running_case_line i total (femm_case_name combo)].
Proof.
  intros Hok Hpp Hlen.
  set (w0 := (print (running_case_line i total (femm_case_name combo)) w).2).
  destruct (femm_case_body_progress femm_engine dxf mp (case_of combo)
              (step_mech_of cfg mp) w0 0 Hok Hpp Hlen)
    as (rows & w1 & Hbody & Hrows & Hfs & Hout).
  destruct rows as [|row rows]; [|discriminate Hrows].
  pose proof (femm_case_body_inv_Ok _ _ _ _ _ _ _ _ Hbody) as [_ Hw1].
  exists w1. split.
  - unfold femm_case_step.
    erewrite bind_Ok by reflexivity. fold w0.
    unfold py_div. fold (pole_pairs_of mp). rewrite Hpp.
    erewrite bind_Ok by reflexivity. fold (step_mech_of cfg mp).
    assert (Hrun : _run_single_femm_case femm_engine dxf mp (case_of combo)
                     (step_mech_of cfg mp) w0 = (Ok [], w1)).
    { unfold _run_single_femm_case, try_except. rewrite Hbody. reflexivity. }
    rewrite (bind_Ok _ _ _ _ _ Hrun). reflexivity.
  - split; [exact Hfs|]. split; [|exact Hout].
    rewrite Hw1. reflexivity.
Qed.

(** X4. A motor with a pole count of zero is not isolated: the division of
    line 127 is outside the try block, so its first case raises
    [ZeroDivisionError] before anything is sent to the session or written,
    and the exception ends the whole motor loop: no later motor is run. *)
Theorem zero_poles_abort_the_batch cfg motor_id mp rest (w : world F) :
  fis_zero (pole_pairs_of mp) = true ->
  is_Some (fs w !! path_join (paths_cad cfg) (motor_id +:+ ".dxf")) ->
  product3 (static_ecc_mm cfg) (dynamic_ecc_mm cfg) (tilt_deg cfg) <> [] ->
  exists w',
    femm_motor_step femm_engine cfg (motor_id, mp) w = (Raise ZeroDivisionError, w')
    /\ fs w' = fs w
    /\ femm_log w' = femm_log w
    /\ for_each ((motor_id, mp) :: rest) (femm_motor_step femm_engine cfg) w
       = (Raise ZeroDivisionError, w').
Proof.
  intros Hpp Hdxf Hcombos.
  assert (Hstep : exists w',
    femm_motor_step femm_engine cfg (motor_id, mp) w = (Raise ZeroDivisionError, w')
    /\ fs w' = fs w /\ femm_log w' = femm_log w).
  { unfold femm_motor_step.
    erewrite bind_Ok by reflexivity.
    set (w0 := (print (Str.NL +:+ "Processing motor: " +:+ motor_id) w).2).
    assert (Hpe : path_exists (path_join (paths_cad cfg) (motor_id +:+ ".dxf")) w0
                  = (Ok true, w0)).
    { unfold path_exists. change (fs w0) with (fs w).
      rewrite bool_decide_eq_true_2 by exact Hdxf. reflexivity. }
    rewrite (bind_Ok _ _ _ _ _ Hpe). cbn [negb].
    destruct (product3 (static_ecc_mm cfg) (dynamic_ecc_mm cfg) (tilt_deg cfg))
      as [|combo combos]; [contradiction|].
    assert (Hen : enumerate (combo :: combos)
                  = (0, combo) :: tail (enumerate (combo :: combos))) by reflexivity.
    rewrite Hen. clear Hen.
    change (for_each (?x :: ?l) ?body) with (r ← body x; match r with Next => for_each l body | Return => mret Return end).
    assert (Hcase : femm_case_step femm_engine cfg motor_id mp
                      (path_join (paths_cad cfg) (motor_id +:+ ".dxf"))
                      (length (combo :: combos)) (0, combo) w0
                    = (Raise ZeroDivisionError,
                       (print (running_case_line 0 (length (combo :: combos))
                                 (femm_case_name combo)) w0).2)).
    { unfold femm_case_step.
      erewrite bind_Ok by reflexivity.
      unfold py_div. fold (pole_pairs_of mp). rewrite Hpp.
      erewrite bind_Raise by reflexivity. reflexivity. }
    rewrite (bind_Raise _ _ _ _ _ Hcase).
    eexists. split; [reflexivity|]. split; reflexivity. }
  destruct Hstep as (w' & Hstep & Hfs & Hlog).
  exists w'. split; [exact Hstep|]. split; [exact Hfs|]. split; [exact Hlog|].
  simpl. rewrite (bind_Raise _ _ _ _ _ Hstep). reflexivity.
Qed.

End StageOneEdges.

(** ** Which files the runners touch *)

Section Frames.

Context {F : Type} `{Arith F}.

Lemma touches_only_keeps {A : Type} (m : M (F:=F) A) paths :
  keeps_files m -> touches_only m paths.
Proof. intros Hm w p _. destruct (Hm w) as [E _]. rewrite E. reflexivity. Qed.

Lemma touches_only_bind {A B : Type} (m : M (F:=F) A) (f : A -> M B) paths :
  touches_only m paths -> (forall a, touches_only (f a) paths) ->
  touches_only (m ≫= f) paths.
Proof.
  intros Hm Hf w p Hp. unfold mbind, M_bind.
  specialize (Hm w p Hp).
  destruct (m w) as [[a|e] w1]; simpl in *.
  - rewrite (Hf a w1 p Hp). exact Hm.
  - exact Hm.
Qed.

Lemma touches_only_for_each {A : Type} (l : list A) (body : A -> M (F:=F) flow) paths :
  (forall x, In x l -> touches_only (body x) paths) ->
  touches_only (for_each l body) paths.
Proof.
  induction l as [|x l IH]; intros Hbody.
  - intros w p _. reflexivity.
  - simpl. apply touches_only_bind.
    + apply Hbody. left. reflexivity.
    + intros [|].
      * apply IH. intros y Hy. apply Hbody. right. exact Hy.
      * intros w p _. reflexivity.
Qed.

Lemma touches_only_write p (f : file F) (paths : string -> Prop) :
  paths p -> touches_only (write_file p f) paths.
Proof.
  intros Hp w q Hq. simpl.
  apply lookup_insert_ne. intros E. apply Hq. rewrite <- E. exact Hp.
Qed.

Lemma touches_only_print s paths : touches_only (print (F:=F) s) paths.
Proof. intros w p _. reflexivity. Qed.

Lemma touches_only_weaken {A : Type} (m : M (F:=F) A) (P Q : string -> Prop) :
  (forall p, P p -> Q p) -> touches_only m P -> touches_only m Q.
Proof. intros HPQ Hm w p Hp. apply Hm. intros HP. apply Hp, HPQ, HP. Qed.

Section StageOneFrame.

Variable femm_engine : list (femm_call F) -> femm_call F -> result F.

Lemma touches_only_case_step cfg motor_id mp dxf total i combo :
  touches_only (femm_case_step femm_engine cfg motor_id mp dxf total (i, combo))
    (fun p => p = path_join (paths_results cfg) (femm_key motor_id combo)).
Proof.
  unfold femm_case_step.
  apply touches_only_bind; [apply touches_only_print|]. intros _.
  apply touches_only_bind.
  { apply touches_only_keeps, keeps_files_py_div. }
  intros step.
  apply touches_only_bind.
  { apply touches_only_keeps, keeps_files_run_single. }
  intros [|row rows].
  - intros w p _. reflexivity.
  - apply touches_only_bind; [apply touches_only_write; reflexivity|]. intros _.
    apply touches_only_bind; [apply touches_only_print|]. intros _.
    intros w p _. reflexivity.
Qed.

Lemma touches_only_motor_step cfg motor_id mp :
  touches_only (femm_motor_step femm_engine cfg (motor_id, mp))
    (fun p => exists combo,
       In combo (product3 (static_ecc_mm cfg) (dynamic_ecc_mm cfg) (tilt_deg cfg))
       /\ p = path_join (paths_results cfg) (femm_key motor_id combo)).
Proof.
  unfold femm_motor_step.
  apply touches_only_bind; [apply touches_only_print|]. intros _.
  apply touches_only_bind.
  { intros w p _. reflexivity. }
  intros [|]; cbn [negb].
  - apply touches_only_for_each. intros [i combo] Hin.
    apply in_combine_r in Hin.
    eapply touches_only_weaken; [|apply touches_only_case_step].
    intros p ->. exists combo. split; [exact Hin|reflexivity].
  - apply touches_only_bind; [apply touches_only_print|]. intros _.
    intros w p _. reflexivity.
Qed.

(** X5. Stage 1 writes result keys and nothing else: a path that is not
    the key of a configured motor and a combination of the product holds
    after [run_femm_simulations] what it held before, whatever the session
    answers and however the run ends. *)
Theorem stage_one_writes_only_result_keys cfg p (w : world F) :
  (forall motor_id mp combo,
     In (motor_id, mp) (motors cfg) ->
     In combo (product3 (static_ecc_mm cfg) (dynamic_ecc_mm cfg) (tilt_deg cfg)) ->
     p <> path_join (paths_results cfg) (femm_key motor_id combo)) ->
  fs (run_femm_simulations femm_engine cfg w).2 !! p = fs w !! p.
Proof.
  intros Hp.
  assert (Hrun : touches_only (run_femm_simulations femm_engine cfg)
            (fun q => exists motor_id mp combo,
               In (motor_id, mp) (motors cfg)
               /\ In combo (product3 (static_ecc_mm cfg) (dynamic_ecc_mm cfg)
                              (tilt_deg cfg))
               /\ q = path_join (paths_results cfg) (femm_key motor_id combo))).
  { unfold run_femm_simulations.
    apply touches_only_bind; [apply touches_only_print|]. intros _.
    apply touches_only_bind; [|intros _; apply touches_only_print].
    apply touches_only_for_each. intros [motor_id mp] Hm.
    eapply touches_only_weaken; [|apply touches_only_motor_step].
    intros q (combo & Hc & ->). exists motor_id, mp, combo. auto. }
  apply Hrun. intros (motor_id & mp & combo & Hm & Hc & E).
  exact (Hp motor_id mp combo Hm Hc E).
Qed.

End StageOneFrame.

End Frames.

(** ** Paths of stage 1 keys and of the file a script loads *)

Module ArtifactPaths.

Import Str StrFacts PathFacts.

Lemma femm_path_last cfg m c :
  last_char (path_join (paths_results cfg) (femm_key m c)) = Some "v"%char.
Proof.
  unfold path_join, femm_key, output_filename.
  change ".csv" with (".cs" +:+ "v").
  rewrite <- !app_assoc. apply last_char_app.
Qed.

Lemma femm_path_not_package cfg m c :
  path_join (paths_results cfg) (femm_key m c) <> "package.mo".
Proof.
  intros E. pose proof (path_has_sep (paths_results cfg) (femm_key m c)) as L.
  rewrite E in L. discriminate L.
Qed.

Lemma femm_path_not_script cfg m c :
  path_join (paths_results cfg) (femm_key m c) <> temp_script_path_of cfg.
Proof.
  intros E. pose proof (femm_path_last cfg m c) as L.
  rewrite E, script_last in L. discriminate L.
Qed.

Lemma femm_path_not_model cfg m c name :
  path_join (paths_results cfg) (femm_key m c) <> temp_model_path_of cfg name.
Proof.
  intros E. pose proof (femm_path_last cfg m c) as L.
  rewrite E, model_last in L. discriminate L.
Qed.

Lemma femm_path_not_key cfg m c name :
  path_join (paths_results cfg) (femm_key m c) <> system_key cfg name.
Proof.
  unfold system_key, res_csv, path_join. rewrite !app_assoc.
  intros E. apply app_inv_head in E. apply app_inv_head in E.
  exact (femm_key_not_res_csv m c name E).
Qed.

Lemma model_not_script cfg name : temp_model_path_of cfg name <> temp_script_path_of cfg.
Proof.
  intros E. pose proof (model_last cfg name) as L.
  rewrite E, script_last in L. discriminate L.
Qed.

Lemma load_file_text cfg name :
  mos_load_file (script_of cfg name)
  = "EccentricityStudy." +:+ (("Temp_" +:+ name) +:+ ".mo").
Proof.
  unfold mos_load_file, script_of, _create_simulation_script. simpl mos_model_name.
  apply app_assoc.
Qed.

Lemma load_file_last cfg name :
  last_char (mos_load_file (script_of cfg name)) = Some "o"%char.
Proof.
  rewrite load_file_text.
  change ".mo" with (".m" +:+ "o").
  rewrite <- !app_assoc. apply last_char_app.
Qed.

Lemma load_file_not_model cfg name :
  mos_load_file (script_of cfg name) <> temp_model_path_of cfg name.
Proof.
  rewrite load_file_text. unfold temp_model_path_of, path_join.
  rewrite <- (app_assoc (paths_results cfg) "/").
  intros E. apply app_inv_tail in E.
  pose proof (last_char_app (paths_results cfg) "/" EmptyString) as L.
  rewrite <- E in L. discriminate L.
Qed.

Lemma load_file_not_script cfg name :
  mos_load_file (script_of cfg name) <> temp_script_path_of cfg.
Proof.
  intros E. pose proof (load_file_last cfg name) as L.
  rewrite E, script_last in L. discriminate L.
Qed.

Lemma load_file_not_package cfg name :
  mos_load_file (script_of cfg name) <> "package.mo".
Proof. rewrite load_file_text. discriminate. Qed.

End ArtifactPaths.

(** ** What a stage 2 case leaves on disk *)

Section StageTwoFiles.

Context {F : Type} `{Arith F}.
Variable omc_engine : nat -> gmap string (file F) -> omc_outcome.

(** The files after a case whose switching frequency is not zero. *)
Lemma system_case_step_files cfg tpl motor_id mp tmap k f r (w : world F) :
  fis_zero (hil_divisor f) = false ->
  let name := system_case_name motor_id k f r in
  let files := files_at_run cfg tpl mp tmap k f r name (fs w) in
  fs (system_case_step omc_engine cfg tpl motor_id mp tmap k f r w).2
  = cleaned cfg name files.
Proof.
  intros Hf name files.
  rewrite (system_case_step_run omc_engine cfg tpl motor_id mp tmap k f r w Hf).
  cbv zeta. fold name. fold files.
  destruct (omc_engine (length (proc_log w)) files); reflexivity.
Qed.

Lemma cleaned_model cfg name (files : gmap string (file F)) :
  cleaned cfg name files !! temp_model_path_of cfg name = None.
Proof.
  unfold cleaned.
  rewrite lookup_delete_ne
    by (intros E; apply (ArtifactPaths.model_not_script cfg name); symmetry; exact E).
  apply lookup_delete_eq.
Qed.

Lemma cleaned_script cfg name (files : gmap string (file F)) :
  cleaned cfg name files !! temp_script_path_of cfg = None.
Proof. unfold cleaned. apply lookup_delete_eq. Qed.

Lemma cleaned_other cfg name (files : gmap string (file F)) p :
  p <> temp_model_path_of cfg name -> p <> temp_script_path_of cfg ->
  cleaned cfg name files !! p = files !! p.
Proof.
  intros N1 N2. unfold cleaned. rewrite !lookup_delete_ne by congruence. reflexivity.
Qed.

Lemma files_at_run_other cfg tpl mp tmap k f r name (files : gmap string (file F)) p :
  p <> "package.mo" -> p <> temp_model_path_of cfg name -> p <> temp_script_path_of cfg ->
  files_at_run cfg tpl mp tmap k f r name files !! p = files !! p.
Proof.
  intros N0 N1 N2. unfold files_at_run, ensure_package.
  destruct (bool_decide _); rewrite !lookup_insert_ne by congruence; reflexivity.
Qed.

Lemma files_at_run_package cfg tpl mp tmap k f r name (files : gmap string (file F)) :
  files_at_run cfg tpl mp tmap k f r name files !! "package.mo"
  = Some (default package_text (files !! "package.mo")).
Proof.
  pose proof (PathFacts.script_not_package cfg) as N1.
  pose proof (PathFacts.model_not_package cfg name) as N2.
  unfold files_at_run, ensure_package.
  destruct (bool_decide _) eqn:E.
  - apply bool_decide_eq_true_1 in E. destruct E as [x E]. rewrite E.
    rewrite !lookup_insert_ne in E by congruence. rewrite E. reflexivity.
  - apply bool_decide_eq_false_1 in E.
    rewrite lookup_insert_eq.
    destruct (files !! "package.mo") as [x|] eqn:L; [|reflexivity].
    exfalso. apply E. exists x.
    rewrite !lookup_insert_ne by congruence. exact L.
Qed.

(** X6. The [finally] block leaves no temporary file behind: after a case
    whose switching frequency is not zero, whether the solver was missing,
    failed or succeeded, there is no file at the path of the temporary model
    nor at the path of the script, also when a file of that name was there
    before the case. *)
Theorem temporary_files_are_removed cfg tpl motor_id mp tmap k f r (w : world F) :
  fis_zero (hil_divisor f) = false ->
  let w' := (system_case_step omc_engine cfg tpl motor_id mp tmap k f r w).2 in
  fs w' !! temp_model_path_of cfg (system_case_name motor_id k f r) = None
  /\ fs w' !! temp_script_path_of cfg = None.
Proof.
  intros Hf w'. subst w'.
  rewrite (system_case_step_files cfg tpl motor_id mp tmap k f r w Hf). cbv zeta.
  split; [apply cleaned_model|apply cleaned_script].
Qed.

(** X7. [package.mo] is created when it is missing, is never overwritten
    and is not cleaned up: after a case whose switching frequency is not
    zero it holds what it held before the case, or the one-line package
    declaration when it was not there. *)
Theorem package_file_is_created_once cfg tpl motor_id mp tmap k f r (w : world F) :
  fis_zero (hil_divisor f) = false ->
  fs (system_case_step omc_engine cfg tpl motor_id mp tmap k f r w).2 !! "package.mo"
  = Some (default package_text (fs w !! "package.mo")).
Proof.
  intros Hf.
  rewrite (system_case_step_files cfg tpl motor_id mp tmap k f r w Hf). cbv zeta.
  set (name := system_case_name motor_id k f r).
  pose proof (PathFacts.script_not_package cfg) as N1.
  pose proof (PathFacts.model_not_package cfg name) as N2.
  rewrite cleaned_other by congruence.
  apply files_at_run_package.
Qed.

(** X8. The solver is started on a script that asks it to load a file
    the runner never writes. For every case, whatever the solver is, the
    step consults it on one file state only, the one in which the script
    [<results>/run_sim.mos] and the model [<results>/Temp_<case>.mo] have
    just been written; the file named in the [loadFile] of that script is
    [EccentricityStudy.Temp_<case>.mo], a different path for every
    configuration, and in that state it holds what it held before the case.
    So a solver that exits nonzero when the file it is told to load is
    missing fails on every case for which that file was not on disk before:
    the step prints its stderr and goes on. *)
Theorem script_loads_a_file_never_written cfg tpl motor_id mp tmap k f r
  (w : world F) :
  let name := system_case_name motor_id k f r in
  let script :=
    {| mos_model_name := "EccentricityStudy.Temp_" +:+ name;
       mos_stop_time := sim_time_s cfg;
       mos_output_path := path_join (paths_results cfg) name |} in
  let model_path := path_join (paths_results cfg) ("Temp_" +:+ name +:+ ".mo") in
  let load := "EccentricityStudy.Temp_" +:+ name +:+ ".mo" in
  let at_start := files_at_run cfg tpl mp tmap k f r name (fs w) in
  (forall engine : nat -> gmap string (file F) -> omc_outcome,
     system_case_step engine cfg tpl motor_id mp tmap k f r w
     = system_case_step (fun _ _ => engine (length (proc_log w)) at_start)
         cfg tpl motor_id mp tmap k f r w)
  /\ at_start !! path_join (paths_results cfg) "run_sim.mos" = Some (FScript script)
  /\ mos_load_file script = load
  /\ at_start !! model_path = Some (model_of cfg tpl mp tmap k f r)
  /\ load <> model_path
  /\ at_start !! load = fs w !! load
  /\ (forall (engine : nat -> gmap string (file F) -> omc_outcome) err,
        (forall n files, files !! load = None -> engine n files = NonZeroExit err) ->
        fis_zero (hil_divisor f) = false ->
        fs w !! load = None ->
        exists w',
          system_case_step engine cfg tpl motor_id mp tmap k f r w = (Ok Next, w')
          /\ last (stdout w') = Some ("    OMC Stderr: " +:+ err)).
Proof.
  intros name script model_path load at_start.
  assert (Hload : load = mos_load_file (script_of cfg name)).
  { symmetry. apply ArtifactPaths.load_file_text. }
  assert (Hmodel : model_path = temp_model_path_of cfg name).
  { reflexivity. }
  assert (Hat : at_start !! load = fs w !! load).
  { rewrite Hload. apply files_at_run_other.
    - apply ArtifactPaths.load_file_not_package.
    - apply ArtifactPaths.load_file_not_model.
    - apply ArtifactPaths.load_file_not_script. }
  split.
  { intros engine. destruct (fis_zero (hil_divisor f)) eqn:Hf.
    - rewrite !(system_case_step_zero _ cfg tpl motor_id mp tmap k f r w Hf).
      reflexivity.
    - rewrite !(system_case_step_run _ cfg tpl motor_id mp tmap k f r w Hf).
      reflexivity. }
  split; [apply (files_at_run_script cfg tpl mp tmap k f r name (fs w))|].
  split; [rewrite Hload; reflexivity|].
  split.
  { rewrite Hmodel. unfold at_start, files_at_run, ensure_package.
    pose proof (PathFacts.model_not_package cfg name) as N1.
    pose proof (ArtifactPaths.model_not_script cfg name) as N2.
    destruct (bool_decide _); rewrite !lookup_insert_ne by congruence;
      apply lookup_insert_eq. }
  split; [rewrite Hload, Hmodel; apply ArtifactPaths.load_file_not_model|].
  split; [exact Hat|].
  intros engine err Hengine Hf Habsent.
  pose proof (system_case_step_run engine cfg tpl motor_id mp tmap k f r w Hf) as E.
  cbv zeta in E. fold name in E. fold at_start in E.
  rewrite (Hengine (length (proc_log w)) at_start) in E
    by (rewrite Hat; exact Habsent).
  eexists. split; [exact E|]. cbn [stdout step_prints].
  rewrite last_app. reflexivity.
Qed.

(** *** Files that stage 2 may touch *)

Lemma touches_only_system_case_step cfg tpl motor_id mp tmap k f r :
  touches_only (system_case_step omc_engine cfg tpl motor_id mp tmap k f r)
    (stage_two_artifact cfg).
Proof.
  intros w p Hp.
  set (name := system_case_name motor_id k f r).
  assert (N0 : p <> "package.mo") by (intros E; apply Hp; left; exact E).
  assert (N1 : p <> temp_script_path_of cfg)
    by (intros E; apply Hp; right; left; exact E).
  assert (N2 : p <> temp_model_path_of cfg name)
    by (intros E; apply Hp; right; right; exists name; exact E).
  destruct (fis_zero (hil_divisor f)) eqn:Hf.
  - rewrite (system_case_step_zero omc_engine cfg tpl motor_id mp tmap k f r w Hf).
    reflexivity.
  - rewrite (system_case_step_files cfg tpl motor_id mp tmap k f r w Hf). cbv zeta.
    fold name.
    rewrite cleaned_other by congruence.
    apply files_at_run_other; congruence.
Qed.

Lemma touches_only_motor_step_two cfg tpl m :
  touches_only (system_motor_step omc_engine cfg tpl m) (stage_two_artifact cfg).
Proof.
  destruct m as [motor_id mp]. unfold system_motor_step.
  apply touches_only_bind; [apply touches_only_print|]. intros _.
  apply touches_only_bind; [intros w p _; reflexivity|].
  intros [|]; cbn [negb].
  - unfold system_sweep.
    apply touches_only_for_each. intros k _.
    apply touches_only_for_each. intros f _.
    apply touches_only_for_each. intros r _.
    apply touches_only_system_case_step.
  - apply touches_only_bind; [apply touches_only_print|]. intros _.
    intros w p _. reflexivity.
Qed.

Lemma touches_only_run_modelica cfg :
  touches_only (run_modelica_simulations omc_engine cfg) (stage_two_artifact cfg).
Proof.
  intros w p Hp. unfold run_modelica_simulations.
  set (w0 := (print (Str.NL +:+ "--- Starting OpenModelica Simulation Batch ---") w).2).
  change (fs w) with (fs w0).
  destruct (fs w0 !! paths_modelica_model_template cfg) as [tf|]; [|reflexivity].
  refine (touches_only_bind _ _ _ _ _ w0 p Hp).
  - apply touches_only_for_each. intros m _. apply touches_only_motor_step_two.
  - intros [|]; [apply touches_only_print|intros w1 q _; reflexivity].
Qed.

(** X9. Stage 2 never changes a stage 1 result: the key of any motor and
    any combination holds after [run_modelica_simulations] what it held
    before, whatever the solver does and however the run ends. *)
Theorem stage_two_keeps_stage_one_results cfg motor_id combo (w : world F) :
  fs (run_modelica_simulations omc_engine cfg w).2
    !! path_join (paths_results cfg) (femm_key motor_id combo)
  = fs w !! path_join (paths_results cfg) (femm_key motor_id combo).
Proof.
  apply touches_only_run_modelica.
  intros [E|[E|[name E]]].
  - exact (ArtifactPaths.femm_path_not_package cfg motor_id combo E).
  - exact (ArtifactPaths.femm_path_not_script cfg motor_id combo E).
  - exact (ArtifactPaths.femm_path_not_model cfg motor_id combo name E).
Qed.

End StageTwoFiles.

(** ** A zero switching frequency *)

Section ZeroFrequency.

Context {F : Type} `{Arith F}.
Variable omc_engine : nat -> gmap string (file F) -> omc_outcome.

Lemma for_each_cons_Raise {A : Type} (x : A) (l : list A) (body : A -> M (F:=F) flow)
  (w w' : world F) e :
  body x w = (Raise e, w') ->
  for_each (x :: l) body w = (Raise e, w').
Proof. intros E. simpl. rewrite (bind_Raise _ _ _ _ _ E). reflexivity. Qed.

Lemma for_each_app_Next {A : Type} (l1 l2 : list A) (body : A -> M (F:=F) flow)
  (w w1 : world F) :
  for_each l1 body w = (Ok Next, w1) ->
  for_each (l1 ++ l2) body w = for_each l2 body w1.
Proof.
  revert w. induction l1 as [|x l1 IH]; intros w E.
  - simpl in E. injection E as <-. reflexivity.
  - simpl in E |- *. unfold mbind, M_bind in E |- *.
    destruct (body x w) as [[[|]|e] w0]; try discriminate E.
    apply IH. exact E.
Qed.

(** X10. A switching frequency of zero is not handled: the division of
    line 73 is before the [try], so when the solver is installed and the
    nominal torque map of the first motor is there, the run starts the
    solvers of the first controller for the frequencies before the zero one,
    prints the name of the first case of the zero frequency, and raises
    [ZeroDivisionError] out of [run_modelica_simulations]: no later case,
    controller or motor is run. *)
Theorem zero_frequency_aborts_stage_two cfg motor_id mp rest k ks pre f post r rs
  (w : world F) :
  solver_installed omc_engine ->
  is_Some (fs w !! paths_modelica_model_template cfg) ->
  motors cfg = (motor_id, mp) :: rest ->
  is_Some (fs w !! path_join (paths_results cfg) (nominal_case_name motor_id)) ->
  controllers cfg = k :: ks ->
  hil_freq_kHz cfg = pre ++ f :: post ->
  speed_rpm cfg = r :: rs ->
  Forall (fun g => fis_zero (hil_divisor (F:=F) g) = false) pre ->
  fis_zero (hil_divisor f) = true ->
  exists w',
    run_modelica_simulations omc_engine cfg w = (Raise ZeroDivisionError, w')
    /\ proc_log w'
       = proc_log w
           ++ flat_map (fun g =>
                map (fun s => run_of cfg (system_case_name motor_id k g s)) (r :: rs))
                pre
    /\ last (stdout w') = Some ("  Running case: " +:+ system_case_name motor_id k f r).
Proof.
  intros Hinst [tf Htpl] Hmotors Hnominal Hk Hfreq Hrpm Hpre Hzero.
  unfold run_modelica_simulations.
  set (w0 := (print (Str.NL +:+ "--- Starting OpenModelica Simulation Batch ---") w).2).
  change (fs w0) with (fs w). rewrite Htpl, Hmotors.
  set (tpl := file_text tf).
  set (w1 := (print (Str.NL +:+ "Processing motor: " +:+ motor_id) w0).2).
  set (tmap := Str.replace "\" "/"
                 (path_join (paths_results cfg) (nominal_case_name motor_id))).
  set (step := system_case_step omc_engine cfg tpl motor_id mp tmap).
  (* the frequencies before the zero one *)
  destruct (for_each_runs pre
              (fun g => for_each (speed_rpm cfg) (step k g))
              (fun g => map (fun s => run_of cfg (system_case_name motor_id k g s))
                          (r :: rs))
              (fun g => fis_zero (hil_divisor (F:=F) g) = false)) with (w := w1)
    as (w2 & Epre & Lpre).
  { intros g v Hg. rewrite Hrpm.
    destruct (for_each_runs (r :: rs) (step k g)
                (fun s => [run_of cfg (system_case_name motor_id k g s)])
                (fun _ => True)
                (fun s v' _ =>
                   system_case_step_installed omc_engine cfg tpl motor_id mp tmap
                     k g s v' Hinst Hg)
                (Forall_true _ _ (fun _ => I)) v) as (v' & E & L).
    exists v'. split; [exact E|]. rewrite L. f_equal. }
  { exact Hpre. }
  (* the zero one *)
  assert (Hcase : step k f r w2
                  = (Raise ZeroDivisionError,
                     World (fs w2) (femm_log w2) (proc_log w2)
                       (stdout w2 ++ ["  Running case: "
                                        +:+ system_case_name motor_id k f r]))).
  { apply system_case_step_zero. exact Hzero. }
  set (w3 := World (fs w2) (femm_log w2) (proc_log w2)
               (stdout w2 ++ ["  Running case: " +:+ system_case_name motor_id k f r]))
    in Hcase.
  assert (Hfreqs : for_each (hil_freq_kHz cfg)
                     (fun g => for_each (speed_rpm cfg) (step k g)) w1
                   = (Raise ZeroDivisionError, w3)).
  { rewrite Hfreq. rewrite (for_each_app_Next _ _ _ _ _ Epre).
    apply for_each_cons_Raise. rewrite Hrpm.
    apply for_each_cons_Raise. exact Hcase. }
  assert (Hsweep : system_sweep omc_engine cfg tpl motor_id mp tmap w1
                   = (Raise ZeroDivisionError, w3)).
  { unfold system_sweep. rewrite Hk. apply for_each_cons_Raise. exact Hfreqs. }
  assert (Hmotor : system_motor_step omc_engine cfg tpl (motor_id, mp) w0
                   = (Raise ZeroDivisionError, w3)).
  { unfold system_motor_step.
    erewrite bind_Ok by reflexivity. fold w1.
    assert (Hpe : path_exists
                    (path_join (paths_results cfg) (nominal_case_name motor_id)) w1
                  = (Ok true, w1)).
    { unfold path_exists. change (fs w1) with (fs w).
      rewrite bool_decide_eq_true_2 by exact Hnominal. reflexivity. }
    rewrite (bind_Ok _ _ _ _ _ Hpe). cbn [negb]. exact Hsweep. }
  exists w3. split.
  - erewrite bind_Raise; [reflexivity|].
    apply for_each_cons_Raise. exact Hmotor.
  - split; [exact Lpre|]. apply last_snoc.
Qed.

End ZeroFrequency.

(** ** The curves that stage 1 stores *)

Section StoredCurves.

Context {F : Type} `{Arith F}.
Variable femm_engine : list (femm_call F) -> femm_call F -> result F.

Lemma in_product3 {A B C : Type} (xs : list A) (ys : list B) (zs : list C) x y z :
  In x xs -> In y ys -> In z zs -> In (x, y, z) (product3 xs ys zs).
Proof.
  intros Hx Hy Hz. unfold product3.
  apply in_flat_map. exists x. split; [exact Hx|].
  apply in_flat_map. exists y. split; [exact Hy|].
  apply in_map. exact Hz.
Qed.

Lemma enumerate_in {A : Type} (l : list A) x :
  In x l -> exists i, In (i, x) (enumerate l).
Proof.
  unfold enumerate. generalize 0.
  induction l as [|y l IH]; intros s Hin; [destruct Hin|].
  destruct Hin as [->|Hin].
  - exists s. left. reflexivity.
  - destruct (IH (S s) Hin) as [i Hi]. exists i. right. exact Hi.
Qed.

(** One case: when [np.arange] yields [n] angles, one at least, the curve
    of the case, with its [n] rows, is put under the key of the case. *)
Lemma femm_case_step_stores cfg motor_id mp dxf total i combo n (w : world F) :
  never_raises femm_engine ->
  fis_zero (pole_pairs_of mp) = false ->
  arange_len (of_Z 0) (mechanical_span_of mp) (step_mech_of cfg mp) = Some n ->
  0 < n ->
  exists rows w',
    femm_case_step femm_engine cfg motor_id mp dxf total (i, combo) w = (Ok Next, w')
    /\ fs w' = <[path_join (paths_results cfg) (femm_key motor_id combo)
                  := FTorque rows]> (fs w)
    /\ length rows = n.
Proof.
  intros Hok Hpp Hn Hpos.
  unfold femm_case_step.
  erewrite bind_Ok by reflexivity.
  set (w0 := (print (running_case_line i total (femm_case_name combo)) w).2).
  unfold py_div. fold (pole_pairs_of mp). rewrite Hpp.
  erewrite bind_Ok by reflexivity. fold (step_mech_of cfg mp).
  destruct (femm_case_body_progress femm_engine dxf mp (case_of combo)
              (step_mech_of cfg mp) w0 n Hok Hpp Hn)
    as (rows & w1 & Hbody & Hlen & Hfs & _).
  assert (Hrun : _run_single_femm_case femm_engine dxf mp (case_of combo)
                   (step_mech_of cfg mp) w0 = (Ok rows, w1)).
  { unfold _run_single_femm_case, try_except. rewrite Hbody. reflexivity. }
  rewrite (bind_Ok _ _ _ _ _ Hrun).
  destruct rows as [|row rows]; [simpl in Hlen; lia|].
  exists (row :: rows). eexists. split; [reflexivity|].
  split; [|exact Hlen].
  cbn [fs snd]. unfold write_file, mbind, M_bind. cbn [fs snd]. rewrite Hfs.
  reflexivity.
Qed.

Lemma grows_from_refl n (w : world F) : grows_from n w w.
Proof. split; auto. Qed.

Lemma grows_from_trans n (w1 w2 w3 : world F) :
  grows_from n w1 w2 -> grows_from n w2 w3 -> grows_from n w1 w3.
Proof. intros [A1 B1] [A2 B2]. split; auto. Qed.

Lemma grows_from_insert n (w w' : world F) p rows :
  fs w' = <[p := FTorque rows]> (fs w) -> length rows = n -> grows_from n w w'.
Proof.
  intros Hfs Hlen. split; intros q Hq.
  - unfold stored_rows in *. rewrite Hfs.
    destruct (decide (q = p)) as [->|Hne].
    + rewrite lookup_insert_eq, Hlen. reflexivity.
    + rewrite lookup_insert_ne by congruence. exact Hq.
  - rewrite Hfs. destruct (decide (q = p)) as [->|Hne].
    + rewrite lookup_insert_eq. eauto.
    + rewrite lookup_insert_ne by congruence. exact Hq.
Qed.

Lemma femm_cases_store cfg motor_id mp dxf total n
  (l : list (nat * (pynum * pynum * pynum))) (w : world F) :
  never_raises femm_engine ->
  fis_zero (pole_pairs_of mp) = false ->
  arange_len (of_Z 0) (mechanical_span_of mp) (step_mech_of cfg mp) = Some n ->
  0 < n ->
  exists w',
    for_each l (femm_case_step femm_engine cfg motor_id mp dxf total) w = (Ok Next, w')
    /\ (forall i combo, In (i, combo) l ->
          stored_rows w' (path_join (paths_results cfg) (femm_key motor_id combo))
          = Some n)
    /\ grows_from n w w'.
Proof.
  intros Hok Hpp Hn Hpos. revert w.
  induction l as [|[i combo] l IH]; intros w.
  - exists w. split; [reflexivity|]. split; [intros i combo []|apply grows_from_refl].
  - destruct (femm_case_step_stores cfg motor_id mp dxf total i combo n w
                Hok Hpp Hn Hpos)
      as (rows & w1 & Hstep & Hfs & Hlen).
    destruct (IH w1) as (w' & Hloop & Hall & Hkeep).
    pose proof (grows_from_insert n w w1 _ rows Hfs Hlen) as Hgrow.
    assert (Hhead : stored_rows w1
                      (path_join (paths_results cfg) (femm_key motor_id combo))
                    = Some n).
    { unfold stored_rows. rewrite Hfs, lookup_insert_eq, Hlen. reflexivity. }
    exists w'. split; [|split].
    + rewrite (for_each_cons_Next _ _ _ _ _ Hstep). exact Hloop.
    + intros j c [E|Hin].
      * injection E as _ <-. apply Hkeep. exact Hhead.
      * exact (Hall j c Hin).
    + exact (grows_from_trans n w w1 w' Hgrow Hkeep).
Qed.

Lemma femm_motor_step_stores cfg motor_id mp n (w : world F) :
  never_raises femm_engine ->
  fis_zero (pole_pairs_of mp) = false ->
  arange_len (of_Z 0) (mechanical_span_of mp) (step_mech_of cfg mp) = Some n ->
  0 < n ->
  is_Some (fs w !! path_join (paths_cad cfg) (motor_id +:+ ".dxf")) ->
  exists w',
    femm_motor_step femm_engine cfg (motor_id, mp) w = (Ok Next, w')
    /\ (forall combo,
          In combo (product3 (static_ecc_mm cfg) (dynamic_ecc_mm cfg) (tilt_deg cfg)) ->
          stored_rows w' (path_join (paths_results cfg) (femm_key motor_id combo))
          = Some n)
    /\ grows_from n w w'.
Proof.
  intros Hok Hpp Hn Hpos Hdxf.
  set (combos := product3 (static_ecc_mm cfg) (dynamic_ecc_mm cfg) (tilt_deg cfg)).
  set (w0 := (print (Str.NL +:+ "Processing motor: " +:+ motor_id) w).2).
  destruct (femm_cases_store cfg motor_id mp
              (path_join (paths_cad cfg) (motor_id +:+ ".dxf"))
              (length combos) n (enumerate combos) w0 Hok Hpp Hn Hpos)
    as (w' & Hloop & Hall & Hgrow).
  exists w'. split; [|split].
  - unfold femm_motor_step.
    erewrite bind_Ok by reflexivity. fold w0.
    assert (Hpe : path_exists (path_join (paths_cad cfg) (motor_id +:+ ".dxf")) w0
                  = (Ok true, w0)).
    { unfold path_exists. change (fs w0) with (fs w).
      rewrite bool_decide_eq_true_2 by exact Hdxf. reflexivity. }
    rewrite (bind_Ok _ _ _ _ _ Hpe). cbn [negb]. exact Hloop.
  - intros combo Hin.
    destruct (enumerate_in combos combo Hin) as [i Hi]. exact (Hall i combo Hi).
  - exact Hgrow.
Qed.

(** X11. In the arithmetic of the code (and in any other), with a session
    that never raises, a motor whose geometry file is there and whose
    pole-pair count is not zero, and a sweep for which [np.arange] yields
    [n] angles, one at least: the motor step ends normally and every
    combination of the product has a torque curve of the same [n] rows under
    its key. When the three value lists contain the float zero, the file
    that stage 2 looks up as the nominal torque map of the motor is among
    them. *)
Theorem every_combination_is_stored cfg motor_id mp n (w : world F) :
  never_raises femm_engine ->
  fis_zero (pole_pairs_of mp) = false ->
  arange_len (of_Z 0) (mechanical_span_of mp) (step_mech_of cfg mp) = Some n ->
  0 < n ->
  is_Some (fs w !! path_join (paths_cad cfg) (motor_id +:+ ".dxf")) ->
  exists w',
    femm_motor_step femm_engine cfg (motor_id, mp) w = (Ok Next, w')
    /\ (forall combo,
          In combo (product3 (static_ecc_mm cfg) (dynamic_ecc_mm cfg) (tilt_deg cfg)) ->
          stored_rows w' (path_join (paths_results cfg) (femm_key motor_id combo))
          = Some n)
    /\ (In zero_float (static_ecc_mm cfg) ->
        In zero_float (dynamic_ecc_mm cfg) ->
        In zero_float (tilt_deg cfg) ->
        is_Some (fs w' !! path_join (paths_results cfg) (nominal_case_name motor_id))).
Proof.
  intros Hok Hpp Hn Hpos Hdxf.
  destruct (femm_motor_step_stores cfg motor_id mp n w Hok Hpp Hn Hpos Hdxf)
    as (w' & Hstep & Hstored & _).
  exists w'. split; [exact Hstep|]. split; [exact Hstored|].
  intros Hs Hd Ht.
  pose proof (Hstored _ (in_product3 _ _ _ _ _ _ Hs Hd Ht)) as Hz.
  change (femm_key motor_id (zero_float, zero_float, zero_float))
    with (nominal_case_name motor_id) in Hz.
  unfold stored_rows in Hz.
  destruct (fs w' !! path_join (paths_results cfg) (nominal_case_name motor_id))
    as [x|]; [eauto|discriminate Hz].
Qed.

(** The motor loop of stage 1: every motor stores its curves, and nothing
    that was there is lost. *)
Lemma femm_motors_store cfg (l : list (string * motor)) (w : world F) :
  never_raises femm_engine ->
  Forall (fun m => can_be_swept cfg m.2
                   /\ is_Some (fs w !! path_join (paths_cad cfg) (m.1 +:+ ".dxf"))) l ->
  exists w',
    for_each l (femm_motor_step femm_engine cfg) w = (Ok Next, w')
    /\ (forall m combo, In m l ->
          In combo (product3 (static_ecc_mm cfg) (dynamic_ecc_mm cfg) (tilt_deg cfg)) ->
          is_Some (fs w' !! path_join (paths_results cfg) (femm_key m.1 combo)))
    /\ (forall p, is_Some (fs w !! p) -> is_Some (fs w' !! p)).
Proof.
  intros Hok. revert w.
  induction l as [|[motor_id mp] l IH]; intros w Hl.
  - exists w. split; [reflexivity|]. split; [intros m combo []|auto].
  - apply Forall_cons_1 in Hl as [[(Hpp & n & Hn & Hpos) Hdxf] Hl].
    cbn [fst snd] in Hpp, Hn, Hdxf.
    destruct (femm_motor_step_stores cfg motor_id mp n w Hok Hpp Hn Hpos Hdxf)
      as (w1 & Hstep & Hstored & Hgrow).
    assert (Hl1 : Forall (fun m => can_be_swept cfg m.2
                    /\ is_Some (fs w1 !! path_join (paths_cad cfg) (m.1 +:+ ".dxf"))) l).
    { eapply List.Forall_impl; [|exact Hl]. intros m [Hm1 Hm2].
      split; [exact Hm1|]. apply Hgrow. exact Hm2. }
    destruct (IH w1 Hl1) as (w' & Hloop & Hall & Hkeep).
    exists w'. split; [|split].
    + rewrite (for_each_cons_Next _ _ _ _ _ Hstep). exact Hloop.
    + intros m combo [<-|Hin] Hc.
      * apply Hkeep. cbn [fst].
        pose proof (Hstored combo Hc) as Hz. unfold stored_rows in Hz.
        destruct (fs w1 !! path_join (paths_results cfg) (femm_key motor_id combo))
          as [x|]; [eauto|discriminate Hz].
      * exact (Hall m combo Hin Hc).
    + intros p Hp. apply Hkeep. apply Hgrow. exact Hp.
Qed.

End StoredCurves.

(** ** The sample count in binary64 *)

(** C4. The count that the claim gives, ceil(360/E) whatever the pole
    count, is not the count of the code: in binary64, with an electrical
    step of 1 degree and a session that never raises, every case of a
    14-pole motor stores a curve of 361 rows and every case of an 8-pole
    motor one of 360 rows, where ceil(360/1) is 360. The span 360/7 and the
    step 1/7 are rounded separately, and their rounded quotient is the float
    just above 360. *)
Theorem sample_count_depends_on_pole_count
  (femm_engine : list (femm_call float) -> femm_call float -> result float)
  cfg motor_id dxf total i combo (w : world float) :
  never_raises femm_engine ->
  sweep_step_elec_deg cfg = PyInt 1 ->
  (exists w',
     femm_case_step femm_engine cfg motor_id {| poles := 14 |} dxf total (i, combo) w
     = (Ok Next, w')
     /\ stored_rows w' (path_join (paths_results cfg) (femm_key motor_id combo))
        = Some 361)
  /\ (exists w',
        femm_case_step femm_engine cfg motor_id {| poles := 8 |} dxf total (i, combo) w
        = (Ok Next, w')
        /\ stored_rows w' (path_join (paths_results cfg) (femm_key motor_id combo))
           = Some 360)
  /\ Z.to_nat (Qceiling (360 / py_val (sweep_step_elec_deg cfg))) = 360.
Proof.
  intros Hok Hstep.
  assert (Hcount : forall p n,
    fis_zero (pole_pairs_of (F:=float) {| poles := p |}) = false ->
    arange_len (F:=float) (of_Z 0) (mechanical_span_of {| poles := p |})
      (fdiv (of_num (PyInt 1)) (pole_pairs_of {| poles := p |})) = Some n ->
    0 < n ->
    exists w',
      femm_case_step femm_engine cfg motor_id {| poles := p |} dxf total (i, combo) w
      = (Ok Next, w')
      /\ stored_rows w' (path_join (paths_results cfg) (femm_key motor_id combo))
         = Some n).
  { intros p n Hpp Hn Hpos.
    assert (Hn' : arange_len (F:=float) (of_Z 0) (mechanical_span_of {| poles := p |})
                    (step_mech_of cfg {| poles := p |}) = Some n).
    { unfold step_mech_of. rewrite Hstep. exact Hn. }
    destruct (femm_case_step_stores femm_engine cfg motor_id {| poles := p |} dxf
                total i combo n w Hok Hpp Hn' Hpos)
      as (rows & w' & Hrun & Hfs & Hlen).
    exists w'. split; [exact Hrun|].
    unfold stored_rows. rewrite Hfs, lookup_insert_eq, Hlen. reflexivity. }
  split; [|split].
  - apply Hcount; [vm_compute; reflexivity|vm_compute; reflexivity|lia].
  - apply Hcount; [vm_compute; reflexivity|vm_compute; reflexivity|lia].
  - rewrite Hstep. vm_compute. reflexivity.
Qed.

(** ** Runs that end normally *)

Section Completion.

Context {F : Type} `{Arith F}.

Lemma for_each_no_raise {A : Type} (l : list A) (body : A -> M (F:=F) flow) :
  (forall x w, In x l -> exists r w', body x w = (Ok r, w')) ->
  forall w, exists r w', for_each l body w = (Ok r, w').
Proof.
  induction l as [|x l IH]; intros Hbody w.
  - exists Next, w. reflexivity.
  - destruct (Hbody x w (or_introl eq_refl)) as (r & w1 & E).
    simpl. rewrite (bind_Ok _ _ _ _ _ E). destruct r.
    + apply IH. intros y v Hy. apply Hbody. right. exact Hy.
    + exists Return, w1. reflexivity.
Qed.

Section StageOneCompletion.

Variable femm_engine : list (femm_call F) -> femm_call F -> result F.

Lemma run_single_no_raise dxf mp case step (w : world F) :
  (forall history, exists v, femm_engine history closefemm = Ok v) ->
  exists rows w', _run_single_femm_case femm_engine dxf mp case step w = (Ok rows, w').
Proof.
  intros Hclose. unfold _run_single_femm_case, try_except.
  destruct (femm_case_body femm_engine dxf mp case step w) as [[rows|e] w1].
  - exists rows, w1. reflexivity.
  - erewrite bind_Ok by reflexivity.
    set (w2 := (print ("An error occurred during FEMM simulation: " +:+ exn_str e) w1).2).
    destruct (Hclose (femm_log w2)) as [v Hv].
    assert (Hc : femm femm_engine closefemm w2 = (Ok v, log_calls w2 [closefemm])).
    { unfold femm. rewrite Hv. reflexivity. }
    rewrite (bind_Ok _ _ _ _ _ Hc). eexists. eexists. reflexivity.
Qed.

Lemma femm_case_step_no_raise cfg motor_id mp dxf total ic (w : world F) :
  (forall history, exists v, femm_engine history closefemm = Ok v) ->
  fis_zero (pole_pairs_of mp) = false ->
  exists r w', femm_case_step femm_engine cfg motor_id mp dxf total ic w = (Ok r, w').
Proof.
  intros Hclose Hpp. destruct ic as [i combo]. unfold femm_case_step.
  erewrite bind_Ok by reflexivity.
  unfold py_div. fold (pole_pairs_of mp). rewrite Hpp.
  erewrite bind_Ok by reflexivity.
  match goal with |- context [(_run_single_femm_case ?e ?d ?m ?c ?s ≫= _) ?w0] =>
    destruct (run_single_no_raise d m c s w0 Hclose) as (rows & w1 & Hrun)
  end.
  rewrite (bind_Ok _ _ _ _ _ Hrun).
  destruct rows; eexists; eexists; reflexivity.
Qed.

(** X12. Stage 1 runs to its end whatever fails in the sessions: when
    [closefemm] never raises and no motor has a pole count of zero,
    [run_femm_simulations] returns normally, whatever the other calls to the
    session answer or raise and whatever the sweep step is (a zero step
    makes [np.arange] raise inside the [try]), and the last line it prints
    is the one that reports the batch complete. Writing a result file is
    taken to succeed. *)
Theorem stage_one_always_completes cfg (w : world F) :
  (forall history, exists v, femm_engine history closefemm = Ok v) ->
  Forall (fun m => fis_zero (pole_pairs_of (F:=F) m.2) = false) (motors cfg) ->
  exists w',
    run_femm_simulations femm_engine cfg w = (Ok tt, w')
    /\ last (stdout w') = Some (Str.NL +:+ "--- FEMM Simulation Batch Complete ---").
Proof.
  intros Hclose Hpoles. unfold run_femm_simulations.
  erewrite bind_Ok by reflexivity.
  set (w0 := (print "--- Starting FEMM Simulation Batch ---" w).2).
  destruct (for_each_no_raise (motors cfg) (femm_motor_step femm_engine cfg))
    with (w := w0) as (r & w1 & Hloop).
  { intros [motor_id mp] v Hin.
    pose proof (proj1 (List.Forall_forall _ _) Hpoles _ Hin) as Hpp. simpl in Hpp.
    unfold femm_motor_step.
    erewrite bind_Ok by reflexivity.
    unfold path_exists at 1. erewrite bind_Ok by reflexivity.
    destruct (negb _).
    - erewrite bind_Ok by reflexivity. eexists. eexists. reflexivity.
    - apply for_each_no_raise. intros ic v' _.
      apply femm_case_step_no_raise; assumption. }
  rewrite (bind_Ok _ _ _ _ _ Hloop).
  eexists. split; [reflexivity|]. apply last_snoc.
Qed.

End StageOneCompletion.

Section UncaughtSolverError.

Variable omc_engine : nat -> gmap string (file F) -> omc_outcome.

(** X13. The handlers of lines 119 to 124 catch [FileNotFoundError] and
    [CalledProcessError] only. When the first start of the solver raises
    another exception of [subprocess.run] ([PermissionError] for a file that
    cannot be executed, [UnicodeDecodeError] for captured output that does
    not decode, or any other), with the template and the nominal torque map of the first
    motor there and a first switching frequency that is not zero: the
    [finally] block still removes the temporary model and the script, and
    the exception leaves [run_modelica_simulations] after that one start;
    nothing is printed after the name of the case, and no later case,
    controller or motor is run. *)
Theorem uncaught_solver_error_leaves_the_run cfg motor_id mp rest k ks f freqs r rs
  e (w : world F) :
  is_caught e = false ->
  (forall files, omc_engine (length (proc_log w)) files = OmcRaises e) ->
  is_Some (fs w !! paths_modelica_model_template cfg) ->
  motors cfg = (motor_id, mp) :: rest ->
  is_Some (fs w !! path_join (paths_results cfg) (nominal_case_name motor_id)) ->
  controllers cfg = k :: ks ->
  hil_freq_kHz cfg = f :: freqs ->
  speed_rpm cfg = r :: rs ->
  fis_zero (hil_divisor f) = false ->
  exists w',
    run_modelica_simulations omc_engine cfg w = (Raise e, w')
    /\ proc_log w' = proc_log w ++ [run_of cfg (system_case_name motor_id k f r)]
    /\ fs w' !! temp_model_path_of cfg (system_case_name motor_id k f r) = None
    /\ fs w' !! temp_script_path_of cfg = None
    /\ last (stdout w')
       = Some ("  Running case: " +:+ system_case_name motor_id k f r).
Proof.
  intros Hoe Hengine [tf Htpl] Hmotors Hnominal Hk Hfreq Hrpm Hf.
  unfold run_modelica_simulations.
  set (w0 := (print (Str.NL +:+ "--- Starting OpenModelica Simulation Batch ---") w).2).
  change (fs w0) with (fs w). rewrite Htpl, Hmotors.
  set (tpl := file_text tf).
  set (w1 := (print (Str.NL +:+ "Processing motor: " +:+ motor_id) w0).2).
  set (tmap := Str.replace "\" "/"
                 (path_join (paths_results cfg) (nominal_case_name motor_id))).
  set (step := system_case_step omc_engine cfg tpl motor_id mp tmap).
  set (name := system_case_name motor_id k f r).
  set (w2 := World (cleaned cfg name (files_at_run cfg tpl mp tmap k f r name (fs w1)))
               (femm_log w1) (proc_log w1 ++ [run_of cfg name])
               (stdout w1 ++ ["  Running case: " +:+ name])).
  assert (Hcase : step k f r w1 = (Raise e, w2)).
  { unfold step.
    rewrite (system_case_step_run omc_engine cfg tpl motor_id mp tmap k f r w1 Hf).
    cbv zeta. change (proc_log w1) with (proc_log w). rewrite Hengine.
    unfold w2. destruct e; try discriminate Hoe;
      cbn [step_ending step_prints]; rewrite app_nil_r; reflexivity. }
  assert (Hsweep : system_sweep omc_engine cfg tpl motor_id mp tmap w1
                   = (Raise e, w2)).
  { unfold system_sweep. rewrite Hk, Hfreq, Hrpm.
    apply for_each_cons_Raise. apply for_each_cons_Raise.
    apply for_each_cons_Raise. exact Hcase. }
  assert (Hmotor : system_motor_step omc_engine cfg tpl (motor_id, mp) w0
                   = (Raise e, w2)).
  { unfold system_motor_step.
    erewrite bind_Ok by reflexivity. fold w1.
    assert (Hpe : path_exists
                    (path_join (paths_results cfg) (nominal_case_name motor_id)) w1
                  = (Ok true, w1)).
    { unfold path_exists. change (fs w1) with (fs w).
      rewrite bool_decide_eq_true_2 by exact Hnominal. reflexivity. }
    rewrite (bind_Ok _ _ _ _ _ Hpe). cbn [negb]. exact Hsweep. }
  exists w2. split.
  - erewrite bind_Raise; [reflexivity|].
    apply for_each_cons_Raise. exact Hmotor.
  - split; [reflexivity|]. cbn [fs stdout].
    split; [apply cleaned_model|]. split; [apply cleaned_script|apply last_snoc].
Qed.

End UncaughtSolverError.

End Completion.

(** ** The two stages, one after the other *)

Section Pipeline.

Context {F : Type} `{Arith F}.
Variable femm_engine : list (femm_call F) -> femm_call F -> result F.
Variable omc_engine : nat -> gmap string (file F) -> omc_outcome.

Lemma system_motor_step_runs cfg tpl motor_id mp (w : world F) :
  is_Some (fs w !! path_join (paths_results cfg) (nominal_case_name motor_id)) ->
  solver_installed omc_engine ->
  Forall (fun f => fis_zero (hil_divisor (F:=F) f) = false) (hil_freq_kHz cfg) ->
  exists w',
    system_motor_step omc_engine cfg tpl (motor_id, mp) w = (Ok Next, w')
    /\ proc_log w'
       = proc_log w
           ++ map (fun c => run_of cfg (system_case_name motor_id c.1.1 c.1.2 c.2))
                (product3 (controllers cfg) (hil_freq_kHz cfg) (speed_rpm cfg)).
Proof.
  intros Hpresent Hinst Hfreq. unfold system_motor_step.
  erewrite bind_Ok by reflexivity.
  set (w0 := (print (Str.NL +:+ "Processing motor: " +:+ motor_id) w).2).
  assert (Hpe : path_exists
                  (path_join (paths_results cfg) (nominal_case_name motor_id)) w0
                = (Ok true, w0)).
  { unfold path_exists. change (fs w0) with (fs w).
    rewrite bool_decide_eq_true_2 by exact Hpresent. reflexivity. }
  rewrite (bind_Ok _ _ _ _ _ Hpe). cbn [negb].
  apply (system_sweep_runs omc_engine cfg tpl motor_id mp _ w0 Hinst Hfreq).
Qed.

Lemma nominal_is_a_stage_one_key motor_id :
  nominal_case_name motor_id = femm_key motor_id (zero_float, zero_float, zero_float).
Proof. reflexivity. Qed.

Lemma stage_two_motor_keeps_keys cfg tpl m motor_id combo (w : world F) :
  fs (system_motor_step omc_engine cfg tpl m w).2
    !! path_join (paths_results cfg) (femm_key motor_id combo)
  = fs w !! path_join (paths_results cfg) (femm_key motor_id combo).
Proof.
  apply (touches_only_motor_step_two omc_engine).
  intros [E|[E|[name E]]].
  - exact (ArtifactPaths.femm_path_not_package cfg motor_id combo E).
  - exact (ArtifactPaths.femm_path_not_script cfg motor_id combo E).
  - exact (ArtifactPaths.femm_path_not_model cfg motor_id combo name E).
Qed.

(** The motor loop of stage 2 when every nominal torque map is there. *)
Lemma system_motors_run cfg tpl (l : list (string * motor)) (w : world F) :
  solver_installed omc_engine ->
  Forall (fun f => fis_zero (hil_divisor (F:=F) f) = false) (hil_freq_kHz cfg) ->
  Forall (fun m => is_Some (fs w !! path_join (paths_results cfg)
                                      (nominal_case_name m.1))) l ->
  exists w',
    for_each l (system_motor_step omc_engine cfg tpl) w = (Ok Next, w')
    /\ proc_log w'
       = proc_log w
           ++ flat_map (fun m =>
                map (fun c => run_of cfg (system_case_name m.1 c.1.1 c.1.2 c.2))
                  (product3 (controllers cfg) (hil_freq_kHz cfg) (speed_rpm cfg))) l.
Proof.
  intros Hinst Hfreq. revert w.
  induction l as [|[motor_id mp] l IH]; intros w Hl.
  - exists w. split; [reflexivity|]. simpl. rewrite app_nil_r. reflexivity.
  - apply Forall_cons_1 in Hl as [Hhead Hl]. simpl in Hhead.
    destruct (system_motor_step_runs cfg tpl motor_id mp w Hhead Hinst Hfreq)
      as (w1 & Hstep & Hlog).
    assert (Hl1 : Forall (fun m => is_Some (fs w1 !! path_join (paths_results cfg)
                                                       (nominal_case_name m.1))) l).
    { eapply List.Forall_impl; [|exact Hl]. intros m Hm. simpl in Hm |- *.
      rewrite nominal_is_a_stage_one_key in Hm |- *.
      pose proof (stage_two_motor_keeps_keys cfg tpl (motor_id, mp) m.1
                    (zero_float, zero_float, zero_float) w) as Hkeep.
      rewrite Hstep in Hkeep. simpl in Hkeep. rewrite Hkeep. exact Hm. }
    destruct (IH w1 Hl1) as (w' & Hloop & Hlog').
    exists w'. split.
    + rewrite (for_each_cons_Next _ _ _ _ _ Hstep). exact Hloop.
    + rewrite Hlog', Hlog. simpl. rewrite app_assoc. reflexivity.
Qed.

(** X14. Stage 2 run on what stage 1 leaves, as [main] runs them. In the
    arithmetic of the code (and in any other), with a session that never
    raises, a solver that runs to an exit status at every start, the
    template and every geometry file there, every motor with a pole-pair
    count that is not zero and a sweep of one angle at least, the float
    zero in each of the three value lists and no zero switching frequency:
    both stages return normally, and stage 2 finds the nominal torque map of
    every motor and starts exactly one solver per motor and (controller,
    frequency, speed) combination, the motors in the order of the
    configuration and the cases of a motor in the order of the product. *)
Theorem stage_two_runs_every_case_after_stage_one cfg (w : world F) :
  never_raises femm_engine ->
  solver_installed omc_engine ->
  Forall (fun m => can_be_swept cfg m.2
                   /\ is_Some (fs w !! path_join (paths_cad cfg) (m.1 +:+ ".dxf")))
    (motors cfg) ->
  In zero_float (static_ecc_mm cfg) ->
  In zero_float (dynamic_ecc_mm cfg) ->
  In zero_float (tilt_deg cfg) ->
  is_Some (fs w !! paths_modelica_model_template cfg) ->
  Forall (fun f => fis_zero (hil_divisor (F:=F) f) = false) (hil_freq_kHz cfg) ->
  exists w1 w2,
    run_femm_simulations femm_engine cfg w = (Ok tt, w1)
    /\ run_modelica_simulations omc_engine cfg w1 = (Ok tt, w2)
    /\ proc_log w2
       = proc_log w1
           ++ flat_map (fun m =>
                map (fun c => run_of cfg (system_case_name m.1 c.1.1 c.1.2 c.2))
                  (product3 (controllers cfg) (hil_freq_kHz cfg) (speed_rpm cfg)))
                (motors cfg).
Proof.
  intros Hok Hinst Hmotors Hs Hd Ht Htpl Hfreq.
  (* stage 1 *)
  set (wa := (print "--- Starting FEMM Simulation Batch ---" w).2).
  destruct (femm_motors_store femm_engine cfg (motors cfg) wa Hok Hmotors)
    as (wb & Hloop1 & Hstored & Hgrow).
  set (w1 := (print (Str.NL +:+ "--- FEMM Simulation Batch Complete ---") wb).2).
  assert (Hrun1 : run_femm_simulations femm_engine cfg w = (Ok tt, w1)).
  { unfold run_femm_simulations.
    erewrite bind_Ok by reflexivity. fold wa.
    rewrite (bind_Ok _ _ _ _ _ Hloop1). reflexivity. }
  assert (Hnominal : Forall (fun m => is_Some (fs w1 !! path_join (paths_results cfg)
                                                         (nominal_case_name m.1)))
                       (motors cfg)).
  { apply List.Forall_forall. intros m Hm.
    exact (Hstored m _ Hm (in_product3 _ _ _ _ _ _ Hs Hd Ht)). }
  assert (Htpl1 : is_Some (fs w1 !! paths_modelica_model_template cfg)).
  { change (fs w1) with (fs wb). apply Hgrow. exact Htpl. }
  (* stage 2 *)
  destruct Htpl1 as [tf Htf].
  set (wc := (print (Str.NL +:+ "--- Starting OpenModelica Simulation Batch ---") w1).2).
  destruct (system_motors_run cfg (file_text tf) (motors cfg) wc Hinst Hfreq
              Hnominal) as (wd & Hloop2 & Hlog).
  exists w1. eexists. split; [exact Hrun1|]. split.
  - unfold run_modelica_simulations. fold wc.
    change (fs wc) with (fs w1). rewrite Htf.
    rewrite (bind_Ok _ _ _ _ _ Hloop2). reflexivity.
  - cbn [proc_log print snd]. exact Hlog.
Qed.

End Pipeline.

(** ** Worked inputs of the further properties *)

Lemma motor0_pole_pairs : fis_zero (pole_pairs_of (F:=Q) Examples.motor0) = true.
Proof. vm_compute. reflexivity. Defined.

Lemma negative_step_is_empty :
  arange_len (F:=Q) (of_Z 0) (mechanical_span_of Examples.motor8)
    (step_mech_of (Examples.cfg zero_float (PyInt (-90))) Examples.motor8) = Some 0.
Proof. vm_compute. reflexivity. Defined.

Lemma geometry_of_M1 :
  is_Some (fs (Examples.w_start (F:=Q))
             !! path_join (paths_cad Examples.cfg90) ("M1" +:+ ".dxf")).
Proof. vm_compute. eexists. reflexivity. Defined.

Lemma nominal_of_M1 :
  is_Some (fs Examples.w_stage1
             !! path_join (paths_results Examples.cfg_zero_freq)
                  (nominal_case_name "M1")).
Proof. vm_compute. eexists. reflexivity. Defined.

Lemma template_present :
  is_Some (fs Examples.w_stage1
             !! paths_modelica_model_template Examples.cfg_zero_freq).
Proof. vm_compute. eexists. reflexivity. Defined.

Lemma zero_kHz_is_zero : fis_zero (hil_divisor (F:=Q) (PyInt 0)) = true.
Proof. vm_compute. reflexivity. Defined.

Lemma no_solve_closes :
  forall history : list (femm_call Q),
    exists v, Examples.femm_no_solve history closefemm = Ok v.
Proof. intros history. eexists. reflexivity. Defined.

Lemma cfg90_pole_pairs :
  Forall (fun m => fis_zero (pole_pairs_of (F:=Q) m.2) = false)
    (motors Examples.cfg90).
Proof. repeat constructor; vm_compute; reflexivity. Defined.

Lemma geometry_is_no_result_key :
  forall motor_id (mp : motor) combo,
    In (motor_id, mp) (motors Examples.cfg90) ->
    In combo (product3 (static_ecc_mm Examples.cfg90) (dynamic_ecc_mm Examples.cfg90)
                (tilt_deg Examples.cfg90)) ->
    "cad/M1.dxf" <> path_join (paths_results Examples.cfg90) (femm_key motor_id combo).
Proof.
  intros motor_id mp combo _ _ E.
  pose proof (ArtifactPaths.femm_path_last Examples.cfg90 motor_id combo) as L.
  rewrite <- E in L. discriminate L.
Defined.

Lemma empty_sweep_stores_nothing_witness :
  never_raises (Examples.femm_ok (F:=Q))
  /\ fis_zero (pole_pairs_of (F:=Q) Examples.motor8) = false
  /\ arange_len (F:=Q) (of_Z 0) (mechanical_span_of Examples.motor8)
       (step_mech_of (Examples.cfg zero_float (PyInt (-90))) Examples.motor8) = Some 0
  /\ exists w',
       femm_case_step (F:=Q) Examples.femm_ok (Examples.cfg zero_float (PyInt (-90)))
         "M1" Examples.motor8 "cad/M1.dxf" 4 (0, Examples.zeros) Examples.w_start
       = (Ok Next, w')
       /\ fs w' = fs (Examples.w_start (F:=Q))
       /\ length (femm_log w') = 5.
Proof.
  split; [exact femm_ok_never_raises|].
  split; [exact motor8_pole_pairs|].
  split; [exact negative_step_is_empty|].
  destruct (empty_sweep_stores_nothing (F:=Q) Examples.femm_ok
              (Examples.cfg zero_float (PyInt (-90))) "M1" Examples.motor8
              "cad/M1.dxf" 4 0 Examples.zeros Examples.w_start
              femm_ok_never_raises motor8_pole_pairs negative_step_is_empty)
    as (w' & Hstep & Hfs & Hlog & _).
  exists w'. split; [exact Hstep|]. split; [exact Hfs|].
  rewrite Hlog. reflexivity.
Defined.

Lemma zero_poles_abort_the_batch_witness :
  fis_zero (pole_pairs_of (F:=Q) Examples.motor0) = true
  /\ is_Some (fs (Examples.w_start (F:=Q))
                !! path_join (paths_cad Examples.cfg90) ("M1" +:+ ".dxf"))
  /\ product3 (static_ecc_mm Examples.cfg90) (dynamic_ecc_mm Examples.cfg90)
       (tilt_deg Examples.cfg90) <> []
  /\ exists w',
       for_each [("M1", Examples.motor0); ("M2", Examples.motor14)]
         (femm_motor_step (F:=Q) Examples.femm_ok Examples.cfg90) Examples.w_start
       = (Raise ZeroDivisionError, w')
       /\ femm_log w' = [].
Proof.
  assert (Hc : product3 (static_ecc_mm Examples.cfg90) (dynamic_ecc_mm Examples.cfg90)
                 (tilt_deg Examples.cfg90) <> []) by discriminate.
  split; [exact motor0_pole_pairs|].
  split; [exact geometry_of_M1|].
  split; [exact Hc|].
  destruct (zero_poles_abort_the_batch (F:=Q) Examples.femm_ok Examples.cfg90 "M1"
              Examples.motor0 [("M2", Examples.motor14)] Examples.w_start
              motor0_pole_pairs geometry_of_M1 Hc)
    as (w' & _ & _ & Hlog & Hloop).
  exists w'. split; [exact Hloop|exact Hlog].
Defined.

Lemma stage_one_writes_only_result_keys_witness :
  (forall motor_id (mp : motor) combo,
     In (motor_id, mp) (motors Examples.cfg90) ->
     In combo (product3 (static_ecc_mm Examples.cfg90) (dynamic_ecc_mm Examples.cfg90)
                 (tilt_deg Examples.cfg90)) ->
     "cad/M1.dxf" <> path_join (paths_results Examples.cfg90) (femm_key motor_id combo))
  /\ fs (run_femm_simulations (F:=Q) Examples.femm_ok Examples.cfg90 Examples.w_start).2
       !! "cad/M1.dxf"
     = Some (FText "SECTION").
Proof.
  split; [exact geometry_is_no_result_key|].
  rewrite (stage_one_writes_only_result_keys (F:=Q) Examples.femm_ok Examples.cfg90
             "cad/M1.dxf" Examples.w_start geometry_is_no_result_key).
  reflexivity.
Defined.

Lemma temporary_files_are_removed_witness :
  fis_zero (hil_divisor (F:=Q) (PyInt 10)) = false
  /\ fs (system_case_step (F:=Q) Examples.omc_failing Examples.cfg90
           "model BLDC_System end BLDC_System;" "M1" Examples.motor8
           "results/M1_static_0p0_dyn_0p0_tilt_0p0.csv" "FOC" (PyInt 10) (PyInt 1000)
           Examples.w_stage1).2
       !! "results/run_sim.mos" = None.
Proof.
  split; [exact ten_kHz_not_zero|].
  exact (proj2 (temporary_files_are_removed (F:=Q) Examples.omc_failing Examples.cfg90
                  "model BLDC_System end BLDC_System;" "M1" Examples.motor8
                  "results/M1_static_0p0_dyn_0p0_tilt_0p0.csv" "FOC" (PyInt 10)
                  (PyInt 1000) Examples.w_stage1 ten_kHz_not_zero)).
Defined.

Lemma package_file_is_created_once_witness :
  fis_zero (hil_divisor (F:=Q) (PyInt 10)) = false
  /\ fs (system_case_step (F:=Q) Examples.omc_missing Examples.cfg90
           "model BLDC_System end BLDC_System;" "M1" Examples.motor8
           "results/M1_static_0p0_dyn_0p0_tilt_0p0.csv" "FOC" (PyInt 10) (PyInt 1000)
           Examples.w_stage1).2
       !! "package.mo"
     = Some (FText "within; package EccentricityStudy end EccentricityStudy;").
Proof.
  split; [exact ten_kHz_not_zero|].
  rewrite (package_file_is_created_once (F:=Q) Examples.omc_missing Examples.cfg90
             "model BLDC_System end BLDC_System;" "M1" Examples.motor8
             "results/M1_static_0p0_dyn_0p0_tilt_0p0.csv" "FOC" (PyInt 10)
             (PyInt 1000) Examples.w_stage1 ten_kHz_not_zero).
  reflexivity.
Defined.

Lemma zero_frequency_aborts_stage_two_witness :
  solver_installed (Examples.omc_ok (F:=Q))
  /\ is_Some (fs Examples.w_stage1
                !! paths_modelica_model_template Examples.cfg_zero_freq)
  /\ is_Some (fs Examples.w_stage1
                !! path_join (paths_results Examples.cfg_zero_freq)
                     (nominal_case_name "M1"))
  /\ Forall (fun g => fis_zero (hil_divisor (F:=Q) g) = false) [PyInt 10]
  /\ fis_zero (hil_divisor (F:=Q) (PyInt 0)) = true
  /\ exists w',
       run_modelica_simulations (F:=Q) Examples.omc_ok Examples.cfg_zero_freq
         Examples.w_stage1 = (Raise ZeroDivisionError, w')
       /\ length (proc_log w') = 1
       /\ last (stdout w') = Some "  Running case: M1_FOC_0kHz_1000rpm".
Proof.
  assert (Hpre : Forall (fun g => fis_zero (hil_divisor (F:=Q) g) = false) [PyInt 10]).
  { repeat constructor. }
  split; [exact omc_ok_installed|].
  split; [exact template_present|].
  split; [exact nominal_of_M1|].
  split; [exact Hpre|].
  split; [exact zero_kHz_is_zero|].
  destruct (zero_frequency_aborts_stage_two (F:=Q) Examples.omc_ok
              Examples.cfg_zero_freq "M1" Examples.motor8 [("M2", Examples.motor14)]
              "FOC" ["SixStep"] [PyInt 10] (PyInt 0) [] (PyInt 1000) []
              Examples.w_stage1 omc_ok_installed template_present eq_refl
              nominal_of_M1 eq_refl eq_refl eq_refl Hpre zero_kHz_is_zero)
    as (w' & Hrun & Hlog & Hout).
  exists w'. split; [exact Hrun|]. split; [rewrite Hlog; reflexivity|exact Hout].
Defined.

Lemma fourteen_poles_not_zero :
  fis_zero (pole_pairs_of (F:=float) Examples.motor14) = false.
Proof. vm_compute. reflexivity. Defined.

Lemma eight_poles_not_zero :
  fis_zero (pole_pairs_of (F:=float) Examples.motor8) = false.
Proof. vm_compute. reflexivity. Defined.

Lemma fourteen_poles_one_degree :
  arange_len (F:=float) (of_Z 0) (mechanical_span_of Examples.motor14)
    (step_mech_of Examples.cfg1 Examples.motor14) = Some 361.
Proof. vm_compute. reflexivity. Defined.

Lemma geometry_of_M1_binary64 :
  is_Some (fs (Examples.w_start (F:=float))
             !! path_join (paths_cad Examples.cfg1) ("M1" +:+ ".dxf")).
Proof. vm_compute. eexists. reflexivity. Defined.

(** [every_combination_is_stored] in binary64 for a 14-pole motor and a step
    of 1 degree: 361 rows for every combination. *)
Lemma every_combination_is_stored_witness :
  never_raises (Examples.femm_ok (F:=float))
  /\ fis_zero (pole_pairs_of (F:=float) Examples.motor14) = false
  /\ arange_len (F:=float) (of_Z 0) (mechanical_span_of Examples.motor14)
       (step_mech_of Examples.cfg1 Examples.motor14) = Some 361
  /\ 0 < 361
  /\ is_Some (fs (Examples.w_start (F:=float))
                !! path_join (paths_cad Examples.cfg1) ("M1" +:+ ".dxf"))
  /\ exists w',
       femm_motor_step (F:=float) Examples.femm_ok Examples.cfg1
         ("M1", Examples.motor14) Examples.w_start = (Ok Next, w')
       /\ stored_rows w' "results/M1_static_0p1_dyn_0p5_tilt_0p0.csv" = Some 361
       /\ is_Some (fs w' !! "results/M1_static_0p0_dyn_0p0_tilt_0p0.csv").
Proof.
  assert (Hpos : 0 < 361) by lia.
  split; [exact femm_ok_never_raises|].
  split; [exact fourteen_poles_not_zero|].
  split; [exact fourteen_poles_one_degree|].
  split; [exact Hpos|].
  split; [exact geometry_of_M1_binary64|].
  destruct (every_combination_is_stored (F:=float) Examples.femm_ok Examples.cfg1 "M1"
              Examples.motor14 361 Examples.w_start femm_ok_never_raises
              fourteen_poles_not_zero fourteen_poles_one_degree Hpos
              geometry_of_M1_binary64) as (w' & Hstep & Hall & Hnominal).
  exists w'. split; [exact Hstep|]. split.
  - apply (Hall (Examples.float_0p1, Examples.float_0p5, zero_float)).
    right. right. right. left. reflexivity.
  - apply Hnominal; left; reflexivity.
Defined.

Lemma stage_one_always_completes_witness :
  (forall history : list (femm_call Q),
     exists v, Examples.femm_no_solve history closefemm = Ok v)
  /\ Forall (fun m => fis_zero (pole_pairs_of (F:=Q) m.2) = false)
       (motors Examples.cfg90)
  /\ exists w',
       run_femm_simulations (F:=Q) Examples.femm_no_solve Examples.cfg90
         Examples.w_start = (Ok tt, w')
       /\ last (stdout w') = Some (Str.NL +:+ "--- FEMM Simulation Batch Complete ---").
Proof.
  split; [exact no_solve_closes|].
  split; [exact cfg90_pole_pairs|].
  exact (stage_one_always_completes (F:=Q) Examples.femm_no_solve Examples.cfg90
           Examples.w_start no_solve_closes cfg90_pole_pairs).
Defined.

Lemma uncaught_solver_error_leaves_the_run_witness :
  is_caught UnicodeDecodeError = false
  /\ (forall files : gmap string (file Q),
        Examples.omc_undecodable (length (proc_log Examples.w_stage1)) files
        = OmcRaises UnicodeDecodeError)
  /\ is_Some (fs Examples.w_stage1
             !! paths_modelica_model_template Examples.cfg90)
  /\ is_Some (fs Examples.w_stage1
                !! path_join (paths_results Examples.cfg90) (nominal_case_name "M1"))
  /\ fis_zero (hil_divisor (F:=Q) (PyInt 10)) = false
  /\ exists w',
       run_modelica_simulations (F:=Q) Examples.omc_undecodable Examples.cfg90
         Examples.w_stage1 = (Raise UnicodeDecodeError, w')
       /\ length (proc_log w') = 1
       /\ fs w' !! "results/run_sim.mos" = None.
Proof.
  split; [reflexivity|].
  split; [intros files; reflexivity|].
  split; [exact template_present|].
  split; [exact nominal_of_M1|].
  split; [exact ten_kHz_not_zero|].
  destruct (uncaught_solver_error_leaves_the_run (F:=Q) Examples.omc_undecodable
              Examples.cfg90 "M1" Examples.motor8 [("M2", Examples.motor14)]
              "FOC" ["SixStep"] (PyInt 10) [PyInt 20] (PyInt 1000) []
              UnicodeDecodeError Examples.w_stage1
              eq_refl (fun _ => eq_refl) template_present eq_refl
              nominal_of_M1 eq_refl eq_refl eq_refl ten_kHz_not_zero)
    as (w' & Hrun & Hlog & _ & Hscript & _).
  exists w'. split; [exact Hrun|]. split; [rewrite Hlog; reflexivity|exact Hscript].
Defined.

Lemma two_motors_ready :
  Forall (fun m => can_be_swept (F:=float) Examples.cfg90 m.2
                   /\ is_Some (fs (Examples.w_two_motors (F:=float))
                                 !! path_join (paths_cad Examples.cfg90)
                                      (m.1 +:+ ".dxf")))
    (motors Examples.cfg90).
Proof.
  change (motors Examples.cfg90)
    with [("M1", Examples.motor8); ("M2", Examples.motor14)].
  constructor; [|constructor; [|constructor]].
  - split; [split|].
    + vm_compute. reflexivity.
    + exists 4. split; [vm_compute; reflexivity|lia].
    + vm_compute. eexists. reflexivity.
  - split; [split|].
    + vm_compute. reflexivity.
    + exists 4. split; [vm_compute; reflexivity|lia].
    + vm_compute. eexists. reflexivity.
Defined.

Lemma template_ready :
  is_Some (fs (Examples.w_two_motors (F:=float))
             !! paths_modelica_model_template Examples.cfg90).
Proof. vm_compute. eexists. reflexivity. Defined.

Lemma cfg90_frequencies_binary64 :
  Forall (fun f => fis_zero (hil_divisor (F:=float) f) = false)
    (hil_freq_kHz Examples.cfg90).
Proof. repeat constructor; vm_compute; reflexivity. Defined.

(** [stage_two_runs_every_case_after_stage_one] in binary64 for the two
    motors of [cfg90], both with their geometry: eight solvers. *)
Lemma stage_two_runs_every_case_after_stage_one_witness :
  never_raises (Examples.femm_ok (F:=float))
  /\ solver_installed (Examples.omc_ok (F:=float))
  /\ Forall (fun m => can_be_swept (F:=float) Examples.cfg90 m.2
                      /\ is_Some (fs (Examples.w_two_motors (F:=float))
                                    !! path_join (paths_cad Examples.cfg90)
                                         (m.1 +:+ ".dxf")))
       (motors Examples.cfg90)
  /\ In zero_float (static_ecc_mm Examples.cfg90)
  /\ In zero_float (dynamic_ecc_mm Examples.cfg90)
  /\ In zero_float (tilt_deg Examples.cfg90)
  /\ is_Some (fs (Examples.w_two_motors (F:=float))
                !! paths_modelica_model_template Examples.cfg90)
  /\ Forall (fun f => fis_zero (hil_divisor (F:=float) f) = false)
       (hil_freq_kHz Examples.cfg90)
  /\ exists w1 w2,
       run_femm_simulations (F:=float) Examples.femm_ok Examples.cfg90
         Examples.w_two_motors = (Ok tt, w1)
       /\ run_modelica_simulations Examples.omc_ok Examples.cfg90 w1 = (Ok tt, w2)
       /\ length (proc_log w2) = length (proc_log w1) + 8.
Proof.
  assert (Hs : In zero_float (static_ecc_mm Examples.cfg90)) by (left; reflexivity).
  assert (Hd : In zero_float (dynamic_ecc_mm Examples.cfg90)) by (left; reflexivity).
  assert (Ht : In zero_float (tilt_deg Examples.cfg90)) by (left; reflexivity).
  split; [exact femm_ok_never_raises|].
  split; [exact omc_ok_installed|].
  split; [exact two_motors_ready|].
  split; [exact Hs|]. split; [exact Hd|]. split; [exact Ht|].
  split; [exact template_ready|].
  split; [exact cfg90_frequencies_binary64|].
  destruct (stage_two_runs_every_case_after_stage_one (F:=float) Examples.femm_ok
              Examples.omc_ok Examples.cfg90 Examples.w_two_motors
              femm_ok_never_raises omc_ok_installed two_motors_ready Hs Hd Ht
              template_ready cfg90_frequencies_binary64)
    as (w1 & w2 & Hrun1 & Hrun2 & Hlog).
  exists w1, w2. split; [exact Hrun1|]. split; [exact Hrun2|].
  rewrite Hlog, length_app. reflexivity.
Defined.

(** [sample_count_depends_on_pole_count] on the all-zero case, with the
    session that answers every call. *)
Lemma sample_count_depends_on_pole_count_witness :
  never_raises (Examples.femm_ok (F:=float))
  /\ sweep_step_elec_deg Examples.cfg1 = PyInt 1
  /\ stored_rows
       (femm_case_step (F:=float) Examples.femm_ok Examples.cfg1 "M2"
          {| poles := 14 |} "cad/M2.dxf" 1 (0, Examples.zeros) Examples.w_start).2
       "results/M2_static_0p0_dyn_0p0_tilt_0p0.csv" = Some 361
  /\ stored_rows
       (femm_case_step (F:=float) Examples.femm_ok Examples.cfg1 "M1"
          {| poles := 8 |} "cad/M1.dxf" 1 (0, Examples.zeros) Examples.w_start).2
       "results/M1_static_0p0_dyn_0p0_tilt_0p0.csv" = Some 360.
Proof.
  split; [exact femm_ok_never_raises|]. split; [reflexivity|].
  split.
  - destruct (sample_count_depends_on_pole_count Examples.femm_ok Examples.cfg1 "M2"
                "cad/M2.dxf" 1 0 Examples.zeros Examples.w_start
                femm_ok_never_raises eq_refl) as ((w' & Hstep & Hrows) & _).
    rewrite Hstep. exact Hrows.
  - destruct (sample_count_depends_on_pole_count Examples.femm_ok Examples.cfg1 "M1"
                "cad/M1.dxf" 1 0 Examples.zeros Examples.w_start
                femm_ok_never_raises eq_refl) as (_ & (w' & Hstep & Hrows) & _).
    rewrite Hstep. exact Hrows.
Defined.


(** C6, as stated, fails when the captured output of the solver does not
    decode: [subprocess.run] raises [UnicodeDecodeError], which is not one of
    the two exceptions caught, so nothing is logged for the case and the
    exception leaves [run_modelica_simulations] at the first of the four
    cases of [M1]: the batch does not continue. *)
Lemma undecodable_output_aborts_stage_two :
  (run_modelica_simulations (F:=Q) Examples.omc_undecodable Examples.cfg90
     Examples.w_stage1).1 = Raise UnicodeDecodeError
  /\ length (product3 (controllers Examples.cfg90) (hil_freq_kHz Examples.cfg90)
               (speed_rpm Examples.cfg90)) = 4
  /\ length (proc_log
               (run_modelica_simulations (F:=Q) Examples.omc_undecodable Examples.cfg90
                  Examples.w_stage1).2) = 1
  /\ last (stdout
             (run_modelica_simulations (F:=Q) Examples.omc_undecodable Examples.cfg90
                Examples.w_stage1).2)
     = Some "  Running case: M1_FOC_10kHz_1000rpm".
Proof.
  split; [vm_compute; reflexivity|].
  split; [vm_compute; reflexivity|].
  split; vm_compute; reflexivity.
Qed.
